(** * web-perception-mcp: the session runtime, embedded and verified

    A shallow embedding of the TypeScript session runtime (session manager,
    browser session, capture coordinator, state builder, action executor and
    replay store) together with the properties of its specification.

    Conventions of the embedding:
    - JS numbers that the code uses as counters, indices and epoch
      milliseconds are [Z];
    - JS strings are [string] (byte strings, read as UTF-8);
    - an optional field [f?: T] is [option T]; JS truthiness is written out;
    - a thrown [Error(msg)] is the result [Throw msg]; the state reached at
      the throw is kept, as in JS;
    - a JS [Map] is an insertion-ordered association list;
    - [trim] and [toLowerCase] of a string, which follow the tables of
      Unicode, are built-ins of the platform like [new URL]: the embedding
      holds for any such functions;
    - objects that are shared by reference (the browser sessions) live in a
      heap and are named by their address. *)

From Stdlib Require Import ZArith List String Ascii Bool Lia Arith.
From Stdlib Require Import DecimalString.
Import ListNotations.

Local Open Scope string_scope.
Local Open Scope list_scope.
Local Open Scope Z_scope.

Set Implicit Arguments.

(* ================================================================== *)
(** ** JS strings *)
(* ================================================================== *)

Module JsString.

Notation "a +:+ b" := (String.append a b) (at level 60, right associativity).

(** [!s] for a string: only the empty string is falsy. *)
Definition truthy (s : string) : bool :=
  match s with EmptyString => false | String _ _ => true end.

(** [!o] for an optional string field: [undefined] and [''] are falsy. *)
Definition truthy_opt (o : option string) : bool :=
  match o with Some s => truthy s | None => false end.

(** The UTF-16 code units that a byte of a UTF-8 text stands for. A JS
    string is a sequence of such units: an ASCII byte is one unit; the
    first byte of a sequence of two or three bytes is the one unit of its
    character; the first byte of a sequence of four bytes is the two units
    (a surrogate pair) of a character beyond the basic plane; the other
    bytes of a sequence are counted with its first byte. *)
Definition units_of (c : ascii) : nat :=
  let n := nat_of_ascii c in
  if Nat.ltb n 128 then 1
  else if Nat.ltb n 192 then 0
  else if Nat.ltb n 240 then 1
  else 2.

(** [s.length]: the number of UTF-16 code units of the string. *)
Fixpoint length16 (s : string) : nat :=
  match s with
  | EmptyString => 0
  | String c r => (units_of c + length16 r)%nat
  end.

(** [String(n)] and [`${n}`] for an integer within the safe range,
    [|n| <= 2^53], where JS prints every digit: the counters and the epoch
    milliseconds of the runtime. A number of a larger magnitude is
    printed by JS from its shortest digits, in exponent form from
    [1e21]; no property here relies on the text of such a number. *)
Definition of_Z (z : Z) : string := NilZero.string_of_int (Z.to_int z).

(** [String.prototype.trim] and [String.prototype.toLowerCase]: built-ins
    of the platform, which work with the tables of Unicode (white space,
    line terminators, case mappings). The runtime is embedded over any
    such pair, as it is over [new URL]. *)
Class Builtins := {
  trim : string -> string;
  toLowerCase : string -> string
}.

Definition lower_ascii (c : ascii) : ascii :=
  let n := nat_of_ascii c in
  if (Nat.leb 65 n && Nat.leb n 90)%bool then ascii_of_nat (n + 32) else c.

(** The letters [A] to [Z] in lower case, everything else as it is: the
    case folding under which the [i] flag of a regular expression (without
    the [u] flag) matches a text against the ASCII letters of a pattern; a
    character outside ASCII never matches an ASCII letter. *)
Fixpoint lowerAscii (s : string) : string :=
  match s with
  | EmptyString => EmptyString
  | String c r => String (lower_ascii c) (lowerAscii r)
  end.

(** [s.startsWith(p)]. *)
Fixpoint startsWith (p s : string) : bool :=
  match p, s with
  | EmptyString, _ => true
  | String a p', String b s' => (Ascii.eqb a b && startsWith p' s')%bool
  | String _ _, EmptyString => false
  end.

(** [s.includes(sub)]. *)
Fixpoint includes (sub s : string) : bool :=
  (startsWith sub s ||
   match s with
   | EmptyString => false
   | String _ r => includes sub r
   end)%bool.

Fixpoint rev_acc (s acc : string) : string :=
  match s with
  | EmptyString => acc
  | String c r => rev_acc r (String c acc)
  end.

Definition rev (s : string) : string := rev_acc s EmptyString.

(** [s.endsWith(p)]. *)
Definition endsWith (p s : string) : bool := startsWith (rev p) (rev s).

(** [xs.join(sep)]. *)
Fixpoint join (sep : string) (xs : list string) : string :=
  match xs with
  | [] => EmptyString
  | [x] => x
  | x :: r => x +:+ sep +:+ join sep r
  end.

End JsString.
Import JsString.

(* ================================================================== *)
(** ** JS [Map]: an insertion-ordered association list *)
(* ================================================================== *)

Module JsMap.
Section WithValue.
Variable V : Type.

Definition t := list (string * V).

Definition empty : t := [].

Fixpoint get (k : string) (m : t) : option V :=
  match m with
  | [] => None
  | (k', v) :: r => if String.eqb k k' then Some v else get k r
  end.

Definition has (k : string) (m : t) : bool :=
  match get k m with Some _ => true | None => false end.

(** [m.set(k, v)]: an existing key keeps its place in the order. *)
Fixpoint set (k : string) (v : V) (m : t) : t :=
  match m with
  | [] => [(k, v)]
  | (k', v') :: r =>
      if String.eqb k k' then (k', v) :: r else (k', v') :: set k v r
  end.

(** [m.delete(k)]. *)
Definition delete (k : string) (m : t) : t :=
  filter (fun e => negb (String.eqb k (fst e))) m.

Definition size (m : t) : Z := Z.of_nat (List.length m).

Definition keys (m : t) : list string := map fst m.

Definition entries (m : t) : list (string * V) := m.
End WithValue.
End JsMap.

(* ================================================================== *)
(** ** capture/cdp.ts: [FixedRingBuffer] *)
(* ================================================================== *)

Module Ring.
Section WithItem.
Variable T : Type.

Record FixedRingBuffer := mkRing {
  items : list T;
  dropped : Z;
  maxDepth : Z
}.

(** [new FixedRingBuffer(maxDepth)]. *)
Definition create (maxDepth : Z) : FixedRingBuffer :=
  mkRing [] 0 maxDepth.

(** [items.shift()]: drops the oldest entry, nothing on an empty array. *)
Definition shift (xs : list T) : list T := tl xs.

(** The eviction loop of [push]:
    [while (items.length > maxDepth) { items.shift(); dropped += 1 }].
    [fuel] bounds the iterations; [None] means the bound was reached
    with the loop condition still true. *)
Fixpoint evict (fuel : nat) (r : FixedRingBuffer) : option FixedRingBuffer :=
  if Z.of_nat (List.length (items r)) >? maxDepth r then
    match fuel with
    | O => None
    | S fuel' =>
        evict fuel' (mkRing (shift (items r)) (dropped r + 1) (maxDepth r))
    end
  else Some r.

(** [push(value)]. The loop is given one iteration per stored item,
    which is what it needs whenever it terminates at all. *)
Definition push (v : T) (r : FixedRingBuffer) : option FixedRingBuffer :=
  let r1 := mkRing (items r ++ [v]) (dropped r) (maxDepth r) in
  evict (List.length (items r1)) r1.

Definition popOldest (r : FixedRingBuffer) : option T * FixedRingBuffer :=
  (hd_error (items r), mkRing (shift (items r)) (dropped r) (maxDepth r)).

Definition getAll (r : FixedRingBuffer) : list T := items r.

Definition depth (r : FixedRingBuffer) : Z := Z.of_nat (List.length (items r)).

(** [clear()]: [items.length = 0]; the drop counter stays. *)
Definition clear (r : FixedRingBuffer) : FixedRingBuffer :=
  mkRing [] (dropped r) (maxDepth r).

(** A sequence of pushes, oldest first. *)
Fixpoint pushAll (vs : list T) (r : FixedRingBuffer) : option FixedRingBuffer :=
  match vs with
  | [] => Some r
  | v :: vs' =>
      match push v r with
      | Some r' => pushAll vs' r'
      | None => None
      end
  end.

(** [xs.at(-1)]. *)
Definition newest (r : FixedRingBuffer) : option T :=
  last (map Some (items r)) None.
End WithItem.
End Ring.


(* ================================================================== *)
(** ** The digest used for state tokens and frame checksums

    [crypto.createHash('sha1').update(s).digest('hex')], written out after
    FIPS 180-4 so that tokens compute. Words are 32-bit integers in [Z]
    with the wrap-around spelled [mod 2^32]. *)
(* ================================================================== *)

Module Sha1.

Definition w32 (x : Z) : Z := x mod 4294967296.

Definition rotl (n x : Z) : Z :=
  w32 (Z.lor (Z.shiftl x n) (Z.shiftr x (32 - n))).

Definition bytes_of_string (s : string) : list Z :=
  map (fun c => Z.of_nat (nat_of_ascii c)) (list_ascii_of_string s).

(** Big-endian bytes of [x], [n] of them. *)
Fixpoint be_bytes (n : nat) (x : Z) : list Z :=
  match n with
  | O => []
  | S n' => Z.shiftr x (8 * Z.of_nat n') mod 256 :: be_bytes n' x
  end.

(** The message followed by the bit 1, zeros up to 56 mod 64 and the
    64-bit length in bits. *)
Definition pad (msg : list Z) : list Z :=
  let len := Z.of_nat (List.length msg) in
  let zeros := Z.to_nat ((55 - len) mod 64) in
  msg ++ [128] ++ repeat 0 zeros ++ be_bytes 8 (8 * len).

Fixpoint words_of (fuel : nat) (bs : list Z) : list Z :=
  match fuel, bs with
  | S f, a :: b :: c :: d :: r =>
      (a * 16777216 + b * 65536 + c * 256 + d) :: words_of f r
  | _, _ => []
  end.

(** The message schedule, newest word first: [w(t) = rotl 1 (w(t-3) xor
    w(t-8) xor w(t-14) xor w(t-16))]. *)
Fixpoint extend (n : nat) (rev_ws : list Z) : list Z :=
  match n with
  | O => rev_ws
  | S n' =>
      let w := rotl 1 (Z.lxor (Z.lxor (nth 2 rev_ws 0) (nth 7 rev_ws 0))
                              (Z.lxor (nth 13 rev_ws 0) (nth 15 rev_ws 0))) in
      extend n' (w :: rev_ws)
  end.

Definition lnot32 (x : Z) : Z := 4294967295 - x.

Definition f_k (t : nat) (b c d : Z) : Z * Z :=
  if Nat.ltb t 20 then
    (Z.lor (Z.land b c) (Z.land (lnot32 b) d), 1518500249)
  else if Nat.ltb t 40 then
    (Z.lxor (Z.lxor b c) d, 1859775393)
  else if Nat.ltb t 60 then
    (Z.lor (Z.lor (Z.land b c) (Z.land b d)) (Z.land c d), 2400959708)
  else
    (Z.lxor (Z.lxor b c) d, 3395469782).

Definition Regs := (Z * Z * Z * Z * Z)%type.

Fixpoint rounds (t : nat) (ws : list Z) (h : Regs) : Regs :=
  match ws with
  | [] => h
  | w :: ws' =>
      let '(a, b, c, d, e) := h in
      let '(f, k) := f_k t b c d in
      let temp := w32 (rotl 5 a + f + e + k + w) in
      rounds (S t) ws' (temp, a, rotl 30 b, c, d)
  end.

Definition block (h : Regs) (bs : list Z) : Regs :=
  let ws := List.rev (extend 64 (List.rev (words_of 16 bs))) in
  let '(a, b, c, d, e) := rounds 0 ws h in
  let '(h0, h1, h2, h3, h4) := h in
  (w32 (h0 + a), w32 (h1 + b), w32 (h2 + c), w32 (h3 + d), w32 (h4 + e)).

Fixpoint blocks (fuel : nat) (h : Regs) (bs : list Z) : Regs :=
  match fuel with
  | O => h
  | S f =>
      match bs with
      | [] => h
      | _ => blocks f (block h (firstn 64 bs)) (skipn 64 bs)
      end
  end.

Definition init : Regs :=
  (1732584193, 4023233417, 2562383102, 271733878, 3285377520).

Definition hex_digit (d : Z) : ascii :=
  ascii_of_nat (Z.to_nat (if d <? 10 then 48 + d else 87 + d)).

(** [n] lower-case hex digits of [x], most significant first. *)
Fixpoint hex (n : nat) (x : Z) : string :=
  match n with
  | O => EmptyString
  | S n' => String (hex_digit (Z.shiftr x (4 * Z.of_nat n') mod 16)) (hex n' x)
  end.

Definition digest_hex (s : string) : string :=
  let bs := pad (bytes_of_string s) in
  let '(h0, h1, h2, h3, h4) := blocks (List.length bs) init bs in
  hex 8 h0 +:+ hex 8 h1 +:+ hex 8 h2 +:+ hex 8 h3 +:+ hex 8 h4.

End Sha1.

(** The digests of the empty message and of [abc], as FIPS 180-4 gives
    them. *)
Example sha1_empty :
  Sha1.digest_hex EmptyString = "da39a3ee5e6b4b0d3255bfef95601890afd80709".
Proof. vm_compute. reflexivity. Qed.

Example sha1_abc :
  Sha1.digest_hex "abc" = "a9993e364706816aba3e25717850c26c9cd0d89d".
Proof. vm_compute. reflexivity. Qed.

Example sha1_two_blocks :
  Sha1.digest_hex "abcdbcdecdefdefgefghfghighijhijkijkljklmklmnlmnomnopnopq"
  = "84983e441c3bd26ebaae4aa1f95129e5e54670f1".
Proof. vm_compute. reflexivity. Qed.


(* ================================================================== *)
(** ** types.ts *)
(* ================================================================== *)

Inductive CaptureProfile := adaptive | dom_only | frames_only.

Inductive PolicyMode := model_owns_action | deterministic.

Inductive AgentAction :=
  click | type_ | press | scroll | hover | drag | navigate | wait | wait_for.

Definition CaptureProfile_eqb (a b : CaptureProfile) : bool :=
  match a, b with
  | adaptive, adaptive | dom_only, dom_only | frames_only, frames_only => true
  | _, _ => false
  end.

Definition AgentAction_eqb (a b : AgentAction) : bool :=
  match a, b with
  | click, click | type_, type_ | press, press | scroll, scroll
  | hover, hover | drag, drag | navigate, navigate | wait, wait
  | wait_for, wait_for => true
  | _, _ => false
  end.

(** The string a template literal prints for an action. *)
Definition action_name (a : AgentAction) : string :=
  match a with
  | click => "click" | type_ => "type" | press => "press"
  | scroll => "scroll" | hover => "hover" | drag => "drag"
  | navigate => "navigate" | wait => "wait" | wait_for => "wait_for"
  end.

Record ViewportInput := mkViewport { vp_width : Z; vp_height : Z }.

Record CaptureSettingsInput := mkCaptureSettingsInput {
  include_frame : option bool;
  include_dom : option bool;
  include_ax : option bool;
  include_network : option bool;
  max_frames : option Z
}.

Record SessionCreateInput := mkSessionCreateInput {
  target_url : string;
  sc_viewport : option ViewportInput;
  sc_headless : option bool;
  storage_state : option string;
  capture_profile : option CaptureProfile;
  sc_policy : option PolicyMode;
  max_steps : option Z;
  max_duration_ms : option Z
}.

Record ActionInput := mkActionInput {
  ai_session_id : string;
  ai_action : AgentAction;
  ai_selector : option string;
  ai_text : option string;
  ai_key : option string;
  ai_url : option string;
  ai_x : option Z;
  ai_y : option Z;
  ai_delta_x : option Z;
  ai_delta_y : option Z;
  ai_timeout_ms : option Z;
  ai_capture : option CaptureSettingsInput;
  ai_min_score : option Z;
  ai_max_frame_budget_ms : option Z;
  ai_max_actions_per_step : option Z;
  ai_wait_for : option string
}.

Record SnapshotInput := mkSnapshotInput {
  sn_session_id : string;
  sn_include_frame : option bool;
  sn_include_dom : option bool;
  sn_include_ax : option bool;
  sn_include_network : option bool
}.

Record StopInput := mkStopInput {
  st_session_id : string;
  preserve_artifacts : option bool
}.

Record Bounds := mkBounds { b_x : Z; b_y : Z; b_width : Z; b_height : Z }.

(** [metadata] of a frame reference, as the capture coordinator fills it. *)
Record FrameMetadata := mkFrameMetadata {
  fm_scale : option Z;
  fm_raw_length : Z;
  fm_processing_ms : Z
}.

Record FrameRef := mkFrameRef {
  fr_id : string;
  fr_timestamp : Z;
  fr_width : Z;
  fr_height : Z;
  fr_mime : string;
  fr_checksum : option string;
  fr_storage_path : option string;
  fr_metadata : option FrameMetadata
}.

Record RegionDetection := mkRegionDetection {
  rd_label : string;
  rd_confidence : Z * Z;          (* numerator, denominator *)
  rd_bounds : Bounds
}.

Record DomElementSummary := mkDomElementSummary {
  de_tag : string;
  de_id : option string;
  de_name : option string;
  de_role : option string;
  de_text : option string;
  de_bounds : option Bounds
}.

Record DomSummary := mkDomSummary {
  interactive_count : Z;
  text_inputs : Z;
  buttons : Z;
  links : Z;
  iframes : Z;
  canvas_nodes : Z;
  top_elements : list DomElementSummary
}.

Record NetworkEvent := mkNetworkEvent {
  ne_id : string;
  ne_url : string;
  ne_method : string;
  ne_status : option Z;
  ne_type : option string;
  ne_time : Z;
  ne_failureText : option string
}.

Record QueueHealth := mkQueueHealth {
  frame_queue_depth : Z;
  frame_queue_max : Z;
  dropped_frames : Z;
  pending_frames : Z
}.

(** [accessibility?: unknown]: absent, [null], or the driver's tree kept
    as an opaque blob. *)
Inductive AxValue := AxUndefined | AxNull | AxTree (blob : string).

Record StatePacket := mkStatePacket {
  state_token : string;
  sp_timestamp : Z;
  sp_session_id : string;
  sp_url : string;
  sp_title : string;
  sp_dom : option DomSummary;
  sp_accessibility : AxValue;
  network_events : list NetworkEvent;
  sp_frame_refs : list FrameRef;
  region_detections : option (list RegionDetection);
  change_tokens : list string;
  sp_queue_health : QueueHealth
}.

Record ActionResult := mkActionResult {
  ar_action : AgentAction;
  ar_success : bool;
  ar_status : string;
  ar_target : option string;
  ar_selector : option string;
  ar_coordinates : option (Z * Z);
  ar_detail : option string;
  ar_elapsed_ms : option Z
}.

Record StepResult := mkStepResult {
  sr_state : StatePacket;
  sr_frame_refs : list FrameRef;
  action_result : ActionResult;
  error_codes : list string;
  next_recommendation : string;
  latency_ms : Z;
  sr_queue_health : QueueHealth
}.

Record SessionCapabilities := mkSessionCapabilities {
  cap_capture_profile : CaptureProfile;
  cap_max_steps : Z;
  cap_max_duration_ms : option Z;
  dom_first : bool;
  frame_capture : bool;
  cap_policy : PolicyMode
}.

Record CreateResult := mkCreateResult {
  cr_session_id : string;
  cr_trace_id : string;
  session_capabilities : SessionCapabilities;
  initial_state_snapshot : StatePacket;
  cr_frame_ref : option FrameRef
}.

Record SessionStopResult := mkSessionStopResult {
  ssr_session_id : string;
  final_status : string;
  cleanup_status : string;
  trace_path : option string;
  retained_logs : bool
}.

Inductive ReplayEventType := ev_create | ev_step | ev_snapshot | ev_stop.

(** [payload: unknown], by the four shapes the session writes. *)
Inductive ReplayPayload :=
| PayloadCreate (session_id : string) (initial : StatePacket)
                (capabilities : SessionCapabilities)
| PayloadStep (result : StepResult)
| PayloadSnapshot (state : StatePacket)
| PayloadStop (session_id : string) (preserveArtifacts : bool).

Record ReplayEvent := mkReplayEvent {
  re_type : ReplayEventType;
  re_index : Z;
  re_at : Z;
  re_payload : ReplayPayload
}.

Record ReplayManifest := mkReplayManifest {
  rm_trace_id : string;
  rm_session_id : option string;
  rm_created_at : Z;
  rm_events : list ReplayEvent
}.


(* ================================================================== *)
(** ** policy/policy.ts *)
(* ================================================================== *)

Record ActionDecision := mkActionDecision {
  allowed : bool;
  reason : option string
}.

(** The [PolicyAdapter] interface. [shouldAllowAction] is asynchronous in
    the source and touches no state. *)
Record PolicyAdapter := mkPolicyAdapter {
  mode : PolicyMode;
  shouldAllowAction : option StatePacket -> ActionInput -> ActionDecision
}.

Definition PassthroughPolicy : PolicyAdapter :=
  mkPolicyAdapter model_owns_action
    (fun _state _input => mkActionDecision true None).

(** [/(^javascript:|^data:|^file:|^about:|^chrome:)/i.test(url)]. *)
Definition unsafe_scheme (url : string) : bool :=
  let u := lowerAscii url in
  (startsWith "javascript:" u || startsWith "data:" u || startsWith "file:" u
   || startsWith "about:" u || startsWith "chrome:" u)%bool.

Definition DeterministicPolicy : PolicyAdapter :=
  mkPolicyAdapter deterministic
    (fun _state input =>
       if (AgentAction_eqb (ai_action input) navigate
           && truthy_opt (ai_url input)
           && match ai_url input with
              | Some u => unsafe_scheme u
              | None => false
              end)%bool
       then mkActionDecision false (Some "navigate to unsafe scheme blocked")
       else mkActionDecision true None).

Definition createPolicyAdapter (m : PolicyMode) : PolicyAdapter :=
  match m with
  | deterministic => DeterministicPolicy
  | model_owns_action => PassthroughPolicy
  end.

(* ================================================================== *)
(** ** security/validator.ts: [validateUrl] *)
(* ================================================================== *)

Record ValidationError := mkValidationError {
  code : string;
  message : string
}.

Record ValidationResult := mkValidationResult {
  ok : bool;
  errors : list ValidationError
}.

(** What [validateUrl] reads of a parsed [URL]. *)
Record ParsedURL := mkParsedURL {
  protocol : string;
  hostname : string
}.

Definition string_in (s : string) (xs : list string) : bool :=
  existsb (String.eqb s) xs.

Definition ALLOWED_SCHEMES : list string := ["http:"; "https:"].
Definition DISALLOWED_SCHEMES : list string := ["chrome://"; "file://"; "about:"].

(** [list.map(v => v.trim().toLowerCase()).filter(Boolean)]. *)
Definition normalize_hosts {B : Builtins} (xs : list string) : list string :=
  filter truthy (map (fun v => toLowerCase (trim v)) xs).

(** [entries.some(entry => host === entry || host.endsWith(`.${entry}`))]. *)
Definition host_matches (host : string) (entries : list string) : bool :=
  existsb (fun entry =>
             (String.eqb host entry || endsWith ("." +:+ entry) host)%bool)
          entries.

Section Validator.

Context {B : Builtins}.

(** [new URL(s)] of the platform: [None] when the constructor throws. *)
Variable parseURL : string -> option ParsedURL.

Definition validateUrl (targetUrl : string)
           (explicitAllowlist explicitDenylist : option (list string))
  : ValidationResult :=
  let errors :=
    match parseURL targetUrl with
    | Some parsed =>
        let scheme := protocol parsed in
        let e1 :=
          if negb (string_in scheme ALLOWED_SCHEMES)
          then [mkValidationError "INVALID_SCHEME"
                  ("Unsupported scheme: " +:+ scheme)]
          else [] in
        let origin := scheme +:+ "//" in
        let e2 :=
          if string_in origin DISALLOWED_SCHEMES
          then [mkValidationError "DISALLOWED_SCHEME"
                  ("Blocked scheme: " +:+ scheme)]
          else [] in
        let host := toLowerCase (hostname parsed) in
        let e3 :=
          match explicitAllowlist with
          | Some ((_ :: _) as al) =>
              if negb (host_matches host (normalize_hosts al))
              then [mkValidationError "DOMAIN_NOT_ALLOWED"
                      ("Host " +:+ host +:+ " not in allowlist")]
              else []
          | _ => []
          end in
        let e4 :=
          match explicitDenylist with
          | Some ((_ :: _) as dl) =>
              if host_matches host (normalize_hosts dl)
              then [mkValidationError "DOMAIN_DENIED"
                      ("Host " +:+ host +:+ " is denied")]
              else []
          | _ => []
          end in
        e1 ++ e2 ++ e3 ++ e4
    | None => [mkValidationError "INVALID_URL" "Unable to parse URL"]
    end in
  mkValidationResult (Nat.eqb (List.length errors) 0) errors.

End Validator.

(* ================================================================== *)
(** ** session/browser-session.ts: the pure helpers *)
(* ================================================================== *)

Definition DEFAULT_CAPTURE_MAX_FRAMES : Z := 8.
Definition DEFAULT_MAX_STEPS : Z := 500.
Definition DEFAULT_MAX_DURATION_MS : Z := 20 * 60 * 1000.

(** [getDefaultMaxFrames(captureProfile, requestMax?)]; [requestMax ? .. : ..]
    takes the default for [undefined] and for [0]. *)
Definition getDefaultMaxFrames (captureProfile : CaptureProfile)
           (requestMax : option Z) : Z :=
  let cap :=
    match requestMax with
    | Some r => if r =? 0 then DEFAULT_CAPTURE_MAX_FRAMES
                else Z.min 20 (Z.max 2 r)
    | None => DEFAULT_CAPTURE_MAX_FRAMES
    end in
  match captureProfile with
  | frames_only => cap
  | _ => Z.min 12 (Z.max 3 cap)
  end.

(** [ObserveOptions] of observe/state-builder.ts, also the result type of
    [normalizeCaptureSettings]. *)
Record ObserveOptions := mkObserveOptions {
  includeDom : bool;
  includeAx : bool;
  includeNetwork : bool;
  includeFrame : bool;
  maxFrames : option Z
}.

(** [!!flag] of an optional boolean. *)
Definition flag (o : option bool) : bool :=
  match o with Some b => b | None => false end.

(** [BrowserSession.normalizeCaptureSettings(input?)], with the two fields
    of [this.params] it reads. *)
Definition normalizeCaptureSettings (captureProfile : CaptureProfile)
           (paramsMaxFrames : Z) (input : option CaptureSettingsInput)
  : ObserveOptions :=
  match input with
  | None =>
      mkObserveOptions
        (negb (CaptureProfile_eqb captureProfile frames_only))
        (negb (CaptureProfile_eqb captureProfile frames_only))
        true
        (negb (CaptureProfile_eqb captureProfile dom_only))
        (Some paramsMaxFrames)
  | Some i =>
      let maxFrames := max_frames i in
      let hasAny :=
        (flag (include_dom i) || flag (include_ax i)
         || flag (include_frame i) || flag (include_network i))%bool in
      if negb hasAny then
        mkObserveOptions
          (negb (CaptureProfile_eqb captureProfile frames_only))
          (negb (CaptureProfile_eqb captureProfile frames_only))
          true
          (negb (CaptureProfile_eqb captureProfile dom_only))
          maxFrames
      else
        mkObserveOptions
          (flag (include_dom i))
          (flag (include_ax i))
          (flag (include_network i))
          (flag (include_frame i))
          maxFrames
  end.

(** [shouldRetry(result)]. *)
Definition shouldRetry {B : Builtins} (result : ActionResult) : bool :=
  if negb (ar_success result) then
    match ar_detail result with
    | Some d => negb (includes "timeout" (toLowerCase d))
    | None => true       (* [!undefined] *)
    end
  else false.

(* ================================================================== *)
(** ** observe/state-builder.ts: the pure helpers *)
(* ================================================================== *)

(** [computeChangeTokens(previous, current)]. *)
Definition computeChangeTokens (previous current : string) : list string :=
  if negb (truthy previous) then ["INIT"]
  else if String.eqb previous current then ["NO_CHANGE"]
  else ["STATE_CHANGED"].

Module Json.

Definition dquote : string := String (ascii_of_nat 34) EmptyString.

(** The escape of one character in [JSON.stringify] of a string. *)
Definition escape_char (c : ascii) : string :=
  let n := nat_of_ascii c in
  if Nat.eqb n 34 then "\" +:+ dquote
  else if Nat.eqb n 92 then "\\"
  else if Nat.eqb n 8 then "\b"
  else if Nat.eqb n 9 then "\t"
  else if Nat.eqb n 10 then "\n"
  else if Nat.eqb n 12 then "\f"
  else if Nat.eqb n 13 then "\r"
  else if Nat.ltb n 32 then "\u00" +:+ Sha1.hex 2 (Z.of_nat n)
  else String c EmptyString.

Fixpoint escape (s : string) : string :=
  match s with
  | EmptyString => EmptyString
  | String c r => escape_char c +:+ escape r
  end.

Definition str (s : string) : string := dquote +:+ escape s +:+ dquote.

Definition num (z : Z) : string := of_Z z.

Definition member (key value : string) : string :=
  dquote +:+ key +:+ dquote +:+ ":" +:+ value.

Definition object (members : list string) : string :=
  "{" +:+ join "," members +:+ "}".

End Json.

(** The seed of the state token:
    [JSON.stringify({url, title, dom: counts or {}, networkCount, frameCount})]. *)
Definition tokenSeed (url title : string) (domSummary : option DomSummary)
           (networkCount frameCount : Z) : string :=
  Json.object
    [ Json.member "url" (Json.str url);
      Json.member "title" (Json.str title);
      Json.member "dom"
        match domSummary with
        | Some d =>
            Json.object
              [ Json.member "interactive_count" (Json.num (interactive_count d));
                Json.member "buttons" (Json.num (buttons d));
                Json.member "text_inputs" (Json.num (text_inputs d));
                Json.member "links" (Json.num (links d));
                Json.member "iframes" (Json.num (iframes d));
                Json.member "canvas_nodes" (Json.num (canvas_nodes d)) ]
        | None => Json.object []
        end;
      Json.member "networkCount" (Json.num networkCount);
      Json.member "frameCount" (Json.num frameCount) ].

Definition REGION_CONFIDENCE : Z * Z := (78, 100).

(** The region detections of a packet: top elements that have bounds. *)
Definition regionDetections (domSummary : option DomSummary)
  : list RegionDetection :=
  match domSummary with
  | Some d =>
      flat_map
        (fun element =>
           match de_bounds element with
           | Some b =>
               [mkRegionDetection
                  (de_tag element +:+
                   match de_id element with
                   | Some i => if truthy i then "#" +:+ i else EmptyString
                   | None => EmptyString
                   end)
                  REGION_CONFIDENCE b]
           | None => []
           end)
        (top_elements d)
  | None => []
  end.

(** [xs.slice(-n)] for [n >= 0]: the last [n] entries ([slice(-0)] is the
    whole array). *)
Definition slice_last {A : Type} (n : Z) (xs : list A) : list A :=
  if n =? 0 then xs
  else skipn (List.length xs - Z.to_nat n) xs.

(** [normalizeFrameRefs]: a field-by-field copy. *)
Definition normalizeFrameRefs (refs : list FrameRef) : list FrameRef :=
  map (fun frame =>
         mkFrameRef (fr_id frame) (fr_timestamp frame) (fr_width frame)
                    (fr_height frame) (fr_mime frame) (fr_checksum frame)
                    (fr_storage_path frame) (fr_metadata frame))
      refs.

(** [withSessionId(state, sessionId)]. *)
Definition withSessionId (state : StatePacket) (sessionId : string)
  : StatePacket :=
  mkStatePacket (state_token state) (sp_timestamp state) sessionId
    (sp_url state) (sp_title state) (sp_dom state) (sp_accessibility state)
    (network_events state) (sp_frame_refs state) (region_detections state)
    (change_tokens state) (sp_queue_health state).


(* ================================================================== *)
(** ** The outside world: clock, identifiers, browser driver, files

    Everything the runtime awaits from outside is one typed call. The
    environment answers each call with a rejection (the [Error]'s message)
    or a value, and may change its own state while doing so. The runtime's
    code never looks inside that state. *)
(* ================================================================== *)

(** A driver object (browser, context, page, CDP session). *)
Definition Handle := nat.

Inductive CdpCommand :=
| PageEnable
| PageStartScreencast (quality : Z) (maxWidth maxHeight : option Z)
| PageStopScreencast
| PageScreencastFrameAck (sessionId : string).

Inductive ExtCall : Type -> Type :=
(* playwright: life cycle *)
| Launch (headless : bool) (args : list string) : ExtCall Handle
| NewContext (browser : Handle) (viewport : option ViewportInput)
             (storageState : option string) : ExtCall Handle
| NewPage (context : Handle) : ExtCall Handle
| NewCDPSession (context page : Handle) : ExtCall Handle
| CdpSend (cdp : Handle) (command : CdpCommand) : ExtCall unit
| CdpDetach (cdp : Handle) : ExtCall unit
| PageRoute (page : Handle) : ExtCall unit
| PageGoto (page : Handle) (url : string) (timeout : Z) : ExtCall unit
| PageClose (page : Handle) : ExtCall unit
| ContextClose (context : Handle) : ExtCall unit
| BrowserClose (browser : Handle) : ExtCall unit
(* playwright: observation *)
| PageTitle (page : Handle) : ExtCall string
| PageEvaluateDom (page : Handle) : ExtCall DomSummary
| AccessibilitySnapshot (page : Handle) : ExtCall AxValue
(* playwright: actions *)
| LocatorCount (page : Handle) (selector : string) : ExtCall Z
| LocatorWaitForVisible (page : Handle) (selector : string) (timeout : Z)
  : ExtCall unit
| LocatorClick (page : Handle) (selector : string) (timeout : Z) : ExtCall unit
| LocatorHover (page : Handle) (selector : string) (timeout : Z) : ExtCall unit
| LocatorScrollIntoView (page : Handle) (selector : string) : ExtCall unit
| LocatorFill (page : Handle) (selector text : string) (timeout : Z)
  : ExtCall unit
| MouseClick (page : Handle) (x y : Z) : ExtCall unit
| MouseMove (page : Handle) (x y : Z) (steps : option Z) : ExtCall unit
| MouseDown (page : Handle) : ExtCall unit
| MouseUp (page : Handle) : ExtCall unit
| MouseWheel (page : Handle) (dx dy : Z) : ExtCall unit
| KeyboardType (page : Handle) (text : string) : ExtCall unit
| KeyboardPress (page : Handle) (key : string) (delay : Z) : ExtCall unit
| WaitForTimeout (page : Handle) (ms : Z) : ExtCall unit
| WaitForLoadState (page : Handle) (state : string) (timeout : Z)
  : ExtCall unit
| WaitForSelector (page : Handle) (selector : string) (timeout : Z)
  : ExtCall unit
(* fs/promises: whether the operation goes through *)
| FsMkdir (path : string) : ExtCall unit
| FsAppendFile (path : string) : ExtCall unit
| FsReadFile (path : string) : ExtCall unit
| FsWriteFile (path : string) : ExtCall unit
| FsRm (path : string) : ExtCall unit.

Record FrameEventMetadata := mkFrameEventMetadata {
  deviceWidth : option Z;
  deviceHeight : option Z;
  md_timestamp : option Z;
  md_scale : option Z
}.

Record FramePayload := mkFramePayload {
  fp_sessionId : option string;
  fp_data : option string;
  fp_metadata : option FrameEventMetadata
}.

(** What the driver pushes to the handlers a session registered. *)
Inductive DriverEvent :=
| OnRequest (url method resourceType : string)
| OnResponse (url method : string) (status : Z) (resourceType : string)
| OnRequestFailed (url method resourceType : string)
                  (errorText : option string)
| OnScreencastFrame (payload : option FramePayload).

Class Env (E : Type) := {
  (** [Date.now()]. *)
  env_now : E -> Z * E;
  (** [crypto.randomUUID()]. *)
  env_randomUUID : E -> string * E;
  (** An awaited call: rejected with a message, or resolved. *)
  env_await : forall A, ExtCall A -> E -> (string + A) * E;
  (** [page.url()] and [page.isClosed()], which are synchronous. *)
  env_page_url : Handle -> E -> string;
  env_page_isClosed : Handle -> E -> bool;
  (** The race of [withTimeout]: [true] when the timer of that many
      milliseconds fired before the awaited work was done. *)
  env_timer_first : Z -> E -> bool * E;
  (** The events the driver delivers while the runtime is suspended in an
      await, each with the address of the session whose handlers take it. *)
  env_events : E -> list (nat * DriverEvent) * E;
  (** [new URL(s)]. *)
  env_parseURL : string -> option ParsedURL;
  (** [Buffer.from(s, 'base64')]. *)
  env_base64 : string -> string;
  (** [path.resolve(process.cwd(), 'traces')]. *)
  env_TRACE_DIR : string;
  (** [String.prototype.trim] and [String.prototype.toLowerCase]. *)
  env_builtins :: Builtins
}.

(* ================================================================== *)
(** ** The state of the runtime *)
(* ================================================================== *)

(** telemetry/metrics.ts *)
Record MetricsCollector := mkMetricsCollector {
  stepLatencies : list Z;
  droppedFrames : Z;
  actionFailures : Z;
  steps : Z
}.

Definition maxLatencySamples : Z := 500.

Definition recordStepLatency (ms : Z) (m : MetricsCollector) : MetricsCollector :=
  let l := stepLatencies m ++ [Z.max 0 ms] in
  mkMetricsCollector
    (if Z.of_nat (List.length l) >? maxLatencySamples then tl l else l)
    (droppedFrames m) (actionFailures m) (steps m + 1).

Definition recordFrameDrops (count : Z) (m : MetricsCollector) : MetricsCollector :=
  if count >? 0 then
    mkMetricsCollector (stepLatencies m) (droppedFrames m + count)
                       (actionFailures m) (steps m)
  else m.

Definition recordActionFailure (m : MetricsCollector) : MetricsCollector :=
  mkMetricsCollector (stepLatencies m) (droppedFrames m)
                     (actionFailures m + 1) (steps m).


(* ------------------------------------------------------------------ *)
(** ** telemetry/metrics.ts: [MetricsCollector.snapshot] *)
(* ------------------------------------------------------------------ *)

Record MetricsSnapshot := mkMetricsSnapshot {
  steps_total : Z;
  step_latency_ms_p50 : Z;
  step_latency_ms_p95 : Z;
  ms_dropped_frames : Z;
  action_failures : Z;
  active_sessions : Z
}.

(** [xs.sort((a, b) => a - b)] on numbers: ascending. *)
Fixpoint insert_number (x : Z) (sorted : list Z) : list Z :=
  match sorted with
  | [] => [x]
  | y :: r => if x <=? y then x :: y :: r else y :: insert_number x r
  end.

Fixpoint sort_numbers (xs : list Z) : list Z :=
  match xs with
  | [] => []
  | x :: r => insert_number x (sort_numbers r)
  end.

(** The closure [percentile] of [snapshot], over the sorted samples. *)
Definition percentile (sorted : list Z) (p : Z) : Z :=
  if Nat.eqb (List.length sorted) 0 then 0
  else
    let idx := Z.min (Z.of_nat (List.length sorted) - 1)
                     (Z.of_nat (List.length sorted) * p / 100) in
    nth (Z.to_nat idx) sorted 0.

(** [MetricsCollector.snapshot(activeSessions)]. *)
Definition MetricsCollector_snapshot (m : MetricsCollector)
           (activeSessions : Z) : MetricsSnapshot :=
  let sorted := sort_numbers (stepLatencies m) in
  mkMetricsSnapshot (steps m) (percentile sorted 50) (percentile sorted 95)
                    (droppedFrames m) (actionFailures m) activeSessions.

(** [new MetricsCollector()]. *)
Definition newMetricsCollector : MetricsCollector :=
  mkMetricsCollector [] 0 0 0.

(** capture/cdp.ts *)
Record FrameOptions := mkFrameOptions {
  fo_enabled : bool;
  fo_traceId : string;
  fo_sessionId : string;
  frameQuality : Z;
  fo_maxWidth : option Z;
  fo_maxHeight : option Z;
  fo_maxFrames : Z;
  fo_adaptive : bool;
  fo_traceDir : string
}.

Record CaptureCoordinator := mkCaptureCoordinator {
  cfg_page : Handle;
  cfg_context : Handle;
  cfg_options : FrameOptions;
  cfg_metrics : bool;                   (* is [cfg.metrics] given *)
  frameBuffer : Ring.FixedRingBuffer FrameRef;
  frameEventHandler : bool;             (* is the listener registered *)
  cdpSession : option Handle;
  cc_active : bool;
  pendingAcks : Z;
  lastCaptureMs : Z;
  burstUntilMs : Z;
  cdpFrameSeq : Z;
  detached : bool;
  lastDroppedFrames : Z
}.

(** observe/state-builder.ts. The builder's [captureCoordinator] and
    [networkRing] are the session's own objects. *)
Record StateBuilder := mkStateBuilder {
  sb_page : Handle;
  lastStateToken : string
}.

(** session/browser-session.ts. [metrics] of the parameters is the
    process-wide collector of the world. *)
Record BrowserSessionParams := mkBrowserSessionParams {
  p_input : SessionCreateInput;
  p_policy : PolicyAdapter;
  p_maxSteps : Z;
  p_traceId : string;
  p_captureProfile : CaptureProfile;
  p_headless : bool;
  p_viewport : option ViewportInput;
  p_storageState : option string;
  p_maxFrames : Z;
  p_maxDurationMs : option Z
}.

(** The [networkEvents] array is the one the state builder holds as
    [networkRing] and the one [step] hands to the executor: one field. *)
Record BrowserSession := mkBrowserSession {
  bs_id : string;
  params : BrowserSessionParams;
  browser : option Handle;
  context : option Handle;
  page : option Handle;
  captureCoordinator : option CaptureCoordinator;
  stateBuilder : option StateBuilder;
  actionExecutor : option Handle;       (* the executor holds the page *)
  networkEvents : list NetworkEvent;
  requestId : Z;
  active : bool;
  stepIndex : Z;
  createdAt : Z;
  lastFrame : option FrameRef
}.

(** session/session-manager.ts. The [sessions] map holds references. *)
Record SessionManager := mkSessionManager {
  sessions : JsMap.t nat;
  created : JsMap.t Z;
  maxSessions : Z;
  defaultHeadless : bool;
  allowedDomains : list string;
  deniedDomains : list string;
  maxAgeMs : Z;
  policyMode : PolicyMode
}.

(** One line of a trace log: an event, or text [JSON.parse] rejects. *)
Inductive Line := LineEvent (e : ReplayEvent) | LineJunk.

Record TraceIndex := mkTraceIndex {
  ti_traceId : string;
  ti_total : Z;
  ti_updated_at : Z
}.


(** Field updates. *)
Definition set_frameBuffer (v : Ring.FixedRingBuffer FrameRef)
           (c : CaptureCoordinator) : CaptureCoordinator :=
  mkCaptureCoordinator (cfg_page c) (cfg_context c) (cfg_options c)
    (cfg_metrics c) v (frameEventHandler c) (cdpSession c) (cc_active c)
    (pendingAcks c) (lastCaptureMs c) (burstUntilMs c) (cdpFrameSeq c)
    (detached c) (lastDroppedFrames c).

Definition set_frameEventHandler (v : bool) (c : CaptureCoordinator)
  : CaptureCoordinator :=
  mkCaptureCoordinator (cfg_page c) (cfg_context c) (cfg_options c)
    (cfg_metrics c) (frameBuffer c) v (cdpSession c) (cc_active c)
    (pendingAcks c) (lastCaptureMs c) (burstUntilMs c) (cdpFrameSeq c)
    (detached c) (lastDroppedFrames c).

Definition set_cdpSession (v : option Handle) (c : CaptureCoordinator)
  : CaptureCoordinator :=
  mkCaptureCoordinator (cfg_page c) (cfg_context c) (cfg_options c)
    (cfg_metrics c) (frameBuffer c) (frameEventHandler c) v (cc_active c)
    (pendingAcks c) (lastCaptureMs c) (burstUntilMs c) (cdpFrameSeq c)
    (detached c) (lastDroppedFrames c).

Definition set_cc_active (v : bool) (c : CaptureCoordinator)
  : CaptureCoordinator :=
  mkCaptureCoordinator (cfg_page c) (cfg_context c) (cfg_options c)
    (cfg_metrics c) (frameBuffer c) (frameEventHandler c) (cdpSession c) v
    (pendingAcks c) (lastCaptureMs c) (burstUntilMs c) (cdpFrameSeq c)
    (detached c) (lastDroppedFrames c).

Definition set_pendingAcks (v : Z) (c : CaptureCoordinator)
  : CaptureCoordinator :=
  mkCaptureCoordinator (cfg_page c) (cfg_context c) (cfg_options c)
    (cfg_metrics c) (frameBuffer c) (frameEventHandler c) (cdpSession c)
    (cc_active c) v (lastCaptureMs c) (burstUntilMs c) (cdpFrameSeq c)
    (detached c) (lastDroppedFrames c).

Definition set_lastCaptureMs (v : Z) (c : CaptureCoordinator)
  : CaptureCoordinator :=
  mkCaptureCoordinator (cfg_page c) (cfg_context c) (cfg_options c)
    (cfg_metrics c) (frameBuffer c) (frameEventHandler c) (cdpSession c)
    (cc_active c) (pendingAcks c) v (burstUntilMs c) (cdpFrameSeq c)
    (detached c) (lastDroppedFrames c).

Definition set_burstUntilMs (v : Z) (c : CaptureCoordinator)
  : CaptureCoordinator :=
  mkCaptureCoordinator (cfg_page c) (cfg_context c) (cfg_options c)
    (cfg_metrics c) (frameBuffer c) (frameEventHandler c) (cdpSession c)
    (cc_active c) (pendingAcks c) (lastCaptureMs c) v (cdpFrameSeq c)
    (detached c) (lastDroppedFrames c).

Definition set_cdpFrameSeq (v : Z) (c : CaptureCoordinator)
  : CaptureCoordinator :=
  mkCaptureCoordinator (cfg_page c) (cfg_context c) (cfg_options c)
    (cfg_metrics c) (frameBuffer c) (frameEventHandler c) (cdpSession c)
    (cc_active c) (pendingAcks c) (lastCaptureMs c) (burstUntilMs c) v
    (detached c) (lastDroppedFrames c).

Definition set_detached (v : bool) (c : CaptureCoordinator)
  : CaptureCoordinator :=
  mkCaptureCoordinator (cfg_page c) (cfg_context c) (cfg_options c)
    (cfg_metrics c) (frameBuffer c) (frameEventHandler c) (cdpSession c)
    (cc_active c) (pendingAcks c) (lastCaptureMs c) (burstUntilMs c)
    (cdpFrameSeq c) v (lastDroppedFrames c).

Definition set_lastDroppedFrames (v : Z) (c : CaptureCoordinator)
  : CaptureCoordinator :=
  mkCaptureCoordinator (cfg_page c) (cfg_context c) (cfg_options c)
    (cfg_metrics c) (frameBuffer c) (frameEventHandler c) (cdpSession c)
    (cc_active c) (pendingAcks c) (lastCaptureMs c) (burstUntilMs c)
    (cdpFrameSeq c) (detached c) v.

Definition set_browser (v : option Handle) (s : BrowserSession) : BrowserSession :=
  mkBrowserSession (bs_id s) (params s) v (context s) (page s)
    (captureCoordinator s) (stateBuilder s) (actionExecutor s)
    (networkEvents s) (requestId s) (active s) (stepIndex s) (createdAt s)
    (lastFrame s).

Definition set_context (v : option Handle) (s : BrowserSession) : BrowserSession :=
  mkBrowserSession (bs_id s) (params s) (browser s) v (page s)
    (captureCoordinator s) (stateBuilder s) (actionExecutor s)
    (networkEvents s) (requestId s) (active s) (stepIndex s) (createdAt s)
    (lastFrame s).

Definition set_page (v : option Handle) (s : BrowserSession) : BrowserSession :=
  mkBrowserSession (bs_id s) (params s) (browser s) (context s) v
    (captureCoordinator s) (stateBuilder s) (actionExecutor s)
    (networkEvents s) (requestId s) (active s) (stepIndex s) (createdAt s)
    (lastFrame s).

Definition set_captureCoordinator (v : option CaptureCoordinator)
           (s : BrowserSession) : BrowserSession :=
  mkBrowserSession (bs_id s) (params s) (browser s) (context s) (page s)
    v (stateBuilder s) (actionExecutor s)
    (networkEvents s) (requestId s) (active s) (stepIndex s) (createdAt s)
    (lastFrame s).

Definition set_stateBuilder (v : option StateBuilder) (s : BrowserSession)
  : BrowserSession :=
  mkBrowserSession (bs_id s) (params s) (browser s) (context s) (page s)
    (captureCoordinator s) v (actionExecutor s)
    (networkEvents s) (requestId s) (active s) (stepIndex s) (createdAt s)
    (lastFrame s).

Definition set_actionExecutor (v : option Handle) (s : BrowserSession)
  : BrowserSession :=
  mkBrowserSession (bs_id s) (params s) (browser s) (context s) (page s)
    (captureCoordinator s) (stateBuilder s) v
    (networkEvents s) (requestId s) (active s) (stepIndex s) (createdAt s)
    (lastFrame s).

Definition set_networkEvents (v : list NetworkEvent) (s : BrowserSession)
  : BrowserSession :=
  mkBrowserSession (bs_id s) (params s) (browser s) (context s) (page s)
    (captureCoordinator s) (stateBuilder s) (actionExecutor s)
    v (requestId s) (active s) (stepIndex s) (createdAt s) (lastFrame s).

Definition set_requestId (v : Z) (s : BrowserSession) : BrowserSession :=
  mkBrowserSession (bs_id s) (params s) (browser s) (context s) (page s)
    (captureCoordinator s) (stateBuilder s) (actionExecutor s)
    (networkEvents s) v (active s) (stepIndex s) (createdAt s) (lastFrame s).

Definition set_active (v : bool) (s : BrowserSession) : BrowserSession :=
  mkBrowserSession (bs_id s) (params s) (browser s) (context s) (page s)
    (captureCoordinator s) (stateBuilder s) (actionExecutor s)
    (networkEvents s) (requestId s) v (stepIndex s) (createdAt s) (lastFrame s).

Definition set_stepIndex (v : Z) (s : BrowserSession) : BrowserSession :=
  mkBrowserSession (bs_id s) (params s) (browser s) (context s) (page s)
    (captureCoordinator s) (stateBuilder s) (actionExecutor s)
    (networkEvents s) (requestId s) (active s) v (createdAt s) (lastFrame s).

Definition set_createdAt (v : Z) (s : BrowserSession) : BrowserSession :=
  mkBrowserSession (bs_id s) (params s) (browser s) (context s) (page s)
    (captureCoordinator s) (stateBuilder s) (actionExecutor s)
    (networkEvents s) (requestId s) (active s) (stepIndex s) v (lastFrame s).

Definition set_lastFrame (v : option FrameRef) (s : BrowserSession)
  : BrowserSession :=
  mkBrowserSession (bs_id s) (params s) (browser s) (context s) (page s)
    (captureCoordinator s) (stateBuilder s) (actionExecutor s)
    (networkEvents s) (requestId s) (active s) (stepIndex s) (createdAt s) v.

Definition set_sessions (v : JsMap.t nat) (m : SessionManager) : SessionManager :=
  mkSessionManager v (created m) (maxSessions m) (defaultHeadless m)
    (allowedDomains m) (deniedDomains m) (maxAgeMs m) (policyMode m).

Definition set_created (v : JsMap.t Z) (m : SessionManager) : SessionManager :=
  mkSessionManager (sessions m) v (maxSessions m) (defaultHeadless m)
    (allowedDomains m) (deniedDomains m) (maxAgeMs m) (policyMode m).

(** [xs[i] = v] on the heap; nothing outside its bounds. *)
Fixpoint list_set {A : Type} (i : nat) (v : A) (xs : list A) : list A :=
  match xs, i with
  | [], _ => []
  | _ :: r, O => v :: r
  | x :: r, S i' => x :: list_set i' v r
  end.

(** The result of running a piece of the runtime: a value, or a thrown
    [Error] with its message. *)
Inductive Res (A : Type) := Ok (a : A) | Throw (msg : string).
Arguments Ok {A} a.
Arguments Throw {A} msg.

Section Runtime.

Context {E : Type} {Environment : Env E}.

Record World := mkWorld {
  env : E;
  fs_logs : JsMap.t (list Line);        (* the .jsonl trace logs, by path *)
  fs_index : JsMap.t TraceIndex;        (* the .index.json files, by path *)
  fs_frames : JsMap.t string;           (* the frame artifacts, by path *)
  heap : list BrowserSession;
  metrics : MetricsCollector;
  manager : SessionManager
}.

Definition set_env (v : E) (w : World) : World :=
  mkWorld v (fs_logs w) (fs_index w) (fs_frames w) (heap w) (metrics w)
          (manager w).

Definition set_fs_logs (v : JsMap.t (list Line)) (w : World) : World :=
  mkWorld (env w) v (fs_index w) (fs_frames w) (heap w) (metrics w)
          (manager w).

Definition set_fs_index (v : JsMap.t TraceIndex) (w : World) : World :=
  mkWorld (env w) (fs_logs w) v (fs_frames w) (heap w) (metrics w)
          (manager w).

Definition set_fs_frames (v : JsMap.t string) (w : World) : World :=
  mkWorld (env w) (fs_logs w) (fs_index w) v (heap w) (metrics w)
          (manager w).

Definition set_heap (v : list BrowserSession) (w : World) : World :=
  mkWorld (env w) (fs_logs w) (fs_index w) (fs_frames w) v (metrics w)
          (manager w).

Definition set_metrics (v : MetricsCollector) (w : World) : World :=
  mkWorld (env w) (fs_logs w) (fs_index w) (fs_frames w) (heap w) v
          (manager w).

Definition set_manager (v : SessionManager) (w : World) : World :=
  mkWorld (env w) (fs_logs w) (fs_index w) (fs_frames w) (heap w)
          (metrics w) v.

(** *** The monad of the runtime: state that survives a throw *)

Definition M (A : Type) : Type := World -> Res A * World.

Definition ret {A : Type} (a : A) : M A := fun w => (Ok a, w).

Definition throw {A : Type} (msg : string) : M A := fun w => (Throw msg, w).

Definition bind {A B : Type} (m : M A) (k : A -> M B) : M B :=
  fun w =>
    match m w with
    | (Ok a, w') => k a w'
    | (Throw msg, w') => (Throw msg, w')
    end.

(** [try { m } catch (error) { h(error.message) }]. *)
Definition try_catch {A : Type} (m : M A) (h : string -> M A) : M A :=
  fun w =>
    match m w with
    | (Ok a, w') => (Ok a, w')
    | (Throw msg, w') => h msg w'
    end.

(** [try { m } finally { f }]. *)
Definition try_finally {A : Type} (m : M A) (f : M unit) : M A :=
  fun w =>
    match m w with
    | (r, w') =>
        match f w' with
        | (Ok _, w'') => (r, w'')
        | (Throw msg, w'') => (Throw msg, w'')
        end
    end.

(** [await m.catch(() => undefined)]. *)
Definition swallow {A : Type} (m : M A) : M unit :=
  fun w => (Ok tt, snd (m w)).

Definition gets {A : Type} (f : World -> A) : M A := fun w => (Ok (f w), w).

Definition modify (f : World -> World) : M unit := fun w => (Ok tt, f w).

Notation "x <- m ;; k" := (bind m (fun x => k))
  (at level 100, m at next level, right associativity).
Notation "m ;;; k" := (bind m (fun _ => k))
  (at level 100, right associativity).

(** [Date.now()]. *)
Definition now : M Z :=
  fun w => let (t, e) := env_now (env w) in (Ok t, set_env e w).

(** [crypto.randomUUID()]. *)
Definition randomUUID : M string :=
  fun w => let (u, e) := env_randomUUID (env w) in (Ok u, set_env e w).

(** An awaited call, as seen from inside an event handler. *)
Definition await_quiet {A : Type} (c : ExtCall A) : M A :=
  fun w =>
    let (r, e) := env_await c (env w) in
    (match r with inl msg => Throw msg | inr a => Ok a end, set_env e w).

(** *** The heap of sessions *)

Definition getS (a : nat) : M BrowserSession :=
  fun w =>
    match nth_error (heap w) a with
    | Some s => (Ok s, w)
    | None => (Throw "dangling session reference", w)
    end.

Definition modS (a : nat) (f : BrowserSession -> BrowserSession) : M unit :=
  fun w =>
    match nth_error (heap w) a with
    | Some s => (Ok tt, set_heap (list_set a (f s) (heap w)) w)
    | None => (Throw "dangling session reference", w)
    end.

(** [new BrowserSession(..)]: the address of the fresh object. *)
Definition allocS (s : BrowserSession) : M nat :=
  fun w => (Ok (List.length (heap w)), set_heap (heap w ++ [s]) w).

Definition getC (a : nat) : M CaptureCoordinator :=
  s <- getS a ;;
  match captureCoordinator s with
  | Some c => ret c
  | None => throw "Cannot read properties of undefined"
  end.

Definition modC (a : nat) (f : CaptureCoordinator -> CaptureCoordinator)
  : M unit :=
  modS a (fun s =>
            match captureCoordinator s with
            | Some c => set_captureCoordinator (Some (f c)) s
            | None => s
            end).


(** *** The handlers a session registers with the driver

    [context.on('request' | 'response' | 'requestfailed', ..)] of
    [BrowserSession.start]: push one event, drop the oldest above 500. *)

Definition trim_ring (cap : Z) (ring : list NetworkEvent) : list NetworkEvent :=
  if Z.of_nat (List.length ring) >? cap then tl ring else ring.

Definition pushNetwork (a : nat) (prefix : string)
           (mk : string -> Z -> NetworkEvent) : M unit :=
  t1 <- now ;;
  s <- getS a ;;
  let rid := requestId s + 1 in
  modS a (set_requestId rid) ;;;
  t2 <- now ;;
  modS a (fun s =>
            set_networkEvents
              (trim_ring 500
                 (networkEvents s ++
                  [mk (prefix +:+ of_Z t1 +:+ "_" +:+ of_Z rid) t2]))
              s).

Definition onRequest (a : nat) (url method resourceType : string) : M unit :=
  pushNetwork a "r_"
    (fun id t => mkNetworkEvent id url method None (Some resourceType) t None).

Definition onResponse (a : nat) (url method : string) (status : Z)
           (resourceType : string) : M unit :=
  pushNetwork a "p_"
    (fun id t =>
       mkNetworkEvent id url method (Some status) (Some resourceType) t None).

Definition onRequestFailed (a : nat) (url method resourceType : string)
           (errorText : option string) : M unit :=
  pushNetwork a "f_"
    (fun id t =>
       mkNetworkEvent id url method (Some 0) (Some resourceType) t errorText).

(** [CaptureCoordinator.ackFrame(sessionId)]. *)
Definition ackFrame (a : nat) (sessionId : string) : M unit :=
  c <- getC a ;;
  match cdpSession c with
  | Some cdp =>
      if detached c then ret tt
      else await_quiet (CdpSend cdp (PageScreencastFrameAck sessionId))
  | None => ret tt
  end.

(** [CaptureCoordinator.shouldCaptureFrame(nowMs)]. *)
Definition shouldCaptureFrame (a : nat) (nowMs : Z) : M bool :=
  c <- getC a ;;
  let baselineInterval := 333 in
  let burstInterval := 125 in
  let interval :=
    if nowMs <? burstUntilMs c then burstInterval else baselineInterval in
  if lastCaptureMs c =? 0 then
    modC a (set_lastCaptureMs nowMs) ;;; ret true
  else if nowMs - lastCaptureMs c >=? interval then
    modC a (set_lastCaptureMs nowMs) ;;; ret true
  else ret false.

Definition or_else {A : Type} (o : option A) (d : A) : A :=
  match o with Some v => v | None => d end.

(** The part of the screencast handler that keeps a frame: write the
    artifact, push the reference, tell the session. A ring whose eviction
    loop would not end is left as it is; the coordinator's constructor
    gives every ring a capacity of at least 1. *)
Definition captureFrame (a : nat) (start : Z) (fp : FramePayload)
           (data : string) : M unit :=
  c <- getC a ;;
  let opts := cfg_options c in
  let width :=
    or_else (match fp_metadata fp with
             | Some md => deviceWidth md | None => None end)
            (or_else (fo_maxWidth opts) 0) in
  let height :=
    or_else (match fp_metadata fp with
             | Some md => deviceHeight md | None => None end)
            (or_else (fo_maxHeight opts) 0) in
  t <- now ;;
  let seq := cdpFrameSeq c + 1 in
  modC a (set_cdpFrameSeq seq) ;;;
  let frameId := fo_sessionId opts +:+ "-" +:+ of_Z t +:+ "-" +:+ of_Z seq in
  let frameDir := fo_traceDir opts +:+ "/frames" in
  let framePath := frameDir +:+ "/" +:+ frameId +:+ ".jpg" in
  await_quiet (FsMkdir frameDir) ;;;
  let buffer := env_base64 data in
  await_quiet (FsWriteFile framePath) ;;;
  modify (fun w => set_fs_frames (JsMap.set framePath buffer (fs_frames w)) w) ;;;
  let checksum := Sha1.digest_hex buffer in
  timestamp <- now ;;
  t3 <- now ;;
  let ref :=
    mkFrameRef frameId timestamp width height "image/jpeg" (Some checksum)
      (Some framePath)
      (Some (mkFrameMetadata
               (match fp_metadata fp with
                | Some md => md_scale md | None => None end)
               (Z.of_nat (String.length buffer))
               (t3 - start))) in
  modC a (fun c =>
            set_frameBuffer
              (or_else (Ring.push ref (frameBuffer c)) (frameBuffer c)) c) ;;;
  modS a (set_lastFrame (Some ref)) ;;;
  c <- getC a ;;
  if cfg_metrics c then
    let droppedNow := Ring.dropped (frameBuffer c) in
    modify (fun w =>
              set_metrics
                (recordFrameDrops (Z.max 0 (droppedNow - lastDroppedFrames c))
                                  (metrics w)) w) ;;;
    modC a (set_lastDroppedFrames droppedNow)
  else ret tt.

(** The listener of ['Page.screencastFrame']. *)
Definition onScreencastFrame (a : nat) (payload : option FramePayload)
  : M unit :=
  c <- getC a ;;
  match cc_active c, payload with
  | true, Some fp =>
      modC a (fun c => set_pendingAcks (pendingAcks c + 1) c) ;;;
      start <- now ;;
      let sessionId := fp_sessionId fp in
      try_finally
        (shouldCapture <- shouldCaptureFrame a start ;;
         match fp_data fp with
         | Some data =>
             if (truthy_opt sessionId && shouldCapture && truthy data)%bool
             then captureFrame a start fp data
             else ret tt
         | None => ret tt
         end)
        ((match sessionId with
          | Some sid => if truthy sid then swallow (ackFrame a sid) else ret tt
          | None => ret tt
          end) ;;;
         modC a (fun c => set_pendingAcks (pendingAcks c - 1) c))
  | _, _ =>
      match payload with
      | Some fp =>
          match fp_sessionId fp with
          | Some sid => if truthy sid then swallow (ackFrame a sid) else ret tt
          | None => ret tt
          end
      | None => ret tt
      end
  end.

(** One delivered event. The network handlers exist once the session has
    its page; the frame listener while the coordinator keeps it. A handler
    runs to its end before anything else does, and what it throws goes
    nowhere. *)
Definition handle (ev : nat * DriverEvent) : M unit :=
  let (a, e) := ev in
  swallow
    (s <- getS a ;;
     match e with
     | OnRequest url method rt =>
         match page s with
         | Some _ => onRequest a url method rt
         | None => ret tt
         end
     | OnResponse url method status rt =>
         match page s with
         | Some _ => onResponse a url method status rt
         | None => ret tt
         end
     | OnRequestFailed url method rt err =>
         match page s with
         | Some _ => onRequestFailed a url method rt err
         | None => ret tt
         end
     | OnScreencastFrame payload =>
         match captureCoordinator s with
         | Some c =>
             if frameEventHandler c then onScreencastFrame a payload
             else ret tt
         | None => ret tt
         end
     end).

Fixpoint deliver (evs : list (nat * DriverEvent)) : M unit :=
  match evs with
  | [] => ret tt
  | ev :: r => handle ev ;;; deliver r
  end.

(** The driver's pending events reach their handlers. *)
Definition yield : M unit :=
  fun w =>
    let (evs, e) := env_events (env w) in
    deliver evs (set_env e w).

(** An awaited call of the runtime's own code: while it is suspended the
    driver's events are handled, then the call resolves or rejects. *)
Definition await {A : Type} (c : ExtCall A) : M A :=
  fun w =>
    let (r, e) := env_await c (env w) in
    let (_, w') := yield (set_env e w) in
    (match r with inl msg => Throw msg | inr a => Ok a end, w').


(* ------------------------------------------------------------------ *)
(** *** replay/replay.ts: [ReplayStore] *)
(* ------------------------------------------------------------------ *)

Definition TRACE_DIR : string := env_TRACE_DIR.

Definition is_trace_id_char (c : ascii) : bool :=
  let n := nat_of_ascii c in
  ((Nat.leb 97 n && Nat.leb n 122) || (Nat.leb 65 n && Nat.leb n 90)
   || (Nat.leb 48 n && Nat.leb n 57)
   || Nat.eqb n 46 || Nat.eqb n 95 || Nat.eqb n 45)%bool.

(** What the units of a byte outside the class are replaced with: one
    [_] for each. *)
Definition replaced (c : ascii) : string :=
  match units_of c with
  | O => EmptyString
  | S O => "_"
  | _ => "__"
  end.

(** [traceId.replace(/[^a-zA-Z0-9._-]/g, '_')]. The expression has no [u]
    flag: every UTF-16 code unit outside the class becomes one [_], so a
    character outside ASCII becomes [_], or [__] beyond the basic
    plane. *)
Fixpoint sanitizeTraceId (traceId : string) : string :=
  match traceId with
  | EmptyString => EmptyString
  | String c r =>
      (if is_trace_id_char c then String c EmptyString else replaced c)
      +:+ sanitizeTraceId r
  end.

Definition buildTracePath (traceId : string) : string :=
  TRACE_DIR +:+ "/" +:+ sanitizeTraceId traceId +:+ ".jsonl".

Definition buildTraceIndex (traceId : string) : string :=
  TRACE_DIR +:+ "/" +:+ sanitizeTraceId traceId +:+ ".index.json".

(** [ReplayStore.append(traceId, event)]. *)
Definition ReplayStore_append (traceId : string) (event : ReplayEvent)
  : M unit :=
  let tracePath := buildTracePath traceId in
  await (FsMkdir TRACE_DIR) ;;;
  await (FsAppendFile tracePath) ;;;
  modify (fun w =>
            set_fs_logs
              (JsMap.set tracePath
                 (or_else (JsMap.get tracePath (fs_logs w)) []
                  ++ [LineEvent event])
                 (fs_logs w)) w).

(** The lines of a log that [JSON.parse] accepts. *)
Definition parse_lines (ls : list Line) : list ReplayEvent :=
  flat_map (fun l => match l with LineEvent e => [e] | LineJunk => [] end) ls.

(** [typeof payload?.session_id === 'string'], and the value. *)
Definition payload_session_id (p : ReplayPayload) : option string :=
  match p with
  | PayloadCreate sid _ _ => Some sid
  | PayloadStep _ => None
  | PayloadSnapshot st => Some (sp_session_id st)
  | PayloadStop sid _ => Some sid
  end.

Definition is_create (e : ReplayEvent) : bool :=
  match re_type e, payload_session_id (re_payload e) with
  | ev_create, Some _ => true
  | _, _ => false
  end.

(** [ReplayStore.load(traceId)]: a log that is missing, unreadable or
    without a parsable line gives the empty manifest. *)
Definition ReplayStore_load (traceId : string) : M ReplayManifest :=
  let tracePath := buildTracePath traceId in
  raw <- try_catch
           (await (FsReadFile tracePath) ;;;
            gets (fun w => or_else (JsMap.get tracePath (fs_logs w)) []))
           (fun _ => ret []) ;;
  let events := parse_lines raw in
  match events with
  | [] =>
      t <- now ;;
      ret (mkReplayManifest traceId None t [])
  | first :: _ =>
      ret (mkReplayManifest traceId
             (match find is_create events with
              | Some e => payload_session_id (re_payload e)
              | None => None
              end)
             (re_at first) events)
  end.

(** The predicate of [ReplayStore.filter]. *)
Definition in_range (start end_ : option Z) (event : ReplayEvent) : bool :=
  if match start with Some s => re_index event <? s | None => false end
  then false
  else if match end_ with Some e => re_index event >? e | None => false end
  then false
  else true.

(** [ReplayStore.filter(traceId, start?, end?)]. *)
Definition ReplayStore_filter (traceId : string) (start end_ : option Z)
  : M (list ReplayEvent) :=
  manifest <- ReplayStore_load traceId ;;
  ret (filter (in_range start end_) (rm_events manifest)).

(** [ReplayStore.persistTraceIndex(traceId, events)]. *)
Definition ReplayStore_persistTraceIndex (traceId : string)
           (events : list ReplayEvent) : M unit :=
  let indexPath := buildTraceIndex traceId in
  await (FsMkdir TRACE_DIR) ;;;
  t <- now ;;
  await (FsWriteFile indexPath) ;;;
  modify (fun w =>
            set_fs_index
              (JsMap.set indexPath
                 (mkTraceIndex traceId (Z.of_nat (List.length events)) t)
                 (fs_index w)) w).

(** [ReplayStore.cleanup(traceId)]: both removals are started, and a
    failure of either is dropped. *)
Definition ReplayStore_cleanup (traceId : string) : M unit :=
  swallow
    (await (FsRm (buildTracePath traceId)) ;;;
     modify (fun w =>
               set_fs_logs (JsMap.delete (buildTracePath traceId) (fs_logs w)) w)) ;;;
  swallow
    (await (FsRm (buildTraceIndex traceId)) ;;;
     modify (fun w =>
               set_fs_index
                 (JsMap.delete (buildTraceIndex traceId) (fs_index w)) w)).

(* ------------------------------------------------------------------ *)
(** *** capture/cdp.ts: [CaptureCoordinator] *)
(* ------------------------------------------------------------------ *)

(** [new CaptureCoordinator(cfg)]. *)
Definition newCaptureCoordinator (pg ctx : Handle) (options : FrameOptions)
           (with_metrics : bool) : CaptureCoordinator :=
  mkCaptureCoordinator pg ctx options with_metrics
    (Ring.create FrameRef (Z.max 1 (fo_maxFrames options)))
    false None false 0 0 0 0 false 0.

(** [CaptureCoordinator.start()]. *)
Definition CaptureCoordinator_start (a : nat) : M unit :=
  c <- getC a ;;
  if (negb (fo_enabled (cfg_options c)) || cc_active c)%bool then ret tt
  else
    cdp <- await (NewCDPSession (cfg_context c) (cfg_page c)) ;;
    modC a (fun c =>
              set_frameEventHandler true
                (set_detached false
                   (set_cc_active true (set_cdpSession (Some cdp) c)))) ;;;
    await (CdpSend cdp PageEnable) ;;;
    await (CdpSend cdp
             (PageStartScreencast (frameQuality (cfg_options c))
                (fo_maxWidth (cfg_options c)) (fo_maxHeight (cfg_options c)))).

(** [CaptureCoordinator.stop()]. *)
Definition CaptureCoordinator_stop (a : nat) : M unit :=
  c <- getC a ;;
  match cc_active c, cdpSession c with
  | true, Some cdp =>
      modC a (set_cc_active false) ;;;
      swallow (await (CdpSend cdp PageStopScreencast)) ;;;
      swallow (await (CdpDetach cdp)) ;;;
      modC a (fun c =>
                set_pendingAcks 0
                  (set_frameBuffer (Ring.clear (frameBuffer c))
                     (set_frameEventHandler false (set_detached true c))))
  | _, _ => modC a (set_cc_active false)
  end.

Definition getQueueDepth (c : CaptureCoordinator) : Z :=
  Ring.depth (frameBuffer c).

Definition getQueueMax (c : CaptureCoordinator) : Z :=
  Ring.maxDepth (frameBuffer c).

Definition getDroppedFrames (c : CaptureCoordinator) : Z :=
  Ring.dropped (frameBuffer c).

Definition getPendingFrames (c : CaptureCoordinator) : Z :=
  Z.max 0 (pendingAcks c).

Definition getQueue (c : CaptureCoordinator) : list FrameRef :=
  Ring.getAll (frameBuffer c).

(** [CaptureCoordinator.signalVisualDrift()]. *)
Definition signalVisualDrift (a : nat) : M unit :=
  c <- getC a ;;
  if negb (fo_adaptive (cfg_options c)) then ret tt
  else
    t <- now ;;
    modC a (set_burstUntilMs (t + 2000)).

(* ------------------------------------------------------------------ *)
(** *** observe/state-builder.ts: [StateBuilder.buildStateSnapshot] *)
(* ------------------------------------------------------------------ *)

Definition getSB (a : nat) : M StateBuilder :=
  s <- getS a ;;
  match stateBuilder s with
  | Some b => ret b
  | None => throw "Cannot read properties of undefined"
  end.

Definition set_lastStateToken (v : string) (b : StateBuilder) : StateBuilder :=
  mkStateBuilder (sb_page b) v.

Definition modSB (a : nat) (f : StateBuilder -> StateBuilder) : M unit :=
  modS a (fun s =>
            match stateBuilder s with
            | Some b => set_stateBuilder (Some (f b)) s
            | None => s
            end).

Definition StateBuilder_buildStateSnapshot (a : nat) (options : ObserveOptions)
  : M StatePacket :=
  b <- getSB a ;;
  let pg := sb_page b in
  url <- gets (fun w => env_page_url pg (env w)) ;;
  title <- try_catch (await (PageTitle pg)) (fun _ => ret EmptyString) ;;
  domSummary <-
    (if includeDom options
     then d <- await (PageEvaluateDom pg) ;; ret (Some d)
     else ret None) ;;
  accessibility <-
    (if includeAx options
     then try_catch (await (AccessibilitySnapshot pg)) (fun _ => ret AxNull)
     else ret AxUndefined) ;;
  s <- getS a ;;
  let network :=
    if includeNetwork options then slice_last 100 (networkEvents s) else [] in
  let frameLimit :=
    if includeFrame options then Z.max 1 (or_else (maxFrames options) 6)
    else 0 in
  c <- getC a ;;
  let frameRefs :=
    if includeFrame options then slice_last frameLimit (getQueue c) else [] in
  let seed :=
    tokenSeed url title domSummary
      (Z.of_nat (List.length network)) (Z.of_nat (List.length frameRefs)) in
  let stateToken := Sha1.digest_hex seed in
  b <- getSB a ;;
  let changeTokens := computeChangeTokens (lastStateToken b) stateToken in
  modSB a (set_lastStateToken stateToken) ;;;
  t <- now ;;
  ret (mkStatePacket stateToken t "unknown" url title domSummary accessibility
         network (normalizeFrameRefs frameRefs)
         (Some (regionDetections domSummary)) changeTokens
         (mkQueueHealth (getQueueDepth c) (getQueueMax c)
                        (getDroppedFrames c) (getPendingFrames c))).


(* ------------------------------------------------------------------ *)
(** *** actions/driver.ts: [ActionExecutor] *)
(* ------------------------------------------------------------------ *)

Record DispatchResult := mkDispatchResult {
  dr_selector : option string;
  dr_coordinates : option (Z * Z)
}.

Definition no_result : DispatchResult := mkDispatchResult None None.

(** [withElementOrCoordinate(input, withSelector, withCoords)]. *)
Definition withElementOrCoordinate (pg : Handle) (input : ActionInput)
           (withSelector : string -> M DispatchResult)
           (withCoords : Z -> Z -> M DispatchResult) : M DispatchResult :=
  let coords :=
    match ai_x input, ai_y input with
    | Some x, Some y => withCoords x y
    | _, _ => throw "selector not found and coordinates missing"
    end in
  match ai_selector input with
  | Some sel =>
      if truthy sel then
        count <- await (LocatorCount pg sel) ;;
        if count >? 0 then withSelector sel else coords
      else coords
  | None => coords
  end.

(** [dispatch(action, input, timeout)]. *)
Definition dispatch (pg : Handle) (action : AgentAction) (input : ActionInput)
           (timeout : Z) : M DispatchResult :=
  match action with
  | navigate =>
      match ai_url input with
      | Some url =>
          if truthy url then
            await (PageGoto pg url timeout) ;;; ret no_result
          else throw "navigate requires url"
      | None => throw "navigate requires url"
      end
  | click =>
      withElementOrCoordinate pg input
        (fun sel =>
           await (LocatorWaitForVisible pg sel timeout) ;;;
           await (LocatorClick pg sel timeout) ;;;
           ret (mkDispatchResult (ai_selector input) None))
        (fun x y =>
           await (MouseClick pg x y) ;;;
           ret (mkDispatchResult None (Some (x, y))))
  | hover =>
      withElementOrCoordinate pg input
        (fun sel =>
           await (LocatorHover pg sel timeout) ;;;
           ret (mkDispatchResult (ai_selector input) None))
        (fun x y =>
           await (MouseMove pg x y None) ;;;
           ret (mkDispatchResult None (Some (x, y))))
  | type_ =>
      if negb (truthy_opt (ai_text input)) then throw "type requires text"
      else
        let text := or_else (ai_text input) EmptyString in
        withElementOrCoordinate pg input
          (fun sel =>
             await (LocatorScrollIntoView pg sel) ;;;
             await (LocatorFill pg sel text timeout) ;;;
             ret (mkDispatchResult (ai_selector input) None))
          (fun x y =>
             await (MouseMove pg x y None) ;;;
             await (MouseClick pg x y) ;;;
             await (KeyboardType pg text) ;;;
             ret (mkDispatchResult None (Some (x, y))))
  | press =>
      match ai_key input with
      | Some key =>
          if truthy key then
            await (KeyboardPress pg key 20) ;;; ret no_result
          else throw "press requires key"
      | None => throw "press requires key"
      end
  | scroll =>
      match ai_x input, ai_y input with
      | Some x, Some y => await (MouseMove pg x y None)
      | _, _ => ret tt
      end ;;;
      await (MouseWheel pg (or_else (ai_delta_x input) 0)
                        (or_else (ai_delta_y input) 0)) ;;;
      ret no_result
  | drag =>
      match ai_x input, ai_y input, ai_delta_x input, ai_delta_y input with
      | Some x, Some y, Some dx, Some dy =>
          await (MouseMove pg x y None) ;;;
          await (MouseDown pg) ;;;
          await (MouseMove pg (x + dx) (y + dy) (Some 10)) ;;;
          await (MouseUp pg) ;;;
          ret (mkDispatchResult None (Some (x, y)))
      | _, _, _, _ => throw "drag requires x, y, delta_x, delta_y"
      end
  | wait =>
      let waitMs := Z.min (or_else (ai_timeout_ms input) 1000) 120000 in
      await (WaitForTimeout pg waitMs) ;;; ret no_result
  | wait_for =>
      let waitFor := or_else (ai_wait_for input) EmptyString in
      if negb (truthy waitFor)
      then throw "wait_for requires a selector or wait strategy"
      else
        let normalized := trim (toLowerCase waitFor) in
        if (String.eqb normalized "networkidle"
            || String.eqb normalized "network_idle")%bool then
          await (WaitForLoadState pg "networkidle" timeout) ;;; ret no_result
        else if (String.eqb normalized "domstable"
                 || String.eqb normalized "stable")%bool then
          await (WaitForLoadState pg "domcontentloaded" timeout) ;;;
          ret no_result
        else
          await (WaitForSelector pg waitFor timeout) ;;; ret no_result
  end.

(** [withTimeout(fn, timeoutMs)]. When the timer wins the race the promise
    rejects with the timeout message; what the work did until then stays
    done. *)
Definition withTimeout {A : Type} (fn : M A) (timeoutMs : Z) : M A :=
  fun w =>
    let (r, w1) := fn w in
    let (fired, e) := env_timer_first timeoutMs (env w1) in
    if fired
    then (Throw ("action timeout after " +:+ of_Z timeoutMs +:+ "ms"),
          set_env e w1)
    else (r, set_env e w1).

(** [recordActionEvent(input, networkRing, result?, success, detail?)],
    on the network ring of session [a]. *)
Definition recordActionEvent (a : nat) (pg : Handle) (input : ActionInput)
           (result : option DispatchResult) (success : bool)
           (detail : option string) : M unit :=
  t1 <- now ;;
  url <- gets (fun w => env_page_url pg (env w)) ;;
  t2 <- now ;;
  modS a (fun s =>
            set_networkEvents
              (trim_ring 400
                 (networkEvents s ++
                  [mkNetworkEvent
                     (of_Z t1 +:+ ":" +:+ action_name (ai_action input))
                     url
                     (action_name (ai_action input))
                     (Some (if success then 200 else 0))
                     (Some (match result with
                            | Some _ => "action"
                            | None => "action_failed"
                            end))
                     t2
                     (if success then None else detail)]))
              s).

(** [ActionExecutor.execute(input, networkRing)], for the executor of
    session [a]. *)
Definition ActionExecutor_execute (a : nat) (pg : Handle) (input : ActionInput)
  : M ActionResult :=
  let action := ai_action input in
  let timeout :=
    Z.min (Z.max (or_else (ai_timeout_ms input) 8000) 100) 120000 in
  start <- now ;;
  let maxActions := or_else (ai_max_actions_per_step input) 1 in
  if ((maxActions <? 1) || (maxActions >? 1))%bool then
    ret (mkActionResult action false "rejected" None None None
           (Some "max_actions_per_step must be 1 in phase 1") None)
  else
    try_catch
      (result <- withTimeout (dispatch pg action input timeout)
                             (timeout + 300) ;;
       recordActionEvent a pg input (Some result) true None ;;;
       target <- gets (fun w => env_page_url pg (env w)) ;;
       t <- now ;;
       ret (mkActionResult action true "completed" (Some target)
              (dr_selector result) (dr_coordinates result) None
              (Some (t - start))))
      (fun message =>
         recordActionEvent a pg input None false (Some message) ;;;
         t <- now ;;
         ret (mkActionResult action false "failed" None None None
                (Some message) (Some (t - start)))).


(* ------------------------------------------------------------------ *)
(** *** session/browser-session.ts: [BrowserSession] *)
(* ------------------------------------------------------------------ *)

(** [new BrowserSession(id, params)]; the field initializer reads the
    clock. *)
Definition newBrowserSession (id : string) (p : BrowserSessionParams)
  : M nat :=
  t <- now ;;
  allocS (mkBrowserSession id p None None None None None None [] 0 false 0 t
                           None).

(** [createBrowserSession(id, input, config)]. *)
Definition createBrowserSession (id : string) (input : SessionCreateInput)
           (policy : PolicyAdapter) (captureProfile : CaptureProfile)
           (maxSteps : option Z) (traceId : string) (headless : bool)
           (viewport : option ViewportInput) (storageState : option string)
           (maxFrames : Z) (maxDurationMs : option Z) : M nat :=
  newBrowserSession id
    (mkBrowserSessionParams input policy (or_else maxSteps DEFAULT_MAX_STEPS)
       traceId captureProfile headless viewport storageState maxFrames
       maxDurationMs).

(** [BrowserSession.buildStateSnapshot(capture)]. *)
Definition buildStateSnapshot (a : nat) (capture : ObserveOptions)
  : M StatePacket :=
  s <- getS a ;;
  match stateBuilder s with
  | None => throw "state builder not initialized"
  | Some _ =>
      state <- StateBuilder_buildStateSnapshot a capture ;;
      ret (withSessionId state (bs_id s))
  end.

(** [BrowserSession.buildCapabilities()]. *)
Definition buildCapabilities (s : BrowserSession) : SessionCapabilities :=
  let maxDuration :=
    or_else (p_maxDurationMs (params s)) DEFAULT_MAX_DURATION_MS in
  mkSessionCapabilities
    (p_captureProfile (params s))
    (p_maxSteps (params s))
    (Some maxDuration)
    true
    (negb (CaptureProfile_eqb (p_captureProfile (params s)) dom_only))
    (mode (p_policy (params s))).

(** [BrowserSession.recordReplayEvent(type, payload)]. *)
Definition recordReplayEvent (a : nat) (type : ReplayEventType)
           (payload : ReplayPayload) : M unit :=
  s <- getS a ;;
  let traceId := p_traceId (params s) in
  existing <- try_catch
                (m <- ReplayStore_load traceId ;; ret (Some m))
                (fun _ => ret None) ;;
  let nextIndex :=
    match existing with
    | Some m => Z.of_nat (List.length (rm_events m))
    | None => 0
    end in
  t <- now ;;
  let event := mkReplayEvent type (nextIndex + 1) t payload in
  ReplayStore_append traceId event ;;;
  ReplayStore_persistTraceIndex traceId
    (match existing with Some m => rm_events m | None => [] end ++ [event]).

Definition browserArgs : list string :=
  ["--no-sandbox"; "--disable-setuid-sandbox"; "--disable-dev-shm-usage"].

(** [BrowserSession.start()]. *)
Definition BrowserSession_start (a : nat) : M CreateResult :=
  s <- getS a ;;
  if active s then throw "session already started"
  else
    let p := params s in
    br <- await (Launch (p_headless p) browserArgs) ;;
    modS a (set_browser (Some br)) ;;;
    ctx <- await (NewContext br (p_viewport p)
                    (if truthy_opt (p_storageState p)
                     then p_storageState p else None)) ;;
    modS a (set_context (Some ctx)) ;;;
    pg <- await (NewPage ctx) ;;
    modS a (fun s => set_networkEvents [] (set_page (Some pg) s)) ;;;
    let traceDir := "traces/" +:+ p_traceId p in
    let includeFrames := negb (CaptureProfile_eqb (p_captureProfile p) dom_only) in
    modS a (set_captureCoordinator
              (Some (newCaptureCoordinator pg ctx
                       (mkFrameOptions includeFrames (p_traceId p) (bs_id s) 65
                          (option_map vp_width (p_viewport p))
                          (option_map vp_height (p_viewport p))
                          (p_maxFrames p)
                          (CaptureProfile_eqb (p_captureProfile p) adaptive)
                          traceDir)
                       false))) ;;;
    CaptureCoordinator_start a ;;;
    modS a (fun s =>
              set_stateBuilder (Some (mkStateBuilder pg EmptyString))
                (set_actionExecutor (Some pg) s)) ;;;
    await (PageRoute pg) ;;;
    await (PageGoto pg (target_url (p_input p)) 120000) ;;;
    modS a (set_active true) ;;;
    t <- now ;;
    modS a (set_createdAt t) ;;;
    initialState <-
      buildStateSnapshot a
        (mkObserveOptions
           (negb (CaptureProfile_eqb (p_captureProfile p) frames_only))
           true true includeFrames (Some (p_maxFrames p))) ;;
    s1 <- getS a ;;
    recordReplayEvent a ev_create
      (PayloadCreate (bs_id s) initialState (buildCapabilities s1)) ;;;
    s2 <- getS a ;;
    ret (mkCreateResult (bs_id s) (p_traceId p) (buildCapabilities s2)
           initialState (lastFrame s2)).

(** [BrowserSession.step(input)]. *)
Definition BrowserSession_step (a : nat) (input : ActionInput) : M StepResult :=
  s <- getS a ;;
  match active s, page s, actionExecutor s, stateBuilder s with
  | true, Some _, Some executor, Some _ =>
      if stepIndex s >=? p_maxSteps (params s) then
        throw ("max_steps reached: " +:+ of_Z (p_maxSteps (params s)))
      else
        t0 <- now ;;
        if t0 - createdAt s >?
           or_else (p_maxDurationMs (params s)) DEFAULT_MAX_DURATION_MS
        then throw "session exceeded max_duration_ms"
        else
          stepStart <- now ;;
          let captureSettings :=
            normalizeCaptureSettings (p_captureProfile (params s))
              (p_maxFrames (params s)) (ai_capture input) in
          beforeState <- buildStateSnapshot a captureSettings ;;
          let preDecision :=
            shouldAllowAction (p_policy (params s)) (Some beforeState) input in
          if negb (allowed preDecision) then
            t1 <- now ;;
            t2 <- now ;;
            ret (mkStepResult beforeState (sp_frame_refs beforeState)
                   (mkActionResult (ai_action input) false "policy_denied"
                      None None None
                      (Some (or_else (reason preDecision)
                                     "action blocked by policy"))
                      (Some (t1 - stepStart)))
                   ["POLICY_DENIED"] "halt" (t2 - stepStart)
                   (sp_queue_health beforeState))
          else
            actionResult <- ActionExecutor_execute a executor input ;;
            (if negb (ar_success actionResult)
             then modify (fun w => set_metrics (recordActionFailure (metrics w)) w)
             else ret tt) ;;;
            (if (AgentAction_eqb (ai_action input) wait_for
                 || AgentAction_eqb (ai_action input) wait)%bool
             then
               s' <- getS a ;;
               match captureCoordinator s' with
               | Some _ => signalVisualDrift a
               | None => ret tt
               end
             else ret tt) ;;;
            state <- buildStateSnapshot a captureSettings ;;
            t3 <- now ;;
            let latency := t3 - stepStart in
            modS a (fun s => set_stepIndex (stepIndex s + 1) s) ;;;
            t4 <- now ;;
            modS a (set_createdAt t4) ;;;
            modify (fun w => set_metrics (recordStepLatency latency (metrics w)) w) ;;;
            let stepResult :=
              mkStepResult state (sp_frame_refs state) actionResult
                ((if ar_success actionResult then [] else ["ACTION_FAILED"])
                 ++ (if Nat.eqb (List.length (network_events state)) 0
                     then ["NO_NETWORK_EVENT"] else []))
                (if ar_success actionResult then "continue"
                 else if shouldRetry actionResult then "retry"
                 else "fallback_or_abandon")
                latency (sp_queue_health state) in
            recordReplayEvent a ev_step (PayloadStep stepResult) ;;;
            ret stepResult
  | _, _, _, _ => throw "session is not active"
  end.

(** [BrowserSession.snapshot(input)]. *)
Definition BrowserSession_snapshot (a : nat) (input : SnapshotInput)
  : M StatePacket :=
  s <- getS a ;;
  state <- buildStateSnapshot a
             (mkObserveOptions (flag (sn_include_dom input))
                (flag (sn_include_ax input)) (flag (sn_include_network input))
                (flag (sn_include_frame input))
                (Some (p_maxFrames (params s)))) ;;
  recordReplayEvent a ev_snapshot (PayloadSnapshot state) ;;;
  ret state.

Record StopResult := mkStopResult {
  status : string;
  cleanup : string;
  tracePath : string;
  sessionId : string
}.

(** [BrowserSession.stop(preserveArtifacts = false)]. *)
Definition BrowserSession_stop (a : nat) (preserveArtifacts : bool)
  : M StopResult :=
  s <- getS a ;;
  let traceId := p_traceId (params s) in
  if negb (active s) then
    ret (mkStopResult "already_stopped" "noop" (buildTracePath traceId)
           (bs_id s))
  else
    modS a (set_active false) ;;;
    match captureCoordinator s with
    | Some _ => CaptureCoordinator_stop a
    | None => ret tt
    end ;;;
    match page s with
    | Some pg =>
        closed <- gets (fun w => env_page_isClosed pg (env w)) ;;
        if negb closed then swallow (await (PageClose pg)) else ret tt
    | None => ret tt
    end ;;;
    match context s with
    | Some ctx => swallow (await (ContextClose ctx))
    | None => ret tt
    end ;;;
    match browser s with
    | Some br => swallow (await (BrowserClose br))
    | None => ret tt
    end ;;;
    swallow (recordReplayEvent a ev_stop
               (PayloadStop (bs_id s) preserveArtifacts)) ;;;
    (if negb preserveArtifacts then swallow (ReplayStore_cleanup traceId)
     else ret tt) ;;;
    ret (mkStopResult "stopped"
           (if preserveArtifacts then "retained" else "cleaned")
           (buildTracePath traceId) (bs_id s)).

(** [BrowserSession.getLastActivity()]. *)
Definition getLastActivity (a : nat) : M Z :=
  s <- getS a ;; ret (createdAt s).


(* ------------------------------------------------------------------ *)
(** *** session/session-manager.ts: [SessionManager] *)
(* ------------------------------------------------------------------ *)

(** [xs.sort((a, b) => a[1] - b[1])]: the sort is stable. *)
Fixpoint insert_by_time (x : string * Z) (sorted : list (string * Z))
  : list (string * Z) :=
  match sorted with
  | [] => [x]
  | y :: r => if snd x <=? snd y then x :: y :: r
              else y :: insert_by_time x r
  end.

Fixpoint sort_by_time (xs : list (string * Z)) : list (string * Z) :=
  match xs with
  | [] => []
  | x :: r => insert_by_time x (sort_by_time r)
  end.

(** [SessionManager.getOldestSessionId()]. *)
Definition getOldestSessionId (m : SessionManager) : option string :=
  match sort_by_time (JsMap.entries (created m)) with
  | oldest :: _ => Some (fst oldest)
  | [] => None
  end.

(** [SessionManager.get(sessionId)]. *)
Definition SessionManager_get (sessionId : string) : M (option nat) :=
  gets (fun w => JsMap.get sessionId (sessions (manager w))).

(** [SessionManager.stop(sessionId, preserveArtifacts = false)]. *)
Definition SessionManager_stop (sessionId : string) (preserveArtifacts : bool)
  : M unit :=
  session <- SessionManager_get sessionId ;;
  match session with
  | None => ret tt
  | Some a =>
      BrowserSession_stop a preserveArtifacts ;;;
      modify (fun w =>
                set_manager
                  (set_created (JsMap.delete sessionId (created (manager w)))
                     (set_sessions
                        (JsMap.delete sessionId (sessions (manager w)))
                        (manager w))) w)
  end.

(** [SessionManager.create(input)]. *)
Definition SessionManager_create (input : SessionCreateInput)
  : M CreateResult :=
  m <- gets manager ;;
  (if JsMap.size (sessions m) >=? maxSessions m then
     match getOldestSessionId m with
     | Some oldest =>
         if truthy oldest then SessionManager_stop oldest false else ret tt
     | None => ret tt
     end
   else ret tt) ;;;
  let urlValidation :=
    validateUrl env_parseURL (target_url input)
                (Some (allowedDomains m)) (Some (deniedDomains m)) in
  if negb (ok urlValidation) then
    throw (join "; "
             (map (fun item => code item +:+ ":" +:+ message item)
                  (errors urlValidation)))
  else
    sessionId <- randomUUID ;;
    t <- now ;;
    let traceId := "trace_" +:+ of_Z t +:+ "_" +:+ sessionId in
    let captureProfile := or_else (capture_profile input) adaptive in
    let maxFrames := getDefaultMaxFrames captureProfile (max_steps input) in
    let policy := createPolicyAdapter (or_else (sc_policy input) (policyMode m)) in
    session <- createBrowserSession sessionId input policy captureProfile
                 (max_steps input) traceId
                 (or_else (sc_headless input) (defaultHeadless m))
                 (sc_viewport input) (storage_state input) maxFrames
                 (max_duration_ms input) ;;
    result <- BrowserSession_start session ;;
    t' <- now ;;
    modify (fun w =>
              set_manager
                (set_created (JsMap.set sessionId t' (created (manager w)))
                   (set_sessions
                      (JsMap.set sessionId session (sessions (manager w)))
                      (manager w))) w) ;;;
    ret result.

(** One pass of the loop of [gc]: the entry is visited if the map still
    has it when the iterator reaches it. *)
Definition gc_visit (nowMs : Z) (entry : string * Z) (removed : Z) : M Z :=
  let (sessionId, _) := entry in
  m <- gets manager ;;
  match JsMap.get sessionId (created m) with
  | None => ret removed
  | Some startedAt =>
      if nowMs - startedAt <=? maxAgeMs m then ret removed
      else
        SessionManager_stop sessionId false ;;;
        ret (removed + 1)
  end.

Fixpoint gc_loop (nowMs : Z) (entries : list (string * Z)) (removed : Z)
  : M Z :=
  match entries with
  | [] => ret removed
  | entry :: r =>
      removed' <- gc_visit nowMs entry removed ;;
      gc_loop nowMs r removed'
  end.

(** [SessionManager.gc()]. *)
Definition SessionManager_gc : M Z :=
  nowMs <- now ;;
  m <- gets manager ;;
  gc_loop nowMs (JsMap.entries (created m)) 0.

(** [SessionManager.getActiveSessionsCount()]. *)
Definition getActiveSessionsCount : M Z :=
  gets (fun w => JsMap.size (sessions (manager w))).

(** [SessionManager.touch(sessionId)]. *)
Definition SessionManager_touch (sessionId : string) : M unit :=
  m <- gets manager ;;
  if JsMap.has sessionId (sessions m) then
    t <- now ;;
    modify (fun w =>
              set_manager
                (set_created (JsMap.set sessionId t (created (manager w)))
                             (manager w)) w)
  else ret tt.

(* ------------------------------------------------------------------ *)
(** *** tools.ts: [ToolHandler], on arguments of the right shape *)
(* ------------------------------------------------------------------ *)

(** [parse(schema, raw)] for the schemas whose only constraint on a
    well-typed argument is a non-empty [session_id]. *)
Definition parse_session_id (session_id : string) : M unit :=
  if truthy session_id then ret tt
  else throw ("Invalid tool arguments: session_id: "
              +:+ "String must contain at least 1 character(s)").

(** [ToolHandler.stop(raw)]. *)
Definition ToolHandler_stop (input : StopInput) : M SessionStopResult :=
  parse_session_id (st_session_id input) ;;;
  session <- SessionManager_get (st_session_id input) ;;
  match session with
  | None => throw ("Unknown session_id: " +:+ st_session_id input)
  | Some a =>
      stop <- BrowserSession_stop a (flag (preserve_artifacts input)) ;;
      SessionManager_stop (st_session_id input)
                          (flag (preserve_artifacts input)) ;;;
      ret (mkSessionStopResult (st_session_id input) (status stop)
             (cleanup stop) (Some (tracePath stop))
             (String.eqb (cleanup stop) "retained"))
  end.

(** [ToolHandler.snapshot(raw)]. *)
Definition ToolHandler_snapshot (input : SnapshotInput) : M StatePacket :=
  parse_session_id (sn_session_id input) ;;;
  session <- SessionManager_get (sn_session_id input) ;;
  match session with
  | None => throw ("Unknown session_id: " +:+ sn_session_id input)
  | Some a =>
      SessionManager_touch (sn_session_id input) ;;;
      BrowserSession_snapshot a input
  end.

(* ------------------------------------------------------------------ *)
(** *** Any run of calls *)
(* ------------------------------------------------------------------ *)

(** A call to the manager, to a session object or to one of the tools.
    The caller awaits each one and catches what it throws. *)
Inductive Operation :=
  | Create (input : SessionCreateInput)
  | ManagerStop (sessionId : string) (preserveArtifacts : bool)
  | Gc
  | Touch (sessionId : string)
  | Start (a : nat)
  | Step (a : nat) (input : ActionInput)
  | Snapshot (a : nat) (input : SnapshotInput)
  | Stop (a : nat) (preserveArtifacts : bool)
  | StopTool (input : StopInput)
  | SnapshotTool (input : SnapshotInput).

Definition perform (op : Operation) : M unit :=
  match op with
  | Create input => swallow (SessionManager_create input)
  | ManagerStop sessionId p => swallow (SessionManager_stop sessionId p)
  | Gc => swallow SessionManager_gc
  | Touch sessionId => swallow (SessionManager_touch sessionId)
  | Start a => swallow (BrowserSession_start a)
  | Step a input => swallow (BrowserSession_step a input)
  | Snapshot a input => swallow (BrowserSession_snapshot a input)
  | Stop a p => swallow (BrowserSession_stop a p)
  | StopTool input => swallow (ToolHandler_stop input)
  | SnapshotTool input => swallow (ToolHandler_snapshot input)
  end.

Fixpoint perform_all (ops : list Operation) : M unit :=
  match ops with
  | [] => ret tt
  | op :: rest => perform op ;;; perform_all rest
  end.

End Runtime.

Notation "x <- m ;; k" := (bind m (fun x => k))
  (at level 100, m at next level, right associativity).
Notation "m ;;; k" := (bind m (fun _ => k))
  (at level 100, right associativity).

(* ================================================================== *)
(** ** A simulated environment

    A small deterministic browser, clock and file system against which the
    runtime can be run: every call resolves, except that a closed page
    rejects [title] and [evaluate], and that the teardown calls reject when
    the environment is [sim_flaky]. *)
(* ================================================================== *)

Module Sim.

Record SimEnv := mkSimEnv {
  sim_tick : Z;
  sim_handles : nat;
  sim_launched : nat;
  sim_uuids : Z;
  sim_url : string;
  sim_closed : list Handle;
  sim_pending : list (nat * DriverEvent);
  sim_flaky : bool
}.

Definition tick (e : SimEnv) : SimEnv :=
  mkSimEnv (sim_tick e + 1) (sim_handles e) (sim_launched e) (sim_uuids e)
           (sim_url e) (sim_closed e) (sim_pending e) (sim_flaky e).

Definition fresh_handle (launch : bool) (e : SimEnv) : Handle * SimEnv :=
  (sim_handles e,
   mkSimEnv (sim_tick e) (S (sim_handles e))
            (if launch then S (sim_launched e) else sim_launched e)
            (sim_uuids e) (sim_url e) (sim_closed e) (sim_pending e)
            (sim_flaky e)).

Definition goto (url : string) (e : SimEnv) : SimEnv :=
  mkSimEnv (sim_tick e) (sim_handles e) (sim_launched e) (sim_uuids e) url
           (sim_closed e)
           (sim_pending e ++
            [(pred (sim_launched e), OnRequest url "GET" "document");
             (pred (sim_launched e), OnResponse url "GET" 200 "document")])
           (sim_flaky e).

Definition close (pg : Handle) (e : SimEnv) : SimEnv :=
  mkSimEnv (sim_tick e) (sim_handles e) (sim_launched e) (sim_uuids e)
           (sim_url e) (pg :: sim_closed e) (sim_pending e) (sim_flaky e).

Definition is_closed (pg : Handle) (e : SimEnv) : bool :=
  existsb (Nat.eqb pg) (sim_closed e).

Definition a_dom : DomSummary :=
  mkDomSummary 2 1 0 1 0 0
    [ mkDomElementSummary "a" (Some "more") None None
        (Some "More information...") (Some (mkBounds 10 20 120 18));
      mkDomElementSummary "input" None (Some "q") None (Some EmptyString)
        None ].

Definition teardown (e : SimEnv) : (string + unit) * SimEnv :=
  if sim_flaky e then (inl "Target page, context or browser has been closed", e)
  else (inr tt, e).

Definition await (A : Type) (c : ExtCall A) (e : SimEnv)
  : (string + A) * SimEnv :=
  match c in ExtCall T return (string + T) * SimEnv with
  | Launch _ _ => let (h, e') := fresh_handle true e in (inr h, e')
  | NewContext _ _ _ => let (h, e') := fresh_handle false e in (inr h, e')
  | NewPage _ => let (h, e') := fresh_handle false e in (inr h, e')
  | NewCDPSession _ _ => let (h, e') := fresh_handle false e in (inr h, e')
  | CdpSend _ _ => (inr tt, e)
  | CdpDetach _ => teardown e
  | PageRoute _ => (inr tt, e)
  | PageGoto _ url _ => (inr tt, goto url e)
  | PageClose pg =>
      if sim_flaky e then teardown e else (inr tt, close pg e)
  | ContextClose _ => teardown e
  | BrowserClose _ => teardown e
  | PageTitle pg =>
      if is_closed pg e then (inl "Target closed", e)
      else (inr "Example Domain", e)
  | PageEvaluateDom pg =>
      if is_closed pg e then (inl "Target closed", e) else (inr a_dom, e)
  | AccessibilitySnapshot pg =>
      if is_closed pg e then (inl "Target closed", e)
      else (inr (AxTree "WebArea"), e)
  | LocatorCount _ _ => (inr 1, e)
  | LocatorWaitForVisible _ _ _ => (inr tt, e)
  | LocatorClick _ _ _ => (inr tt, e)
  | LocatorHover _ _ _ => (inr tt, e)
  | LocatorScrollIntoView _ _ => (inr tt, e)
  | LocatorFill _ _ _ _ => (inr tt, e)
  | MouseClick _ _ _ => (inr tt, e)
  | MouseMove _ _ _ _ => (inr tt, e)
  | MouseDown _ => (inr tt, e)
  | MouseUp _ => (inr tt, e)
  | MouseWheel _ _ _ => (inr tt, e)
  | KeyboardType _ _ => (inr tt, e)
  | KeyboardPress _ _ _ => (inr tt, e)
  | WaitForTimeout _ _ => (inr tt, e)
  | WaitForLoadState _ _ _ => (inr tt, e)
  | WaitForSelector _ _ _ => (inr tt, e)
  | FsMkdir _ => (inr tt, e)
  | FsAppendFile _ => (inr tt, e)
  | FsReadFile _ => (inr tt, e)
  | FsWriteFile _ => (inr tt, e)
  | FsRm _ => (inr tt, e)
  end.

Definition events (e : SimEnv) : list (nat * DriverEvent) * SimEnv :=
  (sim_pending e,
   mkSimEnv (sim_tick e) (sim_handles e) (sim_launched e) (sim_uuids e)
            (sim_url e) (sim_closed e) [] (sim_flaky e)).

Definition uuid (e : SimEnv) : string * SimEnv :=
  ("5e551047-0000-4000-8000-" +:+ Sha1.hex 12 (sim_uuids e),
   mkSimEnv (sim_tick e) (sim_handles e) (sim_launched e) (sim_uuids e + 1)
            (sim_url e) (sim_closed e) (sim_pending e) (sim_flaky e)).

Fixpoint take_until (stop : ascii -> bool) (s : string) : string :=
  match s with
  | EmptyString => EmptyString
  | String c r => if stop c then EmptyString else String c (take_until stop r)
  end.

Fixpoint after_scheme (s : string) : option string :=
  match s with
  | EmptyString => None
  | String c r => if Ascii.eqb c ":"%char then Some r else after_scheme r
  end.

Definition strip_slashes (s : string) : string :=
  match s with
  | String a (String b r) =>
      if (Ascii.eqb a "/"%char && Ascii.eqb b "/"%char)%bool then r else s
  | _ => s
  end.

Definition host_end (c : ascii) : bool :=
  (Ascii.eqb c "/"%char || Ascii.eqb c ":"%char || Ascii.eqb c "?"%char
   || Ascii.eqb c "#"%char)%bool.

(** A reading of [scheme://host...] that is enough for the URLs used
    here. *)
Definition parseURL (s : string) : option ParsedURL :=
  match after_scheme s with
  | Some rest =>
      let scheme := take_until (Ascii.eqb ":"%char) s in
      if truthy scheme then
        Some (mkParsedURL (lowerAscii scheme +:+ ":")
                          (lowerAscii (take_until host_end (strip_slashes rest))))
      else None
  | None => None
  end.

(** The white space of the simulated platform: tab, line feed, vertical
    tab, form feed, carriage return and space. *)
Definition is_space (c : ascii) : bool :=
  let n := nat_of_ascii c in
  ((Nat.leb 9 n && Nat.leb n 13) || Nat.eqb n 32)%bool.

Fixpoint trimStart (s : string) : string :=
  match s with
  | EmptyString => EmptyString
  | String c r => if is_space c then trimStart r else s
  end.

Definition trimAscii (s : string) : string :=
  rev (trimStart (rev (trimStart s))).

(** The simulated platform knows ASCII only. *)
Definition builtins : Builtins := Build_Builtins trimAscii lowerAscii.

#[global] Instance sim_env : Env SimEnv := {
  env_now e := (1700000000000 + sim_tick e, tick e);
  env_randomUUID := uuid;
  env_await := await;
  env_page_url _ e := sim_url e;
  env_page_isClosed := is_closed;
  env_timer_first _ e := (false, e);
  env_events := events;
  env_parseURL := parseURL;
  env_base64 s := s;
  env_TRACE_DIR := "/srv/web-perception/traces";
  env_builtins := builtins
}.

Definition env0 (flaky : bool) : SimEnv :=
  mkSimEnv 0 0 0 0 "about:blank" [] [] flaky.

Definition manager0 (maxSessions maxAgeMs : Z) (policy : PolicyMode)
  : SessionManager :=
  mkSessionManager [] [] maxSessions true [] [] maxAgeMs policy.

(** A freshly started process. *)
Definition world0 (flaky : bool) (maxSessions maxAgeMs : Z)
           (policy : PolicyMode) : @World SimEnv :=
  mkWorld (env0 flaky) [] [] [] [] (mkMetricsCollector [] 0 0 0)
          (manager0 maxSessions maxAgeMs policy).

Definition create_input (url : string) : SessionCreateInput :=
  mkSessionCreateInput url None None None None None None None.

Definition action_input (sid : string) (action : AgentAction) : ActionInput :=
  mkActionInput sid action None None None None None None None None None None
                None None None None.

(** The world after running [m], and what it returned. *)
Definition after {A : Type} (m : @M SimEnv A) (w : @World SimEnv)
  : @World SimEnv := snd (m w).

Definition result {A : Type} (m : @M SimEnv A) (w : @World SimEnv) : Res A :=
  fst (m w).

End Sim.

(* ------------------------------------------------------------------ *)
(** *** Worlds and requests of the example runs *)
(* ------------------------------------------------------------------ *)

Module Scenario.

(** Did a run return, and with what (or [d] when it threw)? *)
Definition returned {A : Type} (r : Res A) : bool :=
  match r with Ok _ => true | Throw _ => false end.

Definition value {A : Type} (d : A) (r : Res A) : A :=
  match r with Ok a => a | Throw _ => d end.

Definition returned_value {A : Type} (r : Res A) : option A :=
  match r with Ok a => Some a | Throw _ => None end.

Definition blank_params : BrowserSessionParams :=
  mkBrowserSessionParams (Sim.create_input EmptyString) PassthroughPolicy 0
    EmptyString adaptive true None None 0 None.

Definition blank_session : BrowserSession :=
  mkBrowserSession EmptyString blank_params None None None None None None []
                   0 false 0 0 None.

Definition blank_health : QueueHealth := mkQueueHealth 0 0 0 0.

Definition blank_packet : StatePacket :=
  mkStatePacket EmptyString 0 EmptyString EmptyString EmptyString None
                AxUndefined [] [] None [] blank_health.

Definition blank_step : StepResult :=
  mkStepResult blank_packet []
    (mkActionResult wait false EmptyString None None None None None)
    [] EmptyString 0 blank_health.


(** The session object at address [a], when there is one. *)
Definition session_at (a : nat) (w : @World Sim.SimEnv) : BrowserSession :=
  nth a (heap w) blank_session.

Definition example_url : string := "https://example.com/".

(** The first identifier the simulated environment hands out. *)
Definition first_id : string := "5e551047-0000-4000-8000-000000000000".

(** A process with one admitted session, at address 0. *)
Definition one_session (flaky : bool) (maxSessions : Z) (policy : PolicyMode)
  : @World Sim.SimEnv :=
  Sim.after (SessionManager_create (Sim.create_input example_url))
        (Sim.world0 flaky maxSessions 1800000 policy).

Definition unsafe_navigation : ActionInput :=
  mkActionInput first_id navigate None None None (Some "javascript:alert(1)")
                None None None None None None None None None None.

Definition click_more : ActionInput :=
  mkActionInput first_id click (Some "a#more") None None None
                None None None None None None None None None None.

(** A plain snapshot request: no flag set. *)
Definition plain_snapshot : SnapshotInput :=
  mkSnapshotInput first_id None None None None.


(** The trace of the first session. *)
Definition first_trace : string :=
  "trace_1700000000000_5e551047-0000-4000-8000-000000000000".

(** The first session after [stop(true)] was called on the object. *)
Definition stopped_session : @World Sim.SimEnv :=
  Sim.after (BrowserSession_stop 0 true)
            (one_session false 4 model_owns_action).

(** The first session after a snapshot, a step, a snapshot and a step: its
    trace holds five events. *)
Definition five_events : @World Sim.SimEnv :=
  Sim.after (BrowserSession_snapshot 0 plain_snapshot ;;;
             BrowserSession_step 0 click_more ;;;
             BrowserSession_snapshot 0 plain_snapshot ;;;
             BrowserSession_step 0 click_more)
            (one_session false 4 model_owns_action).

(** A pool of one place, taken. *)
Definition full_pool : @World Sim.SimEnv :=
  one_session false 1 model_owns_action.




(** [new StateBuilder(page)] put on the session, as [start] does. *)
Definition renew_builder (a : nat) : @M Sim.SimEnv unit :=
  s <- getS a ;;
  match page s with
  | Some pg => modS a (set_stateBuilder (Some (mkStateBuilder pg EmptyString)))
  | None => ret tt
  end.

(** The page of the session goes elsewhere. *)
Definition leave_page (a : nat) : @M Sim.SimEnv unit :=
  s <- getS a ;;
  match page s with
  | Some pg => await (PageGoto pg "https://example.org/next" 1000)
  | None => ret tt
  end.

Definition dom_only_options : ObserveOptions :=
  mkObserveOptions true false false false None.

(** A session whose state builder was just made. *)
Definition fresh : @World Sim.SimEnv :=
  Sim.after (renew_builder 0) (one_session false 4 model_owns_action).

(** The handle of some page. *)
Definition a_page : Handle := 3%nat.

Definition blank_capabilities : SessionCapabilities :=
  mkSessionCapabilities adaptive 0 None false false model_owns_action.

Definition blank_create : CreateResult :=
  mkCreateResult EmptyString EmptyString blank_capabilities
                 blank_packet None.

(** A freshly started process with room for four sessions. *)
Definition boot : @World Sim.SimEnv :=
  Sim.world0 false 4 1800000 model_owns_action.

(** A session is created, takes a step, and the collector runs. *)
Definition a_day : list Operation :=
  [Create (Sim.create_input example_url);
   Step 0 click_more;
   SnapshotTool plain_snapshot;
   Gc].

(** A stop event, written to the trace [run/1]. *)
Definition a_stop_event : ReplayEvent :=
  mkReplayEvent ev_stop 1 1700000000000 (PayloadStop first_id false).

(** A request for a session that may take one step. *)
Definition one_step_only : SessionCreateInput :=
  mkSessionCreateInput example_url None None None None None (Some 1)
                       None.

(** That session after its one step. *)
Definition spent : @World Sim.SimEnv :=
  Sim.after (SessionManager_create one_step_only ;;;
             BrowserSession_step 0 click_more)
            boot.

Definition later_calls : list Operation :=
  [Snapshot 0 plain_snapshot; Gc; Touch first_id].

End Scenario.

(* ================================================================== *)
(** * Properties *)
(* ================================================================== *)

(* ------------------------------------------------------------------ *)
(** ** The frame ring *)
(* ------------------------------------------------------------------ *)

Section RingFacts.

Variable T : Type.

Let ring := Ring.FixedRingBuffer T.

(** Below its capacity the eviction loop does nothing. *)
Lemma evict_within (fuel : nat) (r : ring) :
  Z.of_nat (List.length (Ring.items r)) <= Ring.maxDepth r ->
  Ring.evict fuel r = Some r.
Proof.
  intros H. destruct fuel; simpl;
    destruct (Z.gtb_spec (Z.of_nat (List.length (Ring.items r))) (Ring.maxDepth r));
    try reflexivity; lia.
Qed.

(** One push into a ring that respects its capacity. *)
Lemma push_step (v : T) (r : ring) :
  1 <= Ring.maxDepth r ->
  Z.of_nat (List.length (Ring.items r)) <= Ring.maxDepth r ->
  exists r',
    Ring.push v r = Some r' /\
    Ring.maxDepth r' = Ring.maxDepth r /\
    (Z.of_nat (List.length (Ring.items r)) < Ring.maxDepth r ->
     Ring.items r' = Ring.items r ++ [v] /\ Ring.dropped r' = Ring.dropped r) /\
    (Z.of_nat (List.length (Ring.items r)) = Ring.maxDepth r ->
     Ring.items r' = tl (Ring.items r) ++ [v] /\
     Ring.dropped r' = Ring.dropped r + 1).
Proof.
  intros Hc Hlen. unfold Ring.push.
  destruct r as [xs d c]; simpl in *.
  rewrite length_app; simpl.
  replace (List.length xs + 1)%nat with (S (List.length xs)) by lia.
  cbn [Ring.evict Ring.items Ring.maxDepth Ring.dropped].
  rewrite length_app; simpl.
  destruct (Z.gtb_spec (Z.of_nat (List.length xs + 1)) c) as [Hgt | Hle].
  - assert (Hfull : Z.of_nat (List.length xs) = c) by lia.
    destruct xs as [| x xs']; [simpl in *; lia |].
    cbn [Ring.shift tl app].
    rewrite evict_within.
    + eexists; split; [reflexivity |]; simpl; repeat split; intros;
        try reflexivity; exfalso; simpl in *; lia.
    + simpl. rewrite length_app. simpl in *. lia.
  - eexists; split; [reflexivity |]; simpl; repeat split; intros;
      try reflexivity; exfalso; lia.
Qed.

Lemma last_cons_default (A : Type) (l : list A) : forall x d : A,
  last (x :: l) d = last l x.
Proof.
  induction l as [| y l IH]; intros x d; [reflexivity |].
  change (last (x :: y :: l) d) with (last (y :: l) d).
  rewrite (IH y d), (IH y x). reflexivity.
Qed.

Lemma last_map_snoc (xs : list T) (v : T) :
  last (map Some (xs ++ [v])) None = Some v.
Proof.
  rewrite map_app. simpl. apply last_last.
Qed.

(** The state of a ring after any run of pushes, from any state that
    respects the capacity. *)
Lemma pushAll_from (vs : list T) : forall r : ring,
  1 <= Ring.maxDepth r ->
  Z.of_nat (List.length (Ring.items r)) <= Ring.maxDepth r ->
  exists r',
    Ring.pushAll vs r = Some r' /\
    Ring.maxDepth r' = Ring.maxDepth r /\
    Ring.depth r' =
      Z.min (Z.of_nat (List.length (Ring.items r)) + Z.of_nat (List.length vs))
            (Ring.maxDepth r) /\
    Ring.dropped r' =
      Ring.dropped r +
      Z.max 0 (Z.of_nat (List.length (Ring.items r))
               + Z.of_nat (List.length vs) - Ring.maxDepth r) /\
    Ring.newest r' = last (map Some vs) (Ring.newest r).
Proof.
  induction vs as [| v vs IH]; intros r Hc Hlen.
  - exists r. simpl. unfold Ring.depth. repeat split; try lia.
  - destruct (push_step v r Hc Hlen) as (r1 & Hp & Hm & Hlt & Heq).
    assert (Hlen1 : Z.of_nat (List.length (Ring.items r1)) <= Ring.maxDepth r1
                    /\ Z.of_nat (List.length (Ring.items r1)) =
                       Z.min (Z.of_nat (List.length (Ring.items r)) + 1)
                             (Ring.maxDepth r)
                    /\ Ring.dropped r1 =
                       Ring.dropped r +
                       Z.max 0 (Z.of_nat (List.length (Ring.items r)) + 1
                                - Ring.maxDepth r)
                    /\ Ring.newest r1 = Some v).
    { destruct (Z.eq_dec (Z.of_nat (List.length (Ring.items r))) (Ring.maxDepth r))
        as [Hfull | Hnot].
      - destruct (Heq Hfull) as [Hi Hd]. rewrite Hi, Hd, Hm.
        unfold Ring.newest. rewrite Hi, last_map_snoc.
        rewrite length_app.
        destruct (Ring.items r) as [| x xs]; cbn [tl List.length app] in *;
          repeat split; try reflexivity; lia.
      - assert (Hl : Z.of_nat (List.length (Ring.items r)) < Ring.maxDepth r) by lia.
        destruct (Hlt Hl) as [Hi Hd]. rewrite Hi, Hd, Hm.
        unfold Ring.newest. rewrite Hi, last_map_snoc.
        rewrite length_app. cbn [List.length].
        repeat split; try reflexivity; lia. }
    destruct Hlen1 as (Hcap1 & Hdep1 & Hdrop1 & Hnew1).
    assert (Hc1 : 1 <= Ring.maxDepth r1) by lia.
    destruct (IH r1 Hc1 Hcap1) as (r' & Hall & Hm' & Hdep & Hdrop & Hnew).
    exists r'. simpl Ring.pushAll. rewrite Hp.
    split; [exact Hall |].
    split; [lia |].
    split; [rewrite Hdep, Hdep1, Hm; simpl List.length; lia |].
    split; [rewrite Hdrop, Hdrop1, Hdep1, Hm; simpl List.length; lia |].
    rewrite Hnew, Hnew1. cbn [map]. symmetry. apply last_cons_default.
Qed.

(** C2. For a fresh frame ring of capacity [C >= 1], any sequence of [N]
    pushes goes through and leaves depth [min N C] (never above [C]), a
    drop counter of [max 0 (N - C)], and the last value pushed as the
    newest entry. *)
Theorem ring_after_pushes (C : Z) (vs : list T) :
  1 <= C ->
  exists r,
    Ring.pushAll vs (Ring.create T C) = Some r /\
    Ring.depth r = Z.min (Z.of_nat (List.length vs)) C /\
    Ring.depth r <= C /\
    Ring.dropped r = Z.max 0 (Z.of_nat (List.length vs) - C) /\
    Ring.newest r = last (map Some vs) None.
Proof.
  intros HC.
  destruct (pushAll_from vs (Ring.create T C)) as (r & Hall & _ & Hd & Hdr & Hn);
    simpl; try lia.
  exists r. simpl in *.
  repeat split; try assumption; try lia.
Qed.

End RingFacts.

(** Capacity 4 and seven pushes: depth 4, three dropped, 7 the newest. *)
Lemma ring_after_pushes_witness :
  1 <= 4 /\
  exists r,
    Ring.pushAll [1; 2; 3; 4; 5; 6; 7] (Ring.create Z 4) = Some r /\
    Ring.depth r = Z.min 7 4 /\
    Ring.depth r <= 4 /\
    Ring.dropped r = Z.max 0 (7 - 4) /\
    Ring.newest r = Some 7.
Proof.
  split; [lia |].
  apply (@ring_after_pushes Z 4 [1; 2; 3; 4; 5; 6; 7]). lia.
Defined.

(* ------------------------------------------------------------------ *)
(** ** Capture settings *)
(* ------------------------------------------------------------------ *)

(** The specification's wording of the normalization, to compare with
    [normalizeCaptureSettings]. *)
Module CaptureSpec.

(** DOM and AX iff the profile is not [frames_only], frames iff it is not
    [dom_only], network always. *)
Definition profile_defaults (profile : CaptureProfile) (frames : option Z)
  : ObserveOptions :=
  mkObserveOptions
    (match profile with frames_only => false | _ => true end)
    (match profile with frames_only => false | _ => true end)
    true
    (match profile with dom_only => false | _ => true end)
    frames.

(** No include flag of the block is set: each one is absent or [false]. *)
Definition no_flag_set (i : CaptureSettingsInput) : Prop :=
  include_dom i <> Some true /\ include_ax i <> Some true /\
  include_frame i <> Some true /\ include_network i <> Some true.

(** The caller's flags taken as they are, an absent flag being off. *)
Definition caller_flags (i : CaptureSettingsInput) : ObserveOptions :=
  mkObserveOptions
    (match include_dom i with Some b => b | None => false end)
    (match include_ax i with Some b => b | None => false end)
    (match include_network i with Some b => b | None => false end)
    (match include_frame i with Some b => b | None => false end)
    (max_frames i).

End CaptureSpec.

Lemma no_flag_set_dec (i : CaptureSettingsInput) :
  {CaptureSpec.no_flag_set i} + {~ CaptureSpec.no_flag_set i}.
Proof.
  unfold CaptureSpec.no_flag_set.
  destruct (include_dom i) as [[|] |], (include_ax i) as [[|] |],
    (include_frame i) as [[|] |], (include_network i) as [[|] |];
    first [ left; repeat split; discriminate
          | right; intros (H1 & H2 & H3 & H4); congruence ].
Qed.

(** C6. The capture settings of a step: without a capture block the
    profile defaults (with the session's frame cap); with a block in which
    no include flag is set the profile defaults with the caller's
    [max_frames]; otherwise exactly the caller's flags. *)
Theorem normalizeCaptureSettings_spec
        (profile : CaptureProfile) (sessionMaxFrames : Z)
        (input : option CaptureSettingsInput) :
  normalizeCaptureSettings profile sessionMaxFrames input =
  match input with
  | None => CaptureSpec.profile_defaults profile (Some sessionMaxFrames)
  | Some i =>
      if no_flag_set_dec i
      then CaptureSpec.profile_defaults profile (max_frames i)
      else CaptureSpec.caller_flags i
  end.
Proof.
  destruct input as [i |]; [| destruct profile; reflexivity].
  destruct (no_flag_set_dec i) as [H | H];
    unfold CaptureSpec.no_flag_set in H;
    unfold normalizeCaptureSettings, CaptureSpec.caller_flags, flag;
    destruct (include_dom i) as [[|] |], (include_ax i) as [[|] |],
      (include_frame i) as [[|] |], (include_network i) as [[|] |];
    simpl; try (destruct profile; reflexivity); try reflexivity;
    exfalso;
    first [ apply H; repeat split; discriminate
          | destruct H as (H1 & H2 & H3 & H4); congruence ].
Qed.

(* ------------------------------------------------------------------ *)
(** ** What the pieces of the runtime leave alone

    [stable] relates a session before and after code that does not steer
    it: handlers, awaited calls, the state builder. [frame] lifts it to the
    world. The two flags say whether the trace files and the state
    builder's last token are also kept. *)
(* ------------------------------------------------------------------ *)

Definition ctl (s : BrowserSession) :=
  (bs_id s, params s, browser s, context s, page s, actionExecutor s,
   active s, stepIndex s, createdAt s).

Definition stable (keep_tok : bool) (s s' : BrowserSession) : Prop :=
  ctl s' = ctl s /\
  option_map sb_page (stateBuilder s') = option_map sb_page (stateBuilder s) /\
  (keep_tok = true -> stateBuilder s' = stateBuilder s) /\
  (captureCoordinator s = None <-> captureCoordinator s' = None) /\
  (networkEvents s <> [] -> networkEvents s' <> []).

Lemma stable_refl (t : bool) (s : BrowserSession) : stable t s s.
Proof. unfold stable; tauto. Qed.

Lemma stable_trans (t : bool) (s1 s2 s3 : BrowserSession) :
  stable t s1 s2 -> stable t s2 s3 -> stable t s1 s3.
Proof.
  unfold stable. intros (A1 & B1 & C1 & D1 & E1) (A2 & B2 & C2 & D2 & E2).
  repeat split; try congruence; try tauto.
  intros H. rewrite C2, C1; auto.
Qed.

Lemma stable_weaken (t : bool) (s s' : BrowserSession) :
  stable true s s' -> stable t s s'.
Proof. unfold stable. intros (A & B & C & D & F). repeat split; auto; tauto. Qed.

Lemma trim_ring_nonempty (cap : Z) (xs : list NetworkEvent) (e : NetworkEvent) :
  1 <= cap -> trim_ring cap (xs ++ [e]) <> [].
Proof.
  intros Hc. unfold trim_ring.
  destruct (Z.gtb_spec (Z.of_nat (List.length (xs ++ [e]))) cap) as [H | H].
  - rewrite length_app in H. cbn [List.length] in H.
    destruct xs as [| x [| y xs]]; cbn [List.length app tl] in *;
      try discriminate; lia.
  - destruct xs; discriminate.
Qed.

Ltac stable_tac :=
  unfold stable, ctl; cbn;
  repeat split; try reflexivity; try tauto; try discriminate;
  try (intros; apply trim_ring_nonempty; lia).

Section FrameFacts.

Context {E : Type} {Environment : Env E}.

Definition frame (keep_fs keep_tok : bool) (w w' : @World E) : Prop :=
  manager w' = manager w /\
  (keep_fs = true -> fs_logs w' = fs_logs w /\ fs_index w' = fs_index w) /\
  List.length (heap w') = List.length (heap w) /\
  forall b s, nth_error (heap w) b = Some s ->
              exists s', nth_error (heap w') b = Some s' /\ stable keep_tok s s'.

Lemma frame_refl (f t : bool) (w : @World E) : frame f t w w.
Proof.
  unfold frame. repeat split; auto.
  intros b s H. exists s. split; [assumption | apply stable_refl].
Qed.

Lemma frame_trans (f t : bool) (w1 w2 w3 : @World E) :
  frame f t w1 w2 -> frame f t w2 w3 -> frame f t w1 w3.
Proof.
  intros (A1 & B1 & C1 & D1) (A2 & B2 & C2 & D2).
  unfold frame. split; [congruence |]. split.
  - intros Hf. destruct (B1 Hf), (B2 Hf). split; congruence.
  - split; [congruence |].
    intros b s H. destruct (D1 b s H) as (s2 & H2 & S2).
    destruct (D2 b s2 H2) as (s3 & H3 & S3).
    exists s3. split; [assumption | eapply stable_trans; eauto].
Qed.

Lemma frame_weaken (f t : bool) (w w' : @World E) :
  frame true true w w' -> frame f t w w'.
Proof.
  intros (A & B & C & D). unfold frame. repeat split; auto;
    try (apply B; reflexivity).
  intros b s H. destruct (D b s H) as (s' & H' & S').
  exists s'. split; [assumption | apply stable_weaken; assumption].
Qed.

Lemma frame_drop_fs (f t : bool) (w w' : @World E) :
  frame f t w w' -> frame false t w w'.
Proof.
  intros (A & B & C & D). unfold frame. repeat split; auto; discriminate.
Qed.

Lemma nth_error_list_set_eq (A : Type) (xs : list A) : forall (i : nat) (v x : A),
  nth_error xs i = Some x -> nth_error (list_set i v xs) i = Some v.
Proof.
  induction xs as [| y xs IH]; intros [| i] v x H; simpl in *;
    try discriminate; eauto.
Qed.

Lemma nth_error_list_set_neq (A : Type) (xs : list A) : forall (i j : nat) (v : A),
  i <> j -> nth_error (list_set i v xs) j = nth_error xs j.
Proof.
  induction xs as [| y xs IH]; intros [| i] [| j] v H; simpl in *;
    try reflexivity; try congruence.
  apply IH. congruence.
Qed.

Lemma length_list_set (A : Type) (xs : list A) : forall (i : nat) (v : A),
  List.length (list_set i v xs) = List.length xs.
Proof.
  induction xs as [| y xs IH]; intros [| i] v; simpl; auto.
Qed.

(** Replacing one session by a [stable] one. *)
Lemma frame_heap_update (f t : bool) (w : @World E) (a : nat)
      (s s' : BrowserSession) :
  nth_error (heap w) a = Some s -> stable t s s' ->
  frame f t w (set_heap (list_set a s' (heap w)) w).
Proof.
  intros Ha Hs. unfold frame; cbn. repeat split; auto.
  - apply length_list_set.
  - intros b sb Hb. destruct (Nat.eq_dec a b) as [-> | Hne].
    + rewrite (nth_error_list_set_eq _ _ _ Ha).
      exists s'. split; [reflexivity |]. congruence.
    + rewrite nth_error_list_set_neq by assumption.
      exists sb. split; [assumption | apply stable_refl].
Qed.

(** Changes outside the heap, the manager and the trace files. *)
Lemma frame_same_heap (f t : bool) (w w' : @World E) :
  manager w' = manager w -> heap w' = heap w ->
  (f = true -> fs_logs w' = fs_logs w /\ fs_index w' = fs_index w) ->
  frame f t w w'.
Proof.
  intros Hm Hh Hf. unfold frame. rewrite Hh. repeat split; auto;
    try (apply Hf; assumption).
  intros b s H. exists s. split; [assumption | apply stable_refl].
Qed.

(** *** Programs that keep a frame *)

Definition preserves (R : @World E -> @World E -> Prop) {A : Type}
           (m : M A) : Prop :=
  forall w, R w (snd (m w)).

Section Combinators.

Variables f t : bool.

Lemma preserves_ret (A : Type) (a : A) : preserves (frame f t) (ret a).
Proof. intros w. apply frame_refl. Qed.

Lemma preserves_throw (A : Type) (msg : string) :
  preserves (frame f t) (@throw E A msg).
Proof. intros w. apply frame_refl. Qed.

Lemma preserves_bind (A B : Type) (m : M A) (k : A -> M B) :
  preserves (frame f t) m -> (forall a, preserves (frame f t) (k a)) ->
  preserves (frame f t) (bind m k).
Proof.
  intros Hm Hk w. unfold bind. specialize (Hm w).
  destruct (m w) as [[a | msg] w1]; cbn in *; [| assumption].
  eapply frame_trans; [eassumption | apply Hk].
Qed.

Lemma preserves_try_catch (A : Type) (m : M A) (h : string -> M A) :
  preserves (frame f t) m -> (forall msg, preserves (frame f t) (h msg)) ->
  preserves (frame f t) (try_catch m h).
Proof.
  intros Hm Hh w. unfold try_catch. specialize (Hm w).
  destruct (m w) as [[a | msg] w1]; cbn in *; [assumption |].
  eapply frame_trans; [eassumption | apply Hh].
Qed.

Lemma preserves_try_finally (A : Type) (m : M A) (fin : M unit) :
  preserves (frame f t) m -> preserves (frame f t) fin ->
  preserves (frame f t) (try_finally m fin).
Proof.
  intros Hm Hf w. unfold try_finally. specialize (Hm w).
  destruct (m w) as [r w1]. specialize (Hf w1).
  destruct (fin w1) as [[u | msg] w2]; cbn in *;
    eapply frame_trans; eassumption.
Qed.

Lemma preserves_swallow (A : Type) (m : M A) :
  preserves (frame f t) m -> preserves (frame f t) (swallow m).
Proof. intros Hm w. apply Hm. Qed.

Lemma preserves_gets (A : Type) (g : World -> A) :
  preserves (frame f t) (gets g).
Proof. intros w. apply frame_refl. Qed.

Lemma preserves_now : preserves (frame f t) now.
Proof.
  intros w. unfold now. destruct (env_now (env w)) as [x e]. cbn.
  apply frame_same_heap; auto.
Qed.

Lemma preserves_randomUUID : preserves (frame f t) randomUUID.
Proof.
  intros w. unfold randomUUID. destruct (env_randomUUID (env w)) as [x e]. cbn.
  apply frame_same_heap; auto.
Qed.

Lemma preserves_await_quiet (A : Type) (c : ExtCall A) :
  preserves (frame f t) (await_quiet c).
Proof.
  intros w. unfold await_quiet. destruct (env_await c (env w)) as [x e]. cbn.
  apply frame_same_heap; auto.
Qed.

Lemma preserves_getS (a : nat) : preserves (frame f t) (getS a).
Proof.
  intros w. unfold getS. destruct (nth_error (heap w) a); apply frame_refl.
Qed.

Lemma preserves_modS (a : nat) (g : BrowserSession -> BrowserSession) :
  (forall s, stable t s (g s)) -> preserves (frame f t) (modS a g).
Proof.
  intros Hg w. unfold modS. destruct (nth_error (heap w) a) eqn:Ha; cbn.
  - eapply frame_heap_update; eauto.
  - apply frame_refl.
Qed.

Lemma preserves_modC (a : nat) (g : CaptureCoordinator -> CaptureCoordinator) :
  preserves (frame f t) (modC a g).
Proof.
  apply preserves_modS. intros s.
  destruct (captureCoordinator s) eqn:Hc; [| apply stable_refl].
  unfold stable, ctl; cbn. rewrite Hc.
  repeat split; try reflexivity; try tauto; discriminate.
Qed.

Lemma preserves_getC (a : nat) : preserves (frame f t) (getC a).
Proof.
  unfold getC. apply preserves_bind; [apply preserves_getS |].
  intros s. destruct (captureCoordinator s);
    [apply preserves_ret | apply preserves_throw].
Qed.

Lemma preserves_modify_metrics (g : @World E -> MetricsCollector) :
  preserves (frame f t) (modify (fun w => set_metrics (g w) w)).
Proof. intros w. cbn. apply frame_same_heap; auto. Qed.

Lemma preserves_modify_frames (g : @World E -> JsMap.t string) :
  preserves (frame f t) (modify (fun w => set_fs_frames (g w) w)).
Proof. intros w. cbn. apply frame_same_heap; auto. Qed.

End Combinators.

Lemma preserves_modify_logs (t : bool) (g : @World E -> JsMap.t (list Line)) :
  preserves (frame false t) (modify (fun w => set_fs_logs (g w) w)).
Proof. intros w. cbn. apply frame_same_heap; auto. discriminate. Qed.

Lemma preserves_modify_index (t : bool) (g : @World E -> JsMap.t TraceIndex) :
  preserves (frame false t) (modify (fun w => set_fs_index (g w) w)).
Proof. intros w. cbn. apply frame_same_heap; auto. discriminate. Qed.

Lemma preserves_weaken (f t : bool) (A : Type) (m : M A) :
  preserves (frame true true) m -> preserves (frame f t) m.
Proof. intros H w. apply frame_weaken, H. Qed.

Lemma preserves_drop_fs (f t : bool) (A : Type) (m : M A) :
  preserves (frame f t) m -> preserves (frame false t) m.
Proof. intros H w. eapply frame_drop_fs, H. Qed.

End FrameFacts.

Create HintDb pres discriminated.

(** Walks a program of the runtime and shows that it keeps a frame. *)
Ltac pres_step :=
  lazymatch goal with
  | |- preserves _ (bind _ _) => apply preserves_bind; [| intros]
  | |- preserves _ (ret _) => apply preserves_ret
  | |- preserves _ (throw _) => apply preserves_throw
  | |- preserves _ (try_catch _ _) => apply preserves_try_catch; [| intros]
  | |- preserves _ (try_finally _ _) => apply preserves_try_finally
  | |- preserves _ (swallow _) => apply preserves_swallow
  | |- preserves _ (gets _) => apply preserves_gets
  | |- preserves _ now => apply preserves_now
  | |- preserves _ randomUUID => apply preserves_randomUUID
  | |- preserves _ (await_quiet _) => apply preserves_await_quiet
  | |- preserves _ (getS _) => apply preserves_getS
  | |- preserves _ (getC _) => apply preserves_getC
  | |- preserves _ (modC _ _) => apply preserves_modC
  | |- preserves _ (modS _ _) =>
      apply preserves_modS; intros; solve [stable_tac]
  | |- preserves _ (modify (fun w => set_metrics _ w)) =>
      apply preserves_modify_metrics
  | |- preserves _ (modify (fun w => set_fs_frames _ w)) =>
      apply preserves_modify_frames
  | |- preserves _ (modify (fun w => set_fs_logs _ w)) =>
      apply preserves_modify_logs
  | |- preserves _ (modify (fun w => set_fs_index _ w)) =>
      apply preserves_modify_index
  | |- preserves _ (match ?x with _ => _ end) => destruct x
  | |- preserves _ _ =>
      first [ solve [eauto with pres]
            | solve [apply preserves_weaken; eauto with pres]
            | solve [eapply preserves_drop_fs; eauto with pres] ]
  end.

Ltac pres := repeat (cbv zeta; pres_step).

Section HandlerFacts.

Context {E : Type} {Environment : Env E}.

Variables f t : bool.

Lemma pushNetwork_frame (a : nat) (prefix : string)
      (mk : string -> Z -> NetworkEvent) :
  preserves (frame f t) (pushNetwork a prefix mk).
Proof. unfold pushNetwork. pres. Qed.

Lemma onRequest_frame (a : nat) (url method rt : string) :
  preserves (frame f t) (onRequest a url method rt).
Proof. apply pushNetwork_frame. Qed.

Lemma onResponse_frame (a : nat) (url method : string) (st : Z) (rt : string) :
  preserves (frame f t) (onResponse a url method st rt).
Proof. apply pushNetwork_frame. Qed.

Lemma onRequestFailed_frame (a : nat) (url method rt : string)
      (err : option string) :
  preserves (frame f t) (onRequestFailed a url method rt err).
Proof. apply pushNetwork_frame. Qed.

Lemma ackFrame_frame (a : nat) (sid : string) :
  preserves (frame f t) (ackFrame a sid).
Proof. unfold ackFrame. pres. Qed.

Lemma shouldCaptureFrame_frame (a : nat) (nowMs : Z) :
  preserves (@frame E f t) (shouldCaptureFrame a nowMs).
Proof. unfold shouldCaptureFrame. pres. Qed.

Lemma captureFrame_frame (a : nat) (start : Z) (fp : FramePayload)
      (data : string) :
  preserves (frame f t) (captureFrame a start fp data).
Proof. unfold captureFrame. pres. Qed.

Hint Resolve ackFrame_frame shouldCaptureFrame_frame captureFrame_frame : pres.

Lemma onScreencastFrame_frame (a : nat) (payload : option FramePayload) :
  preserves (frame f t) (onScreencastFrame a payload).
Proof. unfold onScreencastFrame. pres. Qed.

Hint Resolve onRequest_frame onResponse_frame onRequestFailed_frame
     onScreencastFrame_frame : pres.

Lemma handle_frame (ev : nat * DriverEvent) : preserves (frame f t) (handle ev).
Proof. unfold handle. destruct ev as [a e]. pres. Qed.

Lemma deliver_frame (evs : list (nat * DriverEvent)) :
  preserves (frame f t) (deliver evs).
Proof.
  induction evs as [| ev evs IH]; cbn [deliver].
  - apply preserves_ret.
  - apply preserves_bind; [apply handle_frame | intros; apply IH].
Qed.

Lemma yield_frame : preserves (frame f t) yield.
Proof.
  intros w. unfold yield. destruct (env_events (env w)) as [evs e].
  eapply frame_trans; [| apply deliver_frame].
  apply frame_same_heap; auto.
Qed.

(** An awaited call keeps every frame, whatever the environment answers
    and whichever events it delivers meanwhile. *)
Lemma await_frame (A : Type) (c : ExtCall A) : preserves (frame f t) (await c).
Proof.
  intros w. unfold await. destruct (env_await c (env w)) as [r e].
  pose proof (yield_frame (set_env e w)) as Hy.
  destruct (yield (set_env e w)) as [u w']. cbn in *.
  eapply frame_trans; [| exact Hy].
  apply frame_same_heap; auto.
Qed.

End HandlerFacts.

#[global] Hint Resolve await_frame : pres.

Section OperationFrames.

Context {E : Type} {Environment : Env E}.

Variable t : bool.

Lemma ReplayStore_load_frame (f : bool) (traceId : string) :
  preserves (frame f t) (ReplayStore_load traceId).
Proof. unfold ReplayStore_load. pres. Qed.

Hint Resolve ReplayStore_load_frame : pres.

Lemma ReplayStore_append_frame (traceId : string) (event : ReplayEvent) :
  preserves (frame false t) (ReplayStore_append traceId event).
Proof. unfold ReplayStore_append. pres. Qed.

Lemma ReplayStore_persistTraceIndex_frame (traceId : string)
      (events : list ReplayEvent) :
  preserves (frame false t) (ReplayStore_persistTraceIndex traceId events).
Proof. unfold ReplayStore_persistTraceIndex. pres. Qed.

Lemma ReplayStore_cleanup_frame (traceId : string) :
  preserves (frame false t) (ReplayStore_cleanup traceId).
Proof. unfold ReplayStore_cleanup. pres. Qed.

Hint Resolve ReplayStore_append_frame ReplayStore_persistTraceIndex_frame
     ReplayStore_cleanup_frame : pres.

Lemma recordReplayEvent_frame (a : nat) (type : ReplayEventType)
      (payload : ReplayPayload) :
  preserves (frame false t) (recordReplayEvent a type payload).
Proof. unfold recordReplayEvent. pres. Qed.

Lemma CaptureCoordinator_start_frame (f : bool) (a : nat) :
  preserves (frame f t) (CaptureCoordinator_start a).
Proof. unfold CaptureCoordinator_start. pres. Qed.

Lemma CaptureCoordinator_stop_frame (f : bool) (a : nat) :
  preserves (frame f t) (CaptureCoordinator_stop a).
Proof. unfold CaptureCoordinator_stop. pres. Qed.

Lemma signalVisualDrift_frame (f : bool) (a : nat) :
  preserves (frame f t) (signalVisualDrift a).
Proof. unfold signalVisualDrift. pres. Qed.

Lemma withElementOrCoordinate_frame (f : bool) (pg : Handle) (input : ActionInput)
      (withSelector : string -> M DispatchResult)
      (withCoords : Z -> Z -> M DispatchResult) :
  (forall sel, preserves (frame f t) (withSelector sel)) ->
  (forall x y, preserves (frame f t) (withCoords x y)) ->
  preserves (frame f t) (withElementOrCoordinate pg input withSelector withCoords).
Proof. intros Hs Hc. unfold withElementOrCoordinate. pres. Qed.

Lemma dispatch_frame (f : bool) (pg : Handle) (action : AgentAction)
      (input : ActionInput) (timeout : Z) :
  preserves (frame f t) (dispatch pg action input timeout).
Proof.
  unfold dispatch. destruct action;
    try (apply withElementOrCoordinate_frame; intros); pres;
    try (apply withElementOrCoordinate_frame; intros); pres.
Qed.

Lemma withTimeout_frame (f : bool) (A : Type) (fn : M A) (ms : Z) :
  preserves (frame f t) fn -> preserves (frame f t) (withTimeout fn ms).
Proof.
  intros Hf w. unfold withTimeout. specialize (Hf w).
  destruct (fn w) as [r w1]. destruct (env_timer_first ms (env w1)) as [b e].
  cbn in *. destruct b; cbn;
    (eapply frame_trans; [eassumption | apply frame_same_heap; auto]).
Qed.

Lemma recordActionEvent_frame (f : bool) (a : nat) (pg : Handle)
      (input : ActionInput) (result : option DispatchResult) (success : bool)
      (detail : option string) :
  preserves (frame f t) (recordActionEvent a pg input result success detail).
Proof. unfold recordActionEvent. pres. Qed.

Hint Resolve recordActionEvent_frame dispatch_frame : pres.

Lemma ActionExecutor_execute_frame (f : bool) (a : nat) (pg : Handle)
      (input : ActionInput) :
  preserves (frame f t) (ActionExecutor_execute a pg input).
Proof.
  unfold ActionExecutor_execute. pres.
  apply withTimeout_frame. apply dispatch_frame.
Qed.

End OperationFrames.

#[global] Hint Resolve ReplayStore_append_frame
  ReplayStore_persistTraceIndex_frame ReplayStore_cleanup_frame
  recordActionEvent_frame dispatch_frame : pres.

#[global] Hint Resolve ReplayStore_load_frame recordReplayEvent_frame
  CaptureCoordinator_start_frame CaptureCoordinator_stop_frame
  signalVisualDrift_frame ActionExecutor_execute_frame : pres.

(* ------------------------------------------------------------------ *)
(** ** Running a program step by step *)
(* ------------------------------------------------------------------ *)

Section Stepping.

Context {E : Type} {Environment : Env E}.

Lemma bind_Ok_inv (A B : Type) (m : M A) (k : A -> M B) (w w' : @World E)
      (b : B) :
  bind m k w = (Ok b, w') ->
  exists a w1, m w = (Ok a, w1) /\ k a w1 = (Ok b, w').
Proof.
  unfold bind. destruct (m w) as [[a | msg] w1]; intros H;
    [eauto | discriminate].
Qed.

Lemma bind_inv (A B : Type) (m : M A) (k : A -> M B) (w w' : @World E)
      (r : Res B) :
  bind m k w = (r, w') ->
  (exists a w1, m w = (Ok a, w1) /\ k a w1 = (r, w')) \/
  (exists msg, m w = (Throw msg, w') /\ r = Throw msg).
Proof.
  unfold bind. destruct (m w) as [[a | msg] w1]; intros H.
  - left. eauto.
  - right. inversion H; subst. eauto.
Qed.

Lemma bind_eq (A B : Type) (m : M A) (k : A -> M B) (w w1 : @World E) (a : A) :
  m w = (Ok a, w1) -> bind m k w = k a w1.
Proof. intros H. unfold bind. rewrite H. reflexivity. Qed.

Lemma bind_throw_eq (A B : Type) (m : M A) (k : A -> M B) (w w1 : @World E)
      (msg : string) :
  m w = (Throw msg, w1) -> bind m k w = (Throw msg, w1).
Proof. intros H. unfold bind. rewrite H. reflexivity. Qed.

Lemma run_frame (R : @World E -> @World E -> Prop) (A : Type) (m : M A)
      (w w' : @World E) (r : Res A) :
  preserves R m -> m w = (r, w') -> R w w'.
Proof. intros H Hm. specialize (H w). rewrite Hm in H. exact H. Qed.

Lemma getS_eq (a : nat) (w : @World E) (s : BrowserSession) :
  nth_error (heap w) a = Some s -> getS a w = (Ok s, w).
Proof. intros H. unfold getS. rewrite H. reflexivity. Qed.


Lemma modS_eq (a : nat) (g : BrowserSession -> BrowserSession) (w : @World E)
      (s : BrowserSession) :
  nth_error (heap w) a = Some s ->
  modS a g w = (Ok tt, set_heap (list_set a (g s) (heap w)) w).
Proof. intros H. unfold modS. rewrite H. reflexivity. Qed.

Lemma frame_lookup (f t : bool) (w w' : @World E) (a : nat)
      (s : BrowserSession) :
  frame f t w w' -> nth_error (heap w) a = Some s ->
  exists s', nth_error (heap w') a = Some s' /\ stable t s s'.
Proof. intros (_ & _ & _ & H) Ha. apply H. assumption. Qed.

End Stepping.

Section Post.

Context {E : Type} {Environment : Env E}.

(** [post m w Q]: running [m] from [w] ends in a result and a world that
    satisfy [Q]. *)
Definition post {A : Type} (m : M A) (w : @World E)
           (Q : Res A -> @World E -> Prop) : Prop :=
  Q (fst (m w)) (snd (m w)).

Lemma post_elim (A : Type) (m : M A) (w w' : @World E) (r : Res A)
      (Q : Res A -> @World E -> Prop) :
  post m w Q -> m w = (r, w') -> Q r w'.
Proof. unfold post. intros H Hm. rewrite Hm in H. exact H. Qed.

Lemma post_intro (A : Type) (m : M A) (w : @World E)
      (Q : Res A -> @World E -> Prop) :
  (forall r w', m w = (r, w') -> Q r w') -> post m w Q.
Proof. unfold post. intros H. apply H. destruct (m w); reflexivity. Qed.

Lemma post_weaken (A : Type) (m : M A) (w : @World E)
      (Q Q' : Res A -> @World E -> Prop) :
  post m w Q -> (forall r w', Q r w' -> Q' r w') -> post m w Q'.
Proof. unfold post. auto. Qed.

Lemma post_ret (A : Type) (a : A) (w : @World E)
      (Q : Res A -> @World E -> Prop) :
  Q (Ok a) w -> post (ret a) w Q.
Proof. auto. Qed.

Lemma post_throw (A : Type) (msg : string) (w : @World E)
      (Q : Res A -> @World E -> Prop) :
  Q (Throw msg) w -> post (throw msg) w Q.
Proof. auto. Qed.

Lemma post_bind (A B : Type) (m : M A) (k : A -> M B) (w : @World E)
      (Q : Res B -> @World E -> Prop) :
  post m w (fun r w1 =>
              match r with
              | Ok a => post (k a) w1 Q
              | Throw msg => Q (Throw msg) w1
              end) ->
  post (bind m k) w Q.
Proof.
  unfold post, bind. destruct (m w) as [[a | msg] w1]; cbn; auto.
Qed.

Lemma post_try_catch (A : Type) (m : M A) (h : string -> M A) (w : @World E)
      (Q : Res A -> @World E -> Prop) :
  post m w (fun r w1 =>
              match r with
              | Ok a => Q (Ok a) w1
              | Throw msg => post (h msg) w1 Q
              end) ->
  post (try_catch m h) w Q.
Proof.
  unfold post, try_catch. destruct (m w) as [[a | msg] w1]; cbn; auto.
Qed.


(** A part of the program known only by the frame it keeps. *)
Lemma post_frame (R : @World E -> @World E -> Prop) (A : Type) (m : M A)
      (w : @World E) (Q : Res A -> @World E -> Prop) :
  preserves R m -> (forall r w1, R w w1 -> Q r w1) -> post m w Q.
Proof. unfold post. intros H HQ. apply HQ, H. Qed.

Lemma post_gets (A : Type) (g : @World E -> A) (w : @World E)
      (Q : Res A -> @World E -> Prop) :
  Q (Ok (g w)) w -> post (gets g) w Q.
Proof. auto. Qed.

Lemma post_modify (g : @World E -> @World E) (w : @World E)
      (Q : Res unit -> @World E -> Prop) :
  Q (Ok tt) (g w) -> post (modify g) w Q.
Proof. auto. Qed.

Lemma post_now (w : @World E) (Q : Res Z -> @World E -> Prop) :
  (forall x e, Q (Ok x) (set_env e w)) -> post now w Q.
Proof.
  unfold post, now. intros H. destruct (env_now (env w)) as [x e]. apply H.
Qed.

Lemma post_getS (a : nat) (s : BrowserSession) (w : @World E)
      (Q : Res BrowserSession -> @World E -> Prop) :
  nth_error (heap w) a = Some s -> Q (Ok s) w -> post (getS a) w Q.
Proof. intros H HQ. unfold post. rewrite (getS_eq _ _ H). exact HQ. Qed.

Lemma post_modS (a : nat) (g : BrowserSession -> BrowserSession)
      (s : BrowserSession) (w : @World E)
      (Q : Res unit -> @World E -> Prop) :
  nth_error (heap w) a = Some s ->
  Q (Ok tt) (set_heap (list_set a (g s) (heap w)) w) ->
  post (modS a g) w Q.
Proof. intros H HQ. unfold post. rewrite (modS_eq _ _ _ H). exact HQ. Qed.

Lemma post_getC (a : nat) (s : BrowserSession) (c : CaptureCoordinator)
      (w : @World E) (Q : Res CaptureCoordinator -> @World E -> Prop) :
  nth_error (heap w) a = Some s -> captureCoordinator s = Some c ->
  Q (Ok c) w -> post (getC a) w Q.
Proof.
  intros H Hc HQ. unfold getC. apply post_bind.
  eapply post_getS; [eassumption |]. rewrite Hc. apply post_ret. exact HQ.
Qed.

Lemma post_getSB (a : nat) (s : BrowserSession) (b : StateBuilder)
      (w : @World E) (Q : Res StateBuilder -> @World E -> Prop) :
  nth_error (heap w) a = Some s -> stateBuilder s = Some b ->
  Q (Ok b) w -> post (getSB a) w Q.
Proof.
  intros H Hb HQ. unfold getSB. apply post_bind.
  eapply post_getS; [eassumption |]. rewrite Hb. apply post_ret. exact HQ.
Qed.

End Post.

(* ------------------------------------------------------------------ *)
(** ** The state builder *)
(* ------------------------------------------------------------------ *)

Lemma digest_hex_nonempty (s : string) : Sha1.digest_hex s <> EmptyString.
Proof.
  unfold Sha1.digest_hex.
  destruct (Sha1.blocks _ Sha1.init _) as [[[[h0 h1] h2] h3] h4].
  cbn [Sha1.hex]. discriminate.
Qed.

Lemma slice_last_nonempty (A : Type) (n : Z) (xs : list A) :
  1 <= n -> xs <> [] -> slice_last n xs <> [].
Proof.
  intros Hn Hx. unfold slice_last.
  destruct (Z.eqb_spec n 0); [lia |].
  intros Hs. apply (f_equal (@List.length A)) in Hs.
  rewrite length_skipn in Hs. cbn in Hs.
  destruct xs; [congruence |]. cbn [List.length] in Hs. lia.
Qed.

Section StateBuilderFacts.

Context {E : Type} {Environment : Env E}.

Lemma post_getS_cases (a : nat) (w : @World E)
      (Q : Res BrowserSession -> @World E -> Prop) :
  (forall s, nth_error (heap w) a = Some s -> Q (Ok s) w) ->
  (forall msg, Q (Throw msg) w) ->
  post (getS a) w Q.
Proof.
  intros H1 H2. unfold post, getS.
  destruct (nth_error (heap w) a) eqn:Ha; cbn; auto.
Qed.

Lemma post_getSB_cases (a : nat) (w : @World E)
      (Q : Res StateBuilder -> @World E -> Prop) :
  (forall s b, nth_error (heap w) a = Some s -> stateBuilder s = Some b ->
               Q (Ok b) w) ->
  (forall msg, Q (Throw msg) w) ->
  post (getSB a) w Q.
Proof.
  intros H1 H2. unfold getSB. apply post_bind. apply post_getS_cases; auto.
  intros s Hs. destruct (stateBuilder s) eqn:Hb.
  - apply post_ret. eauto.
  - apply post_throw. auto.
Qed.

Lemma post_getC_cases (a : nat) (w : @World E)
      (Q : Res CaptureCoordinator -> @World E -> Prop) :
  (forall s c, nth_error (heap w) a = Some s -> captureCoordinator s = Some c ->
               Q (Ok c) w) ->
  (forall msg, Q (Throw msg) w) ->
  post (getC a) w Q.
Proof.
  intros H1 H2. unfold getC. apply post_bind. apply post_getS_cases; auto.
  intros s Hs. destruct (captureCoordinator s) eqn:Hb.
  - apply post_ret. eauto.
  - apply post_throw. auto.
Qed.

(** What one packet of the state builder is, in terms of the builder
    before and after. *)
Definition built (a : nat) (options : ObserveOptions) (w w' : @World E)
           (p : StatePacket) : Prop :=
  exists s b s',
    nth_error (heap w) a = Some s /\ stateBuilder s = Some b /\
    nth_error (heap w') a = Some s' /\
    stateBuilder s' = Some (set_lastStateToken (state_token p) b) /\
    change_tokens p = computeChangeTokens (lastStateToken b) (state_token p) /\
    state_token p <> EmptyString /\
    (includeNetwork options = true -> networkEvents s <> [] ->
     network_events p <> []).

Lemma StateBuilder_build_post (a : nat) (options : ObserveOptions)
      (w : @World E) :
  post (StateBuilder_buildStateSnapshot a options) w
       (fun r w' =>
          match r with
          | Ok p => frame true false w w' /\ built a options w w' p
          | Throw _ => frame true true w w'
          end).
Proof.
  unfold StateBuilder_buildStateSnapshot.
  apply post_bind. apply post_getSB_cases; [| intros; apply frame_refl].
  intros s b Hs Hb.
  apply post_bind, post_gets.
  apply post_bind.
  apply (post_frame (R := frame true true)); [pres |].
  intros r1 w1 F1. destruct r1 as [title | msg]; [| assumption].
  apply post_bind.
  apply (post_frame (R := frame true true)); [pres |].
  intros r2 w2 F2. pose proof (frame_trans F1 F2) as F12.
  destruct r2 as [domSummary | msg]; [| assumption].
  apply post_bind.
  apply (post_frame (R := frame true true)); [pres |].
  intros r3 w3 F3. pose proof (frame_trans F12 F3) as F.
  destruct r3 as [accessibility | msg]; [| assumption].
  destruct (frame_lookup a F Hs) as (s3 & Hs3 & St3).
  assert (Hb3 : stateBuilder s3 = Some b).
  { destruct St3 as (_ & _ & Hk & _). rewrite Hk; auto. }
  apply post_bind. eapply post_getS; [eassumption |].
  cbv zeta.
  apply post_bind. apply post_getC_cases; [| intros; assumption].
  intros s3' c Hs3' Hc. assert (s3' = s3) by congruence. subst s3'.
  apply post_bind. eapply post_getSB; [eassumption | eassumption |].
  apply post_bind. unfold modSB. eapply post_modS; [eassumption |].
  rewrite Hb3.
  apply post_bind, post_now. intros x e. apply post_ret.
  match goal with
  | |- frame _ _ _ (set_env _ (set_heap (list_set _ ?s' _) _)) /\ _ =>
      assert (St' : stable false s3 s')
  end.
  { unfold stable, ctl; cbn. rewrite Hb3. cbn.
    repeat split; try reflexivity; try tauto; discriminate. }
  assert (Fend : forall x, frame true false w
                   (set_env e (set_heap (list_set a x (heap w3)) w3))
                 <-> frame true false w (set_heap (list_set a x (heap w3)) w3)).
  { intros y. split; intros Hy; (eapply frame_trans; [exact Hy |]);
      apply frame_same_heap; auto. }
  split.
  { apply Fend. eapply frame_trans; [apply frame_weaken; exact F |].
    eapply frame_heap_update; eassumption. }
  exists s, b. eexists.
  split; [assumption |]. split; [assumption |].
  split. { cbn. eapply nth_error_list_set_eq. eassumption. }
  split; [reflexivity |]. split; [reflexivity |].
  split; [apply digest_hex_nonempty |].
  cbn [network_events].
  intros Hn Hne. rewrite Hn. apply slice_last_nonempty; [lia |].
  destruct St3 as (_ & _ & _ & _ & Hk). auto.
Qed.

End StateBuilderFacts.

Section ChangeTokens.

Context {E : Type} {Environment : Env E}.

(** The last token the builder of session [a] remembers. *)
Definition builder_token (a : nat) (w : @World E) : option string :=
  match nth_error (heap w) a with
  | Some s => option_map lastStateToken (stateBuilder s)
  | None => None
  end.

(** The packets one state builder builds, in order, from one world to a
    later one. Between two builds anything may happen that does not assign
    the builder's token; [buildStateSnapshot] holds the only assignment. *)
Inductive history (a : nat) : @World E -> list StatePacket -> @World E -> Prop :=
| history_done (w : @World E) : history a w [] w
| history_build (w w1 w2 : @World E) (options : ObserveOptions)
                (p : StatePacket) (ps : list StatePacket) :
    StateBuilder_buildStateSnapshot a options w = (Ok p, w1) ->
    history a w1 ps w2 ->
    history a w (p :: ps) w2
| history_other (w w1 w2 : @World E) (ps : list StatePacket) :
    builder_token a w1 = builder_token a w ->
    history a w1 ps w2 ->
    history a w ps w2.

(** The token a packet is compared with, and the tag that comes out. *)
Definition tagged_after (previous : string) (p : StatePacket) : Prop :=
  change_tokens p =
  if String.eqb previous (state_token p) then ["NO_CHANGE"]
  else ["STATE_CHANGED"].

Fixpoint chained (previous : string) (ps : list StatePacket) : Prop :=
  match ps with
  | [] => True
  | p :: r => tagged_after previous p /\ chained (state_token p) r
  end.

Lemma built_tokens (a : nat) (options : ObserveOptions) (w w1 : @World E)
      (p : StatePacket) (tok : string) :
  StateBuilder_buildStateSnapshot a options w = (Ok p, w1) ->
  builder_token a w = Some tok ->
  change_tokens p = computeChangeTokens tok (state_token p) /\
  builder_token a w1 = Some (state_token p) /\
  state_token p <> EmptyString.
Proof.
  intros Hrun Htok.
  pose proof (StateBuilder_build_post a options w) as Hb.
  unfold post in Hb. rewrite Hrun in Hb. cbn [fst snd] in Hb.
  destruct Hb as [_ Hb].
  destruct Hb as (s & b & s' & Hs & Hsb & Hs' & Hsb' & Hct & Hne & _).
  unfold builder_token in *. rewrite Hs, Hsb in Htok. rewrite Hs', Hsb'.
  cbn in *. inversion Htok; subst. auto.
Qed.

Lemma computeChangeTokens_later (previous current : string) :
  previous <> EmptyString ->
  computeChangeTokens previous current =
  if String.eqb previous current then ["NO_CHANGE"] else ["STATE_CHANGED"].
Proof.
  intros H. unfold computeChangeTokens.
  destruct previous; [congruence | reflexivity].
Qed.

Lemma history_chained (a : nat) (w w' : @World E) (ps : list StatePacket) :
  history a w ps w' ->
  forall tok, builder_token a w = Some tok ->
  match ps with
  | [] => True
  | p :: r =>
      change_tokens p = computeChangeTokens tok (state_token p) /\
      chained (state_token p) r
  end.
Proof.
  induction 1 as [w | w w1 w2 options p ps Hrun Hh IH | w w1 w2 ps Hk Hh IH];
    intros tok Htok.
  - exact I.
  - destruct (built_tokens _ _ _ Hrun Htok) as (Hct & Htok1 & Hne).
    split; [assumption |].
    specialize (IH _ Htok1). destruct ps as [| q r]; [exact I |].
    destruct IH as [Hq Hr]. split; [| assumption].
    unfold tagged_after. rewrite Hq.
    apply computeChangeTokens_later. assumption.
  - apply IH. congruence.
Qed.

Lemma chained_nth (ps : list StatePacket) : forall (previous : string) (i : nat)
    (p q : StatePacket),
  chained previous ps ->
  nth_error ps i = Some p -> nth_error ps (S i) = Some q ->
  tagged_after (state_token p) q.
Proof.
  induction ps as [| x r IH]; intros previous i p q Hc Hp Hq;
    [destruct i; discriminate |].
  destruct Hc as [_ Hr]. destruct i as [| i].
  - cbn in Hp, Hq. inversion Hp; subst.
    destruct r as [| y r']; [discriminate |]. cbn in Hq. inversion Hq; subst.
    apply Hr.
  - cbn in Hp. eapply IH; eauto.
Qed.

(** C7. The packets of one state builder, in the order it builds them:
    the first carries [INIT]; each later one carries [NO_CHANGE] when its
    state token equals the token of the packet built before it, and
    [STATE_CHANGED] otherwise. *)
Theorem change_tokens_of_a_builder (a : nat) (w w' : @World E)
        (ps : list StatePacket) :
  builder_token a w = Some EmptyString ->
  history a w ps w' ->
  (forall p, nth_error ps 0 = Some p -> change_tokens p = ["INIT"]) /\
  (forall i p q,
      nth_error ps i = Some p -> nth_error ps (S i) = Some q ->
      change_tokens q =
      if String.eqb (state_token p) (state_token q) then ["NO_CHANGE"]
      else ["STATE_CHANGED"]).
Proof.
  intros Hfresh Hh. pose proof (history_chained Hh Hfresh) as Hc.
  destruct ps as [| p0 r].
  - split; intros; [discriminate | destruct i; discriminate].
  - destruct Hc as [H0 Hr]. split.
    + intros p Hp. cbn in Hp. inversion Hp; subst. exact H0.
    + intros i p q Hp Hq. destruct i as [| i].
      * cbn in Hp, Hq. inversion Hp; subst.
        destruct r as [| y r']; [discriminate |]. cbn in Hq.
        inversion Hq; subst. apply Hr.
      * cbn in Hp. change (nth_error (p0 :: r) (S (S i))) with
          (nth_error r (S i)) in Hq.
        eapply chained_nth; eauto.
Qed.

End ChangeTokens.

(* ------------------------------------------------------------------ *)
(** ** The browser session: building packets *)
(* ------------------------------------------------------------------ *)

Section SessionPackets.

Context {E : Type} {Environment : Env E}.

Lemma built_withSessionId (a : nat) (options : ObserveOptions)
      (w w' : @World E) (p : StatePacket) (id : string) :
  built a options w w' p -> built a options w w' (withSessionId p id).
Proof. exact (fun H => H). Qed.

Lemma buildStateSnapshot_post (a : nat) (options : ObserveOptions)
      (w : @World E) :
  post (buildStateSnapshot a options) w
       (fun r w' =>
          match r with
          | Ok p => frame true false w w' /\ built a options w w' p
          | Throw _ => frame true true w w'
          end).
Proof.
  unfold buildStateSnapshot.
  apply post_bind, post_getS_cases; [| intros; apply frame_refl].
  intros s Hs. destruct (stateBuilder s) eqn:Hb;
    [| apply post_throw, frame_refl].
  apply post_bind.
  eapply post_weaken; [apply StateBuilder_build_post |].
  intros [p | msg] w' H; cbn beta iota; [| assumption].
  apply post_ret. destruct H as [F B]. split; [assumption |].
  apply built_withSessionId. assumption.
Qed.

Lemma buildStateSnapshot_frame (f : bool) (a : nat) (options : ObserveOptions) :
  preserves (@frame E f false) (buildStateSnapshot a options).
Proof.
  intros w. pose proof (buildStateSnapshot_post a options w) as H.
  unfold post in H.
  destruct (fst (buildStateSnapshot a options w)); cbn beta iota in H.
  - destruct H as [F _].
    destruct F as (A & B & C & D). unfold frame. repeat split; auto;
      apply B; reflexivity.
  - apply frame_weaken. assumption.
Qed.

End SessionPackets.

#[global] Hint Resolve buildStateSnapshot_frame : pres.

(* ------------------------------------------------------------------ *)
(** ** The policy gate of [step] *)
(* ------------------------------------------------------------------ *)

Section PolicyGate.

Context {E : Type} {Environment : Env E}.

(** The capture settings [step] uses for a session and an input. *)
Definition step_settings (s : BrowserSession) (input : ActionInput)
  : ObserveOptions :=
  normalizeCaptureSettings (p_captureProfile (params s))
    (p_maxFrames (params s)) (ai_capture input).

(** What [step] does on its way to the policy gate, the guards apart: the
    clock read of the duration guard, the clock read of [stepStart] and
    the pre-state packet. *)
Definition to_policy_gate (a : nat) (s : BrowserSession) (input : ActionInput)
  : M (Z * Z * StatePacket) :=
  t0 <- now ;;
  stepStart <- now ;;
  beforeState <- buildStateSnapshot a (step_settings s input) ;;
  ret (t0, stepStart, beforeState).

(** The session passes the guards of [step] when the clock shows [t0]. *)
Definition admits_step (s : BrowserSession) (t0 : Z) : Prop :=
  active s = true /\ page s <> None /\ actionExecutor s <> None /\
  stateBuilder s <> None /\
  stepIndex s < p_maxSteps (params s) /\
  t0 - createdAt s <=
  or_else (p_maxDurationMs (params s)) DEFAULT_MAX_DURATION_MS.

(** C1. A step that reaches the policy gate with pre-state [beforeState]
    and is denied there returns at once: status [policy_denied], error
    codes [POLICY_DENIED], recommendation [halt], the pre-state packet and
    its frame refs. After the pre-state was built only the clock is read:
    no action runs, the step index stays, no replay event is written. *)
Theorem step_policy_denied (a : nat) (input : ActionInput) (w w1 : @World E)
        (s : BrowserSession) (t0 stepStart : Z) (beforeState : StatePacket) :
  nth_error (heap w) a = Some s ->
  to_policy_gate a s input w = (Ok (t0, stepStart, beforeState), w1) ->
  admits_step s t0 ->
  allowed (shouldAllowAction (p_policy (params s)) (Some beforeState) input)
  = false ->
  exists result w',
    BrowserSession_step a input w = (Ok result, w') /\
    sr_state result = beforeState /\
    sr_frame_refs result = sp_frame_refs beforeState /\
    ar_status (action_result result) = "policy_denied" /\
    ar_success (action_result result) = false /\
    error_codes result = ["POLICY_DENIED"] /\
    next_recommendation result = "halt" /\
    w' = snd ((now ;;; now) w1) /\
    fs_logs w' = fs_logs w /\ fs_index w' = fs_index w /\
    manager w' = manager w /\
    exists s',
      nth_error (heap w') a = Some s' /\
      stepIndex s' = stepIndex s /\ active s' = active s.
Proof.
  intros Hs Hgate (Hact & Hpg & Hex & Hsb & Hidx & Hdur) Hdeny.
  unfold to_policy_gate in Hgate.
  apply bind_Ok_inv in Hgate as (t0' & wa & Hn0 & Hgate).
  apply bind_Ok_inv in Hgate as (st' & wb & Hn1 & Hgate).
  apply bind_Ok_inv in Hgate as (bs' & wc & Hb & Hgate).
  inversion Hgate; subst t0' st' bs' wc. clear Hgate.
  assert (F : frame true false w w1).
  { eapply frame_trans;
      [eapply run_frame; [apply (preserves_now true false) | exact Hn0] |].
    eapply frame_trans;
      [eapply run_frame; [apply (preserves_now true false) | exact Hn1] |].
    eapply run_frame; [apply (buildStateSnapshot_frame true) | exact Hb]. }
  unfold BrowserSession_step.
  erewrite bind_eq by (apply getS_eq; exact Hs).
  rewrite Hact.
  destruct (page s) as [pg |]; [| congruence].
  destruct (actionExecutor s) as [ex |]; [| congruence].
  destruct (stateBuilder s) as [sb |]; [| congruence].
  destruct (Z.geb_spec (stepIndex s) (p_maxSteps (params s))); [lia |].
  erewrite bind_eq by exact Hn0.
  destruct (Z.gtb_spec (t0 - createdAt s)
              (or_else (p_maxDurationMs (params s)) DEFAULT_MAX_DURATION_MS));
    [lia |].
  erewrite bind_eq by exact Hn1. cbv zeta.
  fold (step_settings s input).
  erewrite bind_eq by exact Hb.
  rewrite Hdeny. cbn [negb].
  unfold bind at 1. unfold now at 1.
  destruct (env_now (env w1)) as [t1 e1] eqn:He1.
  unfold bind at 1. unfold now at 1. cbn [env set_env].
  destruct (env_now e1) as [t2 e2] eqn:He2.
  eexists. eexists. split; [reflexivity |].
  cbn [sr_state sr_frame_refs action_result ar_status ar_success error_codes
       next_recommendation].
  repeat (split; [reflexivity |]).
  split.
  { unfold bind, now. rewrite He1. cbn [env set_env]. rewrite He2. reflexivity. }
  destruct F as (Fm & Ffs & _ & Fh).
  destruct (Ffs eq_refl) as [Fl Fi].
  cbn [fs_logs fs_index manager heap set_env].
  repeat (split; [assumption |]).
  destruct (Fh a s Hs) as (s' & Hs' & St).
  exists s'. split; [assumption |].
  destruct St as (Hctl & _). unfold ctl in Hctl.
  injection Hctl; intros. split; congruence.
Qed.

End PolicyGate.

(* ------------------------------------------------------------------ *)
(** ** Programs that cannot throw *)
(* ------------------------------------------------------------------ *)

Section Succeeds.

Context {E : Type} {Environment : Env E}.

(** Session [a] exists. *)
Definition present (a : nat) (w : @World E) : Prop :=
  exists s, nth_error (heap w) a = Some s.

(** Session [a] exists and has its capture coordinator. *)
Definition live (a : nat) (w : @World E) : Prop :=
  exists s c, nth_error (heap w) a = Some s /\ captureCoordinator s = Some c.

Lemma live_present (a : nat) (w : @World E) : live a w -> present a w.
Proof. intros (s & c & H & _). exists s. exact H. Qed.

Lemma present_frame (f t : bool) (a : nat) (w w' : @World E) :
  present a w -> frame f t w w' -> present a w'.
Proof.
  intros (s & Hs) F. destruct (frame_lookup a F Hs) as (s' & Hs' & _).
  exists s'. exact Hs'.
Qed.

Lemma live_frame (f t : bool) (a : nat) (w w' : @World E) :
  live a w -> frame f t w w' -> live a w'.
Proof.
  intros (s & c & Hs & Hc) F.
  destruct (frame_lookup a F Hs) as (s' & Hs' & St).
  destruct St as (_ & _ & _ & Hcc & _).
  destruct (captureCoordinator s') as [c' |] eqn:Hc'.
  - exists s', c'. auto.
  - assert (captureCoordinator s = None) by tauto. congruence.
Qed.

(** From a world that satisfies [P], [m] returns normally and keeps the
    frame. *)
Definition succeeds (P : @World E -> Prop) (f t : bool) {A : Type} (m : M A)
  : Prop :=
  forall w, P w -> (exists x, fst (m w) = Ok x) /\ frame f t w (snd (m w)).

Section Rules.

Variable P : @World E -> Prop.
Variables f t : bool.
Hypothesis P_frame : forall w w', P w -> frame f t w w' -> P w'.

Lemma succeeds_ret (A : Type) (x : A) : succeeds P f t (ret x).
Proof. intros w _. split; [exists x; reflexivity | apply frame_refl]. Qed.

Lemma succeeds_bind (A B : Type) (m : M A) (k : A -> M B) :
  succeeds P f t m -> (forall x, succeeds P f t (k x)) ->
  succeeds P f t (bind m k).
Proof.
  intros Hm Hk w Hw. destruct (Hm w Hw) as [[x Hx] F].
  unfold bind. destruct (m w) as [r w1]. cbn in Hx, F. subst r.
  destruct (Hk x w1 (P_frame Hw F)) as [Hy F'].
  split; [exact Hy | eapply frame_trans; eassumption].
Qed.

Lemma succeeds_swallow (A : Type) (m : M A) :
  preserves (frame f t) m -> succeeds P f t (swallow m).
Proof. intros Hm w _. split; [exists tt; reflexivity | apply Hm]. Qed.

Lemma succeeds_try_catch (A : Type) (m : M A) (h : string -> M A) :
  preserves (frame f t) m -> (forall msg, succeeds P f t (h msg)) ->
  succeeds P f t (try_catch m h).
Proof.
  intros Hm Hh w Hw. unfold try_catch. specialize (Hm w).
  destruct (m w) as [[x | msg] w1]; cbn in *.
  - split; [exists x; reflexivity | assumption].
  - destruct (Hh msg w1 (P_frame Hw Hm)) as [Hy F'].
    split; [exact Hy | eapply frame_trans; eassumption].
Qed.

Lemma succeeds_gets (A : Type) (g : @World E -> A) : succeeds P f t (gets g).
Proof. intros w _. split; [eexists; reflexivity | apply frame_refl]. Qed.

Lemma succeeds_now : succeeds P f t now.
Proof.
  intros w _. split; [| apply preserves_now].
  unfold now. destruct (env_now (env w)). eexists; reflexivity.
Qed.

Lemma succeeds_modify_metrics (g : @World E -> MetricsCollector) :
  succeeds P f t (modify (fun w => set_metrics (g w) w)).
Proof.
  intros w _. split; [exists tt; reflexivity | apply preserves_modify_metrics].
Qed.

End Rules.

Lemma succeeds_getS (f t : bool) (a : nat) : succeeds (present a) f t (getS a).
Proof.
  intros w (s & Hs). rewrite (getS_eq _ _ Hs).
  split; [eexists; reflexivity | apply frame_refl].
Qed.

Lemma succeeds_modS (f t : bool) (a : nat)
      (g : BrowserSession -> BrowserSession) :
  (forall s, stable t s (g s)) -> succeeds (present a) f t (modS a g).
Proof.
  intros Hg w (s & Hs). rewrite (modS_eq _ _ _ Hs). cbn.
  split; [eexists; reflexivity |]. eapply frame_heap_update; eauto.
Qed.

Lemma succeeds_modC (f t : bool) (a : nat)
      (g : CaptureCoordinator -> CaptureCoordinator) :
  succeeds (present a) f t (modC a g).
Proof.
  intros w Hw. split; [| apply preserves_modC].
  destruct Hw as (s & Hs). unfold modC. rewrite (modS_eq _ _ _ Hs).
  eexists; reflexivity.
Qed.

Lemma succeeds_getC (f t : bool) (a : nat) : succeeds (live a) f t (getC a).
Proof.
  intros w (s & c & Hs & Hc). split; [| apply preserves_getC].
  unfold getC. erewrite bind_eq by (apply getS_eq; exact Hs). rewrite Hc.
  eexists; reflexivity.
Qed.

Lemma succeeds_stronger (P Q : @World E -> Prop) (f t : bool) (A : Type)
      (m : M A) :
  (forall w, Q w -> P w) -> succeeds P f t m -> succeeds Q f t m.
Proof. intros H Hm w Hw. apply Hm, H, Hw. Qed.

Lemma succeeds_live (a : nat) (f t : bool) (A : Type) (m : M A) :
  succeeds (present a) f t m -> succeeds (live a) f t m.
Proof. apply succeeds_stronger. intros w. apply live_present. Qed.

End Succeeds.

(** Walks a program and shows that it returns normally. *)
Ltac succ_step :=
  lazymatch goal with
  | |- succeeds _ _ _ (bind _ _) =>
      apply succeeds_bind;
      [ first [ intros ? ? ? ?; eapply present_frame; eassumption
              | intros ? ? ? ?; eapply live_frame; eassumption ]
      | | intros ]
  | |- succeeds _ _ _ (ret _) => apply succeeds_ret
  | |- succeeds _ _ _ (swallow _) => apply succeeds_swallow; pres
  | |- succeeds _ _ _ (try_catch _ _) =>
      apply succeeds_try_catch;
      [ first [ intros ? ? ? ?; eapply present_frame; eassumption
              | intros ? ? ? ?; eapply live_frame; eassumption ]
      | pres | intros ]
  | |- succeeds _ _ _ (gets _) => apply succeeds_gets
  | |- succeeds _ _ _ now => apply succeeds_now
  | |- succeeds _ _ _ (modify (fun w => set_metrics _ w)) =>
      apply succeeds_modify_metrics
  | |- succeeds (present _) _ _ (getS _) => apply succeeds_getS
  | |- succeeds (live _) _ _ (getS _) =>
      apply succeeds_live, succeeds_getS
  | |- succeeds (live _) _ _ (getC _) => apply succeeds_getC
  | |- succeeds (present _) _ _ (modC _ _) => apply succeeds_modC
  | |- succeeds (live _) _ _ (modC _ _) =>
      apply succeeds_live, succeeds_modC
  | |- succeeds (present _) _ _ (modS _ _) =>
      apply succeeds_modS; intros; solve [stable_tac]
  | |- succeeds (live _) _ _ (modS _ _) =>
      apply succeeds_live, succeeds_modS;
      intros; solve [stable_tac]
  | |- succeeds _ _ _ (match ?x with _ => _ end) => destruct x
  end.

Ltac succ := repeat (cbv zeta; succ_step).

Section TeardownFacts.

Context {E : Type} {Environment : Env E}.

Lemma CaptureCoordinator_stop_succeeds (f t : bool) (a : nat) :
  succeeds (live a) f t (CaptureCoordinator_stop a).
Proof. unfold CaptureCoordinator_stop. succ. Qed.

End TeardownFacts.

Section StopFacts.

Context {E : Type} {Environment : Env E}.

Lemma post_succeeds (P : @World E -> Prop) (f t : bool) (A : Type) (m : M A)
      (w : @World E) (Q : Res A -> @World E -> Prop) :
  succeeds P f t m -> P w ->
  (forall x w', frame f t w w' -> Q (Ok x) w') ->
  post m w Q.
Proof.
  intros Hm Hw HQ. unfold post. destruct (Hm w Hw) as [[x Hx] F].
  rewrite Hx. apply HQ. exact F.
Qed.

Lemma list_set_same (A : Type) (xs : list A) : forall (i : nat) (x : A),
  nth_error xs i = Some x -> list_set i x xs = xs.
Proof.
  induction xs as [| y xs IH]; intros [| i] x H; cbn in *;
    try discriminate; try congruence.
  f_equal. apply IH. assumption.
Qed.

(** The world in which session [a] has just been marked inactive. *)
Definition deactivated (a : nat) (s : BrowserSession) (w : @World E)
  : @World E :=
  set_heap (list_set a (set_active false s) (heap w)) w.

Lemma deactivated_inactive (a : nat) (s : BrowserSession) (w : @World E) :
  nth_error (heap w) a = Some s -> active s = false -> deactivated a s w = w.
Proof.
  intros Hs Ha. unfold deactivated.
  replace (set_active false s) with s
    by (destruct s; cbn in *; subst; reflexivity).
  rewrite (list_set_same _ _ Hs). destruct w; reflexivity.
Qed.

Lemma deactivated_present (a : nat) (s : BrowserSession) (w : @World E) :
  nth_error (heap w) a = Some s -> present a (deactivated a s w).
Proof.
  intros Hs. exists (set_active false s). cbn.
  eapply nth_error_list_set_eq. eassumption.
Qed.

Lemma post_bind_succeeds (P : @World E -> Prop) (f t : bool) (A B : Type)
      (m : M A) (k : A -> M B) (w : @World E)
      (Q : Res B -> @World E -> Prop) :
  succeeds P f t m -> P w ->
  (forall x w1, frame f t w w1 -> post (k x) w1 Q) ->
  post (bind m k) w Q.
Proof.
  intros Hm Hw Hk. apply post_bind.
  eapply post_succeeds; [exact Hm | exact Hw |]. exact Hk.
Qed.

(** What [stop] returns and what it leaves behind: from the world in
    which the session is marked inactive, only handlers, awaited calls and
    the trace files have moved. [stop] never throws. *)
Lemma BrowserSession_stop_post (a : nat) (preserveArtifacts : bool)
      (w : @World E) (s : BrowserSession) :
  nth_error (heap w) a = Some s ->
  post (BrowserSession_stop a preserveArtifacts) w
       (fun r w' =>
          frame false true (deactivated a s w) w' /\
          exists res,
            r = Ok res /\ sessionId res = bs_id s /\
            tracePath res = buildTracePath (p_traceId (params s)) /\
            if active s
            then status res = "stopped" /\
                 cleanup res =
                 (if preserveArtifacts then "retained" else "cleaned")
            else status res = "already_stopped" /\ cleanup res = "noop" /\
                 w' = w).
Proof.
  intros Hs. unfold BrowserSession_stop.
  apply post_bind. eapply post_getS; [exact Hs |]. cbv zeta.
  destruct (active s) eqn:Hact; cbn [negb].
  2:{ apply post_ret. rewrite deactivated_inactive by assumption.
      split; [apply frame_refl |]. eexists. split; [reflexivity |].
      cbn. auto. }
  apply post_bind. eapply post_modS; [exact Hs |].
  fold (deactivated a s w).
  assert (Hp : present a (deactivated a s w))
    by (apply deactivated_present; exact Hs).
  eapply post_bind_succeeds
    with (P := fun w0 => present a w0 /\
                         (captureCoordinator s <> None -> live a w0))
         (f := false) (t := true).
  { destruct (captureCoordinator s) as [c |] eqn:Hcc.
    - eapply succeeds_stronger; [| apply CaptureCoordinator_stop_succeeds].
      intros w0 [_ H]. apply H. discriminate.
    - apply succeeds_ret. }
  { split; [exact Hp |]. intros Hc.
    destruct (captureCoordinator s) as [c |] eqn:Hcc; [| congruence].
    exists (set_active false s), c. split; [| exact Hcc].
    cbn. eapply nth_error_list_set_eq. eassumption. }
  intros _ w1 F1.
  eapply post_bind_succeeds with (P := present a) (f := false) (t := true);
    [succ | eapply present_frame; eassumption |].
  intros _ w2 F2. pose proof (frame_trans F1 F2) as F12.
  eapply post_bind_succeeds with (P := present a) (f := false) (t := true);
    [succ | eapply present_frame; eassumption |].
  intros _ w3 F3. pose proof (frame_trans F12 F3) as F13.
  eapply post_bind_succeeds with (P := present a) (f := false) (t := true);
    [succ | eapply present_frame; eassumption |].
  intros _ w4 F4. pose proof (frame_trans F13 F4) as F14.
  eapply post_bind_succeeds with (P := present a) (f := false) (t := true);
    [succ | eapply present_frame; eassumption |].
  intros _ w5 F5. pose proof (frame_trans F14 F5) as F15.
  eapply post_bind_succeeds with (P := present a) (f := false) (t := true);
    [succ | eapply present_frame; eassumption |].
  intros _ w6 F6. pose proof (frame_trans F15 F6) as F16.
  apply post_ret. split; [exact F16 |].
  eexists. split; [reflexivity |]. cbn. auto.
Qed.

End StopFacts.

(* ------------------------------------------------------------------ *)
(** ** A stopped session *)
(* ------------------------------------------------------------------ *)

Section StoppedSession.

Context {E : Type} {Environment : Env E}.

Lemma stable_deactivated_inactive (s s' : BrowserSession) :
  stable true (set_active false s) s' -> active s' = false.
Proof.
  intros (Hctl & _). unfold ctl in Hctl. cbn in Hctl.
  injection Hctl; intros; assumption.
Qed.

(** After [stop] the session is inactive, whatever it was before. *)
Lemma stop_deactivates (a : nat) (preserveArtifacts : bool) (w w' : @World E)
      (s : BrowserSession) (r : Res StopResult) :
  nth_error (heap w) a = Some s ->
  BrowserSession_stop a preserveArtifacts w = (r, w') ->
  manager w' = manager w /\
  exists res s',
    r = Ok res /\ nth_error (heap w') a = Some s' /\ active s' = false /\
    params s' = params s /\ bs_id s' = bs_id s.
Proof.
  intros Hs Hrun.
  pose proof (BrowserSession_stop_post a preserveArtifacts w Hs) as H.
  unfold post in H. rewrite Hrun in H. cbn [fst snd] in H.
  destruct H as [F (res & Hr & _)].
  split; [apply F |].
  destruct (frame_lookup a F (s := set_active false s)) as (s' & Hs' & St).
  { cbn. eapply nth_error_list_set_eq. eassumption. }
  exists res, s'. repeat split; try assumption.
  - eapply stable_deactivated_inactive. eassumption.
  - destruct St as (Hctl & _). unfold ctl in Hctl. cbn in Hctl.
    injection Hctl; intros; assumption.
  - destruct St as (Hctl & _). unfold ctl in Hctl. cbn in Hctl.
    injection Hctl; intros; assumption.
Qed.

(** [stop] on a session that is not active: the no-op result, and the
    world is untouched. *)
Lemma stop_inactive_noop (a : nat) (preserveArtifacts : bool) (w : @World E)
      (s : BrowserSession) :
  nth_error (heap w) a = Some s -> active s = false ->
  BrowserSession_stop a preserveArtifacts w =
  (Ok (mkStopResult "already_stopped" "noop"
         (buildTracePath (p_traceId (params s))) (bs_id s)), w).
Proof.
  intros Hs Ha. unfold BrowserSession_stop.
  erewrite bind_eq by (apply getS_eq; exact Hs).
  rewrite Ha. reflexivity.
Qed.

(** [step] on a session that is not active throws and changes nothing. *)
Lemma step_inactive_rejected (a : nat) (input : ActionInput) (w : @World E)
      (s : BrowserSession) :
  nth_error (heap w) a = Some s -> active s = false ->
  BrowserSession_step a input w = (Throw "session is not active", w).
Proof.
  intros Hs Ha. unfold BrowserSession_step.
  erewrite bind_eq by (apply getS_eq; exact Hs).
  rewrite Ha. reflexivity.
Qed.

(** The part of C3 that the code keeps: once a session has been stopped, a
    further [stop] is the no-op result and leaves the world as it is, and
    [step] is rejected with [session is not active]. *)
Lemma stopped_session_stop_and_step (a : nat) (p1 p2 : bool)
      (input : ActionInput) (w w1 : @World E) (s : BrowserSession)
      (r : Res StopResult) :
  nth_error (heap w) a = Some s ->
  BrowserSession_stop a p1 w = (r, w1) ->
  BrowserSession_stop a p2 w1 =
  (Ok (mkStopResult "already_stopped" "noop"
         (buildTracePath (p_traceId (params s))) (bs_id s)), w1) /\
  BrowserSession_step a input w1 = (Throw "session is not active", w1).
Proof.
  intros Hs Hrun.
  eapply stop_deactivates in Hrun; [| exact Hs].
  destruct Hrun as (_ & res & s' & _ & Hs' & Ha & Hp & Hi).
  split.
  - erewrite stop_inactive_noop by eassumption. rewrite Hp, Hi. reflexivity.
  - eapply step_inactive_rejected; eassumption.
Qed.

End StoppedSession.

(* ------------------------------------------------------------------ *)
(** ** The session manager: removing a session *)
(* ------------------------------------------------------------------ *)

Section JsMapFacts.

Variable V : Type.

Lemma get_set_other (k k' : string) (v : V) (m : JsMap.t V) :
  k <> k' -> JsMap.get k' (JsMap.set k v m) = JsMap.get k' m.
Proof.
  intros Hne. induction m as [| [k0 v0] r IH]; cbn.
  - destruct (String.eqb_spec k' k); [congruence | reflexivity].
  - destruct (String.eqb_spec k k0) as [<- | Hk]; cbn.
    + destruct (String.eqb_spec k' k); [congruence | reflexivity].
    + rewrite IH. reflexivity.
Qed.

Lemma get_delete_same (k : string) (m : JsMap.t V) :
  JsMap.get k (JsMap.delete k m) = None.
Proof.
  unfold JsMap.delete.
  induction m as [| [k' v] m IH]; cbn; [reflexivity |].
  destruct (String.eqb k k') eqn:Hk; cbn; [assumption |].
  rewrite Hk. assumption.
Qed.


Lemma get_In_keys (k : string) (m : JsMap.t V) (v : V) :
  JsMap.get k m = Some v -> In k (JsMap.keys m).
Proof.
  induction m as [| [k' v'] m IH]; cbn; [discriminate |].
  destruct (String.eqb k k') eqn:Hk.
  - apply String.eqb_eq in Hk. auto.
  - auto.
Qed.

End JsMapFacts.

Section ManagerStop.

Context {E : Type} {Environment : Env E}.

(** The manager without the entries of one session. *)
Definition forget (sessionId : string) (m : SessionManager) : SessionManager :=
  set_created (JsMap.delete sessionId (created m))
    (set_sessions (JsMap.delete sessionId (sessions m)) m).

Lemma SessionManager_stop_unknown (sessionId : string) (p : bool)
      (w : @World E) :
  JsMap.get sessionId (sessions (manager w)) = None ->
  SessionManager_stop sessionId p w = (Ok tt, w).
Proof.
  intros H. unfold SessionManager_stop, SessionManager_get, bind, gets.
  rewrite H. reflexivity.
Qed.

(** [SessionManager.stop] on a known id: the session's own [stop], then
    both entries are deleted. It never throws. *)
Lemma SessionManager_stop_known (sessionId : string) (p : bool)
      (w : @World E) (a : nat) (s : BrowserSession) :
  JsMap.get sessionId (sessions (manager w)) = Some a ->
  nth_error (heap w) a = Some s ->
  exists res w1,
    BrowserSession_stop a p w = (Ok res, w1) /\
    manager w1 = manager w /\
    SessionManager_stop sessionId p w =
    (Ok tt, set_manager (forget sessionId (manager w)) w1).
Proof.
  intros Hget Hs.
  destruct (BrowserSession_stop a p w) as [r w1] eqn:Hrun.
  pose proof Hrun as Hd. eapply stop_deactivates in Hd; [| exact Hs].
  destruct Hd as (Hm & res & s' & Hr & _). subst r.
  exists res, w1. split; [reflexivity |]. split; [assumption |].
  unfold SessionManager_stop, SessionManager_get.
  unfold bind at 1. unfold gets at 1. rewrite Hget.
  erewrite bind_eq by exact Hrun.
  unfold modify, forget. rewrite Hm. reflexivity.
Qed.

End ManagerStop.

(* ------------------------------------------------------------------ *)
(** ** The stop tool *)
(* ------------------------------------------------------------------ *)

Section StopTool.

Context {E : Type} {Environment : Env E}.


End StopTool.

(* ------------------------------------------------------------------ *)
(** ** Admission: eviction comes before validation *)
(* ------------------------------------------------------------------ *)

Section Admission.

Context {E : Type} {Environment : Env E}.

(** The message [create] throws for a URL that fails validation. *)
Definition validation_message (v : ValidationResult) : string :=
  join "; " (map (fun item => code item +:+ ":" +:+ message item) (errors v)).

(** C8. With the pool at its limit, [create] for a [target_url] that fails
    URL validation still stops the oldest session and removes it from the
    manager; the call then throws, in the very world the eviction left. *)
Theorem create_evicts_then_rejects (input : SessionCreateInput)
        (w : @World E) (oldest : string) (a : nat) (s : BrowserSession) :
  JsMap.size (sessions (manager w)) >= maxSessions (manager w) ->
  getOldestSessionId (manager w) = Some oldest ->
  oldest <> EmptyString ->
  JsMap.get oldest (sessions (manager w)) = Some a ->
  nth_error (heap w) a = Some s ->
  ok (validateUrl env_parseURL (target_url input)
        (Some (allowedDomains (manager w)))
        (Some (deniedDomains (manager w)))) = false ->
  exists w',
    SessionManager_create input w =
    (Throw (validation_message
              (validateUrl env_parseURL (target_url input)
                 (Some (allowedDomains (manager w)))
                 (Some (deniedDomains (manager w))))), w') /\
    w' = snd (SessionManager_stop oldest false w) /\
    JsMap.get oldest (sessions (manager w')) = None /\
    JsMap.get oldest (created (manager w')) = None /\
    exists s', nth_error (heap w') a = Some s' /\ active s' = false.
Proof.
  intros Hfull Hold Hne Hget Hs Hbad.
  destruct (@SessionManager_stop_known E Environment oldest false w a s Hget Hs)
    as (res & w1 & Hstop & Hm & Hmstop).
  exists (set_manager (forget oldest (manager w)) w1).
  split.
  - unfold SessionManager_create.
    unfold bind at 1. unfold gets at 1.
    destruct (Z.geb_spec (JsMap.size (sessions (manager w)))
                         (maxSessions (manager w))); [| lia].
    rewrite Hold.
    destruct oldest as [| c r]; [congruence |]. cbn [truthy].
    erewrite bind_eq by exact Hmstop.
    rewrite Hbad. reflexivity.
  - rewrite Hmstop. cbn [snd]. split; [reflexivity |].
    cbn. split; [apply get_delete_same |]. split; [apply get_delete_same |].
    eapply stop_deactivates in Hstop; [| exact Hs].
    destruct Hstop as (_ & _ & s' & _ & Hs' & Ha & _). eauto.
Qed.

End Admission.

(* ------------------------------------------------------------------ *)
(** ** The synthetic action event *)
(* ------------------------------------------------------------------ *)

Section ActionEvent.

Context {E : Type} {Environment : Env E}.

(** The network ring of session [a] holds at least one event. *)
Definition ring_nonempty (a : nat) (w : @World E) : Prop :=
  exists s, nth_error (heap w) a = Some s /\ networkEvents s <> [].

Lemma ring_nonempty_frame (f t : bool) (a : nat) (w w' : @World E) :
  ring_nonempty a w -> frame f t w w' -> ring_nonempty a w'.
Proof.
  intros (s & Hs & Hn) F. destruct (frame_lookup a F Hs) as (s' & Hs' & St).
  exists s'. split; [assumption |].
  destruct St as (_ & _ & _ & _ & Hk). auto.
Qed.

Lemma recordActionEvent_post (a : nat) (pg : Handle) (input : ActionInput)
      (result : option DispatchResult) (success : bool)
      (detail : option string) (w : @World E) :
  present a w ->
  post (recordActionEvent a pg input result success detail) w
       (fun r w' => r = Ok tt /\ frame true true w w' /\ ring_nonempty a w').
Proof.
  intros (s & Hs). unfold recordActionEvent.
  apply post_bind, post_now. intros t1 e1.
  apply post_bind, post_gets.
  apply post_bind, post_now. intros t2 e2.
  eapply post_modS; [cbn; exact Hs |].
  split; [reflexivity |]. split.
  - unfold frame; cbn. repeat split; auto.
    + apply length_list_set.
    + intros b sb Hb. destruct (Nat.eq_dec a b) as [-> | Hne].
      * erewrite nth_error_list_set_eq by eassumption.
        eexists. split; [reflexivity |].
        assert (sb = s) by congruence. subst sb. stable_tac.
      * rewrite nth_error_list_set_neq by assumption.
        exists sb. split; [assumption | apply stable_refl].
  - eexists. split; [cbn; eapply nth_error_list_set_eq; eassumption |].
    cbn. apply trim_ring_nonempty. lia.
Qed.

(** An action that reaches the executor's dispatch leaves an event in the
    network ring, whether the dispatch resolved, rejected or timed out. *)
Lemma execute_leaves_event (a : nat) (pg : Handle) (input : ActionInput)
      (w : @World E) :
  present a w ->
  or_else (ai_max_actions_per_step input) 1 = 1 ->
  post (ActionExecutor_execute a pg input) w
       (fun r w' =>
          (exists ar, r = Ok ar) /\ frame true true w w' /\ ring_nonempty a w').
Proof.
  intros Hp Hmax. unfold ActionExecutor_execute. cbv zeta.
  apply post_bind, post_now. intros start e0.
  rewrite Hmax. cbn [Z.ltb Z.gtb Z.compare Pos.compare Pos.compare_cont orb].
  assert (Hp0 : present a (set_env e0 w)) by exact Hp.
  assert (F0 : frame true true w (set_env e0 w))
    by (apply frame_same_heap; auto).
  apply post_try_catch. apply post_bind.
  apply (post_frame (R := frame true true));
    [apply withTimeout_frame, dispatch_frame |].
  intros r1 w1 F1.
  assert (Hp1 : present a w1) by (eapply present_frame; eassumption).
  destruct r1 as [result | msg].
  - apply post_bind.
    eapply post_weaken; [apply recordActionEvent_post; exact Hp1 |].
    intros r2 w2 (Hr2 & F2 & Hn2). subst r2.
    apply post_bind, post_gets.
    apply post_bind, post_now. intros t e. apply post_ret.
    split; [eexists; reflexivity |]. split.
    + eapply frame_trans; [exact F0 |]. eapply frame_trans; [exact F1 |].
      eapply frame_trans; [exact F2 |]. apply frame_same_heap; auto.
    + exact Hn2.
  - apply post_bind.
    eapply post_weaken; [apply recordActionEvent_post; exact Hp1 |].
    intros r2 w2 (Hr2 & F2 & Hn2). subst r2.
    apply post_bind, post_now. intros t e. apply post_ret.
    split; [eexists; reflexivity |]. split.
    + eapply frame_trans; [exact F0 |]. eapply frame_trans; [exact F1 |].
      eapply frame_trans; [exact F2 |]. apply frame_same_heap; auto.
    + exact Hn2.
Qed.

End ActionEvent.

Section NetworkEventCode.

Context {E : Type} {Environment : Env E}.

Lemma post_run (A : Type) (m : M A) (w w' : @World E) (r : Res A)
      (Q : Res A -> @World E -> Prop) :
  m w = (r, w') -> post m w Q -> Q r w'.
Proof. intros Hm H. unfold post in H. rewrite Hm in H. exact H. Qed.

(** C9. A step whose action reaches the executor's dispatch (it was not
    denied by the policy, and [max_actions_per_step] is 1 or absent) and
    whose capture settings include the network: the post-state lists at
    least one network event, and [NO_NETWORK_EVENT] is not among the
    step's error codes. *)
Theorem step_has_network_event (a : nat) (input : ActionInput)
        (w w' : @World E) (s : BrowserSession) (result : StepResult) :
  nth_error (heap w) a = Some s ->
  BrowserSession_step a input w = (Ok result, w') ->
  ar_status (action_result result) <> "policy_denied" ->
  or_else (ai_max_actions_per_step input) 1 = 1 ->
  includeNetwork (step_settings s input) = true ->
  network_events (sr_state result) <> [] /\
  ~ In "NO_NETWORK_EVENT" (error_codes result).
Proof.
  intros Hs Hrun Hnot Hmax Hnet.
  unfold BrowserSession_step in Hrun.
  erewrite bind_eq in Hrun by (apply getS_eq; exact Hs).
  destruct (active s); [| discriminate].
  destruct (page s) as [pg |]; [| discriminate].
  destruct (actionExecutor s) as [executor |]; [| discriminate].
  destruct (stateBuilder s) as [sb |]; [| discriminate].
  destruct (stepIndex s >=? p_maxSteps (params s)); [discriminate |].
  apply bind_Ok_inv in Hrun as (t0 & w0 & Hn0 & Hrun).
  destruct (t0 - createdAt s >?
            or_else (p_maxDurationMs (params s)) DEFAULT_MAX_DURATION_MS);
    [discriminate |].
  apply bind_Ok_inv in Hrun as (stepStart & w1 & Hn1 & Hrun).
  cbv zeta in Hrun. fold (step_settings s input) in Hrun.
  apply bind_Ok_inv in Hrun as (beforeState & w2 & Hb & Hrun).
  destruct (allowed (shouldAllowAction (p_policy (params s))
                       (Some beforeState) input)); cbn [negb] in Hrun.
  2:{ apply bind_Ok_inv in Hrun as (t1 & wa & _ & Hrun).
      apply bind_Ok_inv in Hrun as (t2 & wb & _ & Hrun).
      inversion Hrun; subst. cbn in Hnot. congruence. }
  assert (F2 : frame true false w w2).
  { eapply frame_trans;
      [eapply run_frame; [apply (preserves_now true false) | exact Hn0] |].
    eapply frame_trans;
      [eapply run_frame; [apply (preserves_now true false) | exact Hn1] |].
    eapply run_frame; [apply (buildStateSnapshot_frame true) | exact Hb]. }
  assert (Hp2 : present a w2).
  { eapply present_frame; [| exact F2]. exists s. exact Hs. }
  apply bind_Ok_inv in Hrun as (actionResult & w3 & Hex & Hrun).
  pose proof (@execute_leaves_event E Environment a executor input w2 Hp2 Hmax)
    as Hpe.
  unfold post in Hpe. rewrite Hex in Hpe. cbn [fst snd] in Hpe.
  destruct Hpe as (_ & F3 & Hr3).
  apply bind_Ok_inv in Hrun as (u1 & w4 & Hmet & Hrun).
  assert (F4 : frame true true w3 w4).
  { eapply run_frame; [| exact Hmet].
    destruct (negb (ar_success actionResult)); pres. }
  apply bind_Ok_inv in Hrun as (u2 & w5 & Hsig & Hrun).
  assert (F5 : frame true true w4 w5).
  { eapply run_frame; [| exact Hsig].
    destruct (AgentAction_eqb (ai_action input) wait_for
              || AgentAction_eqb (ai_action input) wait)%bool; pres. }
  assert (Hr5 : ring_nonempty a w5).
  { eapply ring_nonempty_frame; [| exact F5].
    eapply ring_nonempty_frame; [| exact F4]. exact Hr3. }
  apply bind_Ok_inv in Hrun as (state & w6 & Hpost & Hrun).
  pose proof (@buildStateSnapshot_post E Environment a
                (step_settings s input) w5) as Hbuilt.
  unfold post in Hbuilt. rewrite Hpost in Hbuilt. cbn [fst snd] in Hbuilt.
  destruct Hbuilt as (_ & Hbuilt).
  destruct Hbuilt as (s5 & b5 & s6 & Hs5 & _ & _ & _ & _ & _ & Hne).
  assert (Hstate : network_events state <> []).
  { apply Hne; [exact Hnet |].
    destruct Hr5 as (s5' & Hs5' & Hn5). congruence. }
  apply bind_Ok_inv in Hrun as (t3 & w7 & _ & Hrun). cbv zeta in Hrun.
  apply bind_Ok_inv in Hrun as (u3 & w8 & _ & Hrun).
  apply bind_Ok_inv in Hrun as (t4 & w9 & _ & Hrun).
  apply bind_Ok_inv in Hrun as (u4 & w10 & _ & Hrun).
  apply bind_Ok_inv in Hrun as (u5 & w11 & _ & Hrun).
  apply bind_Ok_inv in Hrun as (u6 & w12 & _ & Hrun).
  inversion Hrun; subst result w12. clear Hrun.
  cbn [sr_state error_codes].
  split; [exact Hstate |].
  destruct (network_events state) as [| ev evs]; [congruence |].
  cbn [List.length Nat.eqb]. rewrite app_nil_r.
  destruct (ar_success actionResult); cbn; intros H.
  - exact H.
  - destruct H as [H | H]; [discriminate | exact H].
Qed.

End NetworkEventCode.

(* ------------------------------------------------------------------ *)
(** ** The replay log *)
(* ------------------------------------------------------------------ *)

(** A log as the session writes it: every event is appended with the
    index [loaded_events.length + 1]. *)
Inductive session_written : list Line -> Prop :=
| written_empty : session_written []
| written_append (ls : list Line) (type : ReplayEventType) (at_ : Z)
                 (payload : ReplayPayload) :
    session_written ls ->
    session_written
      (ls ++ [LineEvent
                (mkReplayEvent type
                   (Z.of_nat (List.length (parse_lines ls)) + 1) at_ payload)]).

(** The events of a list carry the indices [k], [k+1], ... in order. *)
Fixpoint consecutive (k : Z) (events : list ReplayEvent) : Prop :=
  match events with
  | [] => True
  | e :: r => re_index e = k /\ consecutive (k + 1) r
  end.

Lemma parse_lines_app (xs ys : list Line) :
  parse_lines (xs ++ ys) = parse_lines xs ++ parse_lines ys.
Proof. unfold parse_lines. rewrite flat_map_app. reflexivity. Qed.

Lemma consecutive_snoc (events : list ReplayEvent) : forall (k : Z)
    (e : ReplayEvent),
  consecutive k events -> re_index e = k + Z.of_nat (List.length events) ->
  consecutive k (events ++ [e]).
Proof.
  induction events as [| x r IH]; intros k e Hc He; cbn in *.
  - split; [lia | exact I].
  - destruct Hc as [Hx Hr]. split; [assumption |].
    apply IH; [assumption | lia].
Qed.

(** Indices written by the session are dense and start at 1. *)
Lemma session_written_consecutive (ls : list Line) :
  session_written ls -> consecutive 1 (parse_lines ls).
Proof.
  induction 1 as [| ls type at_ payload Hw IH]; [exact I |].
  rewrite parse_lines_app. cbn [parse_lines flat_map app].
  apply consecutive_snoc; [assumption |]. cbn [re_index]. lia.
Qed.

(** The bounds of [filter] as a predicate on indices. *)
Definition within (start end_ : option Z) (i : Z) : Prop :=
  (forall s, start = Some s -> s <= i) /\ (forall e, end_ = Some e -> i <= e).

Lemma in_range_within (start end_ : option Z) (event : ReplayEvent) :
  in_range start end_ event = true <-> within start end_ (re_index event).
Proof.
  unfold in_range, within.
  destruct start as [s |], end_ as [e |];
    repeat match goal with
           | |- context [?x <? ?y] => destruct (Z.ltb_spec x y)
           | |- context [?x >? ?y] => destruct (Z.gtb_spec x y)
           end;
    split; intros Hw; try discriminate; try reflexivity;
    try (split; intros ? Heq; inversion Heq; subst; lia);
    try (destruct Hw as [Hw1 Hw2];
         try specialize (Hw1 _ eq_refl); try specialize (Hw2 _ eq_refl); lia).
Qed.

(** On consecutive indices the filter cuts out one contiguous run. *)
Lemma filter_consecutive (events : list ReplayEvent) : forall (k lo hi : Z),
  consecutive k events ->
  filter (fun e => (lo <=? re_index e) && (re_index e <=? hi))%bool events =
  firstn (Z.to_nat (hi - Z.max lo k + 1)) (skipn (Z.to_nat (lo - k)) events).
Proof.
  induction events as [| e r IH]; intros k lo hi Hc.
  - rewrite skipn_nil, firstn_nil. reflexivity.
  - destruct Hc as [He Hr]. cbn [filter]. rewrite He.
    specialize (IH (k + 1) lo hi Hr).
    destruct (Z.leb_spec lo k) as [Hlo | Hlo]; cbn [andb].
    + replace (Z.to_nat (lo - k)) with O by lia. cbn [skipn].
      replace (Z.to_nat (lo - (k + 1))) with O in IH by lia. cbn [skipn] in IH.
      destruct (Z.leb_spec k hi) as [Hhi | Hhi].
      * replace (Z.to_nat (hi - Z.max lo k + 1))
          with (S (Z.to_nat (hi - Z.max lo (k + 1) + 1))) by lia.
        cbn [firstn]. rewrite IH. reflexivity.
      * replace (Z.to_nat (hi - Z.max lo k + 1)) with O by lia.
        replace (Z.to_nat (hi - Z.max lo (k + 1) + 1)) with O in IH by lia.
        cbn [firstn] in *. exact IH.
    + replace (Z.to_nat (lo - k)) with (S (Z.to_nat (lo - (k + 1)))) by lia.
      cbn [skipn]. rewrite IH.
      replace (Z.max lo (k + 1)) with (Z.max lo k) by lia. reflexivity.
Qed.

Lemma consecutive_bounds (events : list ReplayEvent) : forall (k : Z)
    (e : ReplayEvent),
  consecutive k events -> In e events ->
  k <= re_index e <= k + Z.of_nat (List.length events) - 1.
Proof.
  induction events as [| x r IH]; intros k e Hc Hin; [destruct Hin |].
  destruct Hc as [Hx Hr]. cbn [List.length]. destruct Hin as [-> | Hin].
  - lia.
  - specialize (IH _ _ Hr Hin). lia.
Qed.

(** The lower and upper index a filter with optional bounds selects from
    a log of [n] events. *)
Definition low_bound (start : option Z) : Z :=
  match start with Some s => Z.max 1 s | None => 1 end.

Definition high_bound (end_ : option Z) (n : Z) : Z :=
  match end_ with Some e => Z.min n e | None => n end.

Lemma filter_session_events (events : list ReplayEvent) (start end_ : option Z) :
  consecutive 1 events ->
  filter (in_range start end_) events =
  firstn (Z.to_nat (high_bound end_ (Z.of_nat (List.length events))
                    - low_bound start + 1))
         (skipn (Z.to_nat (low_bound start - 1)) events).
Proof.
  intros Hc.
  transitivity
    (filter (fun e =>
               (low_bound start <=? re_index e)
               && (re_index e <=?
                   high_bound end_ (Z.of_nat (List.length events))))%bool
            events).
  - apply filter_ext_in. intros e Hin.
    pose proof (@consecutive_bounds events 1 e Hc Hin) as Hb.
    unfold in_range, low_bound, high_bound.
    destruct start as [s |], end_ as [x |];
      repeat match goal with
             | |- context [?a <? ?b] => destruct (Z.ltb_spec a b)
             | |- context [?a >? ?b] => destruct (Z.gtb_spec a b)
             | |- context [?a <=? ?b] => destruct (Z.leb_spec a b)
             end; cbn; try reflexivity; lia.
  - rewrite (@filter_consecutive events 1 (low_bound start)
               (high_bound end_ (Z.of_nat (List.length events))) Hc).
    replace (Z.max (low_bound start) 1) with (low_bound start)
      by (unfold low_bound; destruct start; lia).
    reflexivity.
Qed.

Section ReplayRuns.

Context {E : Type} {Environment : Env E}.

(** The lines of the log of a trace, none when the file is missing. *)
Definition log_of (traceId : string) (w : @World E) : list Line :=
  or_else (JsMap.get (buildTracePath traceId) (fs_logs w)) [].

(** The awaited call [c] resolves in the environment of [w]. *)
Definition resolves {A : Type} (c : ExtCall A) (w : @World E) : Prop :=
  exists x, fst (env_await c (env w)) = inr x.

Lemma await_resolves (A : Type) (c : ExtCall A) (w : @World E) :
  resolves c w ->
  exists x w', await c w = (Ok x, w') /\ frame true true w w'.
Proof.
  intros (x & Hx).
  pose proof (await_frame true true c w) as F.
  unfold await in *. destruct (env_await c (env w)) as [r e].
  cbn in Hx. subst r.
  destruct (yield (set_env e w)) as [u w']. cbn in F. eauto.
Qed.

(** [load] of a readable log returns its parsable events and leaves the
    files alone. *)
Lemma load_readable (traceId : string) (w : @World E) :
  resolves (FsReadFile (buildTracePath traceId)) w ->
  exists manifest w',
    ReplayStore_load traceId w = (Ok manifest, w') /\
    rm_events manifest = parse_lines (log_of traceId w) /\
    frame true true w w'.
Proof.
  intros Hr. destruct (@await_resolves _ _ w Hr) as (x & w1 & Hrun & F).
  unfold ReplayStore_load. cbv zeta.
  unfold bind at 1. unfold try_catch.
  erewrite bind_eq by exact Hrun.
  unfold gets.
  assert (Hlog : fs_logs w1 = fs_logs w) by (apply F; reflexivity).
  rewrite Hlog. fold (log_of traceId w).
  destruct (parse_lines (log_of traceId w)) as [| first rest] eqn:Hp.
  - unfold bind, now. destruct (env_now (env w1)) as [t e]. cbn.
    eexists. eexists. split; [reflexivity |]. split; [reflexivity |].
    eapply frame_trans; [exact F |]. apply frame_same_heap; auto.
  - eexists. eexists. split; [reflexivity |]. split; [reflexivity |].
    exact F.
Qed.

(** C5. For a trace that the session wrote (each event appended with the
    index [loaded_events.length + 1], so that the indices are 1, 2, ... in
    append order) and whose log can be read, [filter] returns exactly the
    events whose index lies within the optional inclusive bounds: that is
    the contiguous run of the log from index [max 1 start] to index
    [min n end], in the order of the log. *)
Theorem filter_session_trace (traceId : string) (start end_ : option Z)
        (w : @World E) :
  session_written (log_of traceId w) ->
  resolves (FsReadFile (buildTracePath traceId)) w ->
  exists selected w',
    ReplayStore_filter traceId start end_ w = (Ok selected, w') /\
    (forall e, In e selected <->
               In e (parse_lines (log_of traceId w)) /\
               within start end_ (re_index e)) /\
    selected =
      firstn (Z.to_nat
                (high_bound end_
                   (Z.of_nat (List.length (parse_lines (log_of traceId w))))
                 - low_bound start + 1))
             (skipn (Z.to_nat (low_bound start - 1))
                    (parse_lines (log_of traceId w))) /\
    fs_logs w' = fs_logs w.
Proof.
  intros Hw Hr.
  destruct (@load_readable traceId w Hr) as (manifest & w' & Hload & Hev & F).
  exists (filter (in_range start end_) (parse_lines (log_of traceId w))), w'.
  assert (Hc : consecutive 1 (parse_lines (log_of traceId w)))
    by (apply session_written_consecutive; exact Hw).
  split.
  { unfold ReplayStore_filter. erewrite bind_eq by exact Hload.
    rewrite Hev. reflexivity. }
  split.
  { intros e. rewrite filter_In, in_range_within. reflexivity. }
  split; [apply filter_session_events; exact Hc |].
  apply F; reflexivity.
Qed.

(** *** The session's appends keep the log in that shape *)

Lemma get_set_same (V : Type) (k : string) (v : V) (m : JsMap.t V) :
  JsMap.get k (JsMap.set k v m) = Some v.
Proof.
  induction m as [| [k' v'] m IH]; cbn.
  - rewrite String.eqb_refl. reflexivity.
  - destruct (String.eqb k k') eqn:Hk; cbn; rewrite Hk; auto.
Qed.

Lemma persistTraceIndex_keeps_logs (traceId : string)
      (events : list ReplayEvent) (w : @World E) :
  post (ReplayStore_persistTraceIndex traceId events) w
       (fun _ w' => fs_logs w' = fs_logs w).
Proof.
  unfold ReplayStore_persistTraceIndex. cbv zeta.
  apply post_bind. apply (post_frame (R := frame true true)); [pres |].
  intros r1 w1 F1. assert (H1 : fs_logs w1 = fs_logs w) by (apply F1; reflexivity).
  destruct r1; [| assumption].
  apply post_bind, post_now. intros t e.
  apply post_bind. apply (post_frame (R := frame true true)); [pres |].
  intros r2 w2 F2.
  assert (H2 : fs_logs w2 = fs_logs w)
    by (rewrite <- H1; apply F2; reflexivity).
  destruct r2; [| assumption].
  apply post_modify. exact H2.
Qed.

(** What [append] does to the log of its trace. *)
Lemma append_extends_log (traceId : string) (event : ReplayEvent)
      (w : @World E) :
  post (ReplayStore_append traceId event) w
       (fun r w' =>
          match r with
          | Ok _ => log_of traceId w' = log_of traceId w ++ [LineEvent event]
          | Throw _ => fs_logs w' = fs_logs w
          end).
Proof.
  unfold ReplayStore_append. cbv zeta.
  apply post_bind. apply (post_frame (R := frame true true)); [pres |].
  intros r1 w1 F1. assert (H1 : fs_logs w1 = fs_logs w) by (apply F1; reflexivity).
  destruct r1; [| assumption].
  apply post_bind. apply (post_frame (R := frame true true)); [pres |].
  intros r2 w2 F2.
  assert (H2 : fs_logs w2 = fs_logs w)
    by (rewrite <- H1; apply F2; reflexivity).
  destruct r2; [| assumption].
  apply post_modify. unfold log_of. cbn [fs_logs set_fs_logs].
  rewrite get_set_same, H2. reflexivity.
Qed.

(** [recordReplayEvent] on a readable log either leaves the log as it is
    (the append did not go through) or appends one event whose index is
    the number of events read plus one; when it returns normally, the
    event is there. *)
Lemma recordReplayEvent_log (a : nat) (type : ReplayEventType)
      (payload : ReplayPayload) (w w' : @World E) (s : BrowserSession)
      (r : Res unit) :
  nth_error (heap w) a = Some s ->
  resolves (FsReadFile (buildTracePath (p_traceId (params s)))) w ->
  recordReplayEvent a type payload w = (r, w') ->
  (r <> Ok tt /\
   log_of (p_traceId (params s)) w' = log_of (p_traceId (params s)) w) \/
  exists at_,
    log_of (p_traceId (params s)) w' =
    log_of (p_traceId (params s)) w ++
    [LineEvent
       (mkReplayEvent type
          (Z.of_nat (List.length
                       (parse_lines (log_of (p_traceId (params s)) w))) + 1)
          at_ payload)].
Proof.
  intros Hs Hr Hrun. unfold recordReplayEvent in Hrun.
  erewrite bind_eq in Hrun by (apply getS_eq; exact Hs). cbv zeta in Hrun.
  destruct (@load_readable (p_traceId (params s)) w Hr)
    as (manifest & w1 & Hload & Hev & F1).
  assert (H1 : fs_logs w1 = fs_logs w) by (apply F1; reflexivity).
  unfold bind at 1 in Hrun. unfold try_catch in Hrun.
  erewrite bind_eq in Hrun by exact Hload. unfold ret at 1 in Hrun.
  unfold bind at 1 in Hrun. unfold now at 1 in Hrun.
  destruct (env_now (env w1)) as [t e] eqn:Hnow.
  rewrite Hev in Hrun.
  set (event := mkReplayEvent type
                  (Z.of_nat (List.length
                     (parse_lines (log_of (p_traceId (params s)) w))) + 1)
                  t payload) in *.
  pose proof (append_extends_log (p_traceId (params s)) event (set_env e w1))
    as Happ.
  unfold post in Happ. unfold bind at 1 in Hrun.
  destruct (ReplayStore_append (p_traceId (params s)) event (set_env e w1))
    as [[u | msg] w2]; cbn [fst snd] in Happ.
  - right. exists t.
    assert (H2 : log_of (p_traceId (params s)) w2 =
                 log_of (p_traceId (params s)) w ++ [LineEvent event]).
    { rewrite Happ. unfold log_of. cbn [fs_logs set_env]. rewrite H1.
      reflexivity. }
    pose proof (persistTraceIndex_keeps_logs (p_traceId (params s))
                  (parse_lines (log_of (p_traceId (params s)) w) ++ [event]) w2)
      as Hper.
    unfold post in Hper. rewrite Hrun in Hper. cbn [snd] in Hper.
    unfold log_of in *. rewrite Hper. exact H2.
  - left. inversion Hrun; subst. split; [discriminate |].
    unfold log_of. rewrite Happ. cbn [fs_logs set_env]. rewrite H1.
    reflexivity.
Qed.

(** Hence a log the session wrote stays one under the session's appends. *)
Lemma recordReplayEvent_session_written (a : nat) (type : ReplayEventType)
      (payload : ReplayPayload) (w w' : @World E) (s : BrowserSession)
      (r : Res unit) :
  nth_error (heap w) a = Some s ->
  resolves (FsReadFile (buildTracePath (p_traceId (params s)))) w ->
  recordReplayEvent a type payload w = (r, w') ->
  session_written (log_of (p_traceId (params s)) w) ->
  session_written (log_of (p_traceId (params s)) w').
Proof.
  intros Hs Hr Hrun Hw.
  destruct (@recordReplayEvent_log a type payload w w' s r Hs Hr Hrun)
    as [[_ Hsame] | [at_ Hext]].
  - rewrite Hsame. exact Hw.
  - rewrite Hext. apply written_append. exact Hw.
Qed.

End ReplayRuns.

(* ------------------------------------------------------------------ *)
(** ** Garbage collection *)
(* ------------------------------------------------------------------ *)

Section MapOrder.

Variable V : Type.



Lemma In_get_unique (k : string) (v : V) (m : JsMap.t V) :
  NoDup (map fst m) -> In (k, v) m -> JsMap.get k m = Some v.
Proof.
  induction m as [| [k' v'] m IH]; cbn; intros Hnd Hin; [destruct Hin |].
  inversion Hnd as [| x xs Hx Hnd']; subst.
  destruct Hin as [Heq | Hin].
  - inversion Heq; subst. rewrite String.eqb_refl. reflexivity.
  - destruct (String.eqb_spec k k') as [-> | Hne]; [| auto].
    exfalso. apply Hx. change k' with (fst (k', v)). apply in_map. exact Hin.
Qed.





End MapOrder.

Section Sweep.

Context {E : Type} {Environment : Env E}.







End Sweep.

(* ------------------------------------------------------------------ *)
(** ** The trace files across a sweep *)
(* ------------------------------------------------------------------ *)

Section SweptFiles.

Context {E : Type} {Environment : Env E}.
















End SweptFiles.

Section GarbageCollection.

Context {E : Type} {Environment : Env E}.





End GarbageCollection.


(* ================================================================== *)
(** * Further properties of the runtime *)
(* ================================================================== *)

(* ------------------------------------------------------------------ *)
(** ** The oldest session *)
(* ------------------------------------------------------------------ *)

(** The head of the sorted entries is the first of the entries with the
    least time: what comes before it in the list is strictly newer. *)
Lemma sort_by_time_head (xs : list (string * Z)) :
  match sort_by_time xs with
  | [] => xs = []
  | h :: _ =>
      exists before after,
        xs = before ++ h :: after /\
        (forall kv, In kv before -> snd h < snd kv) /\
        (forall kv, In kv after -> snd h <= snd kv)
  end.
Proof.
  induction xs as [| x r IH]; [reflexivity |].
  cbn [sort_by_time]. destruct (sort_by_time r) as [| h tl].
  - subst r. cbn. exists [], []. repeat split; intros kv [].
  - destruct IH as (b & a & Hr & Hb & Ha). cbn [insert_by_time].
    destruct (Z.leb_spec (snd x) (snd h)) as [Hle | Hgt].
    + exists [], r. split; [reflexivity |]. split; [intros kv [] |].
      intros kv Hin. rewrite Hr in Hin. apply in_app_or in Hin.
      destruct Hin as [Hin | [<- | Hin]].
      * specialize (Hb _ Hin). lia.
      * exact Hle.
      * specialize (Ha _ Hin). lia.
    + exists (x :: b), a. split; [cbn; rewrite Hr; reflexivity |].
      split; [| exact Ha].
      intros kv [<- | Hin]; [lia | auto].
Qed.

(** X1. [getOldestSessionId] returns nothing exactly when no timestamp is
    held; otherwise the id of an entry with the least timestamp, and of
    those the one that was inserted first. *)
Theorem oldest_session_is_first_minimum (m : SessionManager) :
  match getOldestSessionId m with
  | None => created m = []
  | Some id =>
      exists t before after,
        created m = before ++ (id, t) :: after /\
        (forall kv, In kv before -> t < snd kv) /\
        (forall kv, In kv after -> t <= snd kv)
  end.
Proof.
  unfold getOldestSessionId, JsMap.entries.
  pose proof (sort_by_time_head (created m)) as H.
  destruct (sort_by_time (created m)) as [| [id t] tl]; [exact H |].
  destruct H as (b & a & H). exists t, b, a. exact H.
Qed.

(* ------------------------------------------------------------------ *)
(** ** The files of a trace *)
(* ------------------------------------------------------------------ *)

Lemma list_ascii_of_string_append (x y : string) :
  list_ascii_of_string (x +:+ y)
  = list_ascii_of_string x ++ list_ascii_of_string y.
Proof. induction x as [| c x IH]; cbn; congruence. Qed.

Lemma trace_id_char_unit (c : ascii) :
  is_trace_id_char c = true -> units_of c = 1%nat.
Proof.
  destruct c as [[] [] [] [] [] [] [] []]; vm_compute;
    first [reflexivity | discriminate].
Qed.

Lemma replaced_chars (c : ascii) :
  Forall (fun c => is_trace_id_char c = true)
         (list_ascii_of_string (replaced c)).
Proof.
  unfold replaced. destruct (units_of c) as [| [| n]]; cbn;
    repeat constructor.
Qed.

Lemma replaced_length (c : ascii) : String.length (replaced c) = units_of c.
Proof.
  unfold replaced, units_of.
  destruct (Nat.ltb (nat_of_ascii c) 128); [reflexivity |].
  destruct (Nat.ltb (nat_of_ascii c) 192); [reflexivity |].
  destruct (Nat.ltb (nat_of_ascii c) 240); reflexivity.
Qed.

Lemma length_append (x y : string) :
  String.length (x +:+ y) = (String.length x + String.length y)%nat.
Proof. induction x as [| c x IH]; cbn; congruence. Qed.

Lemma sanitizeTraceId_chars (traceId : string) :
  Forall (fun c => is_trace_id_char c = true)
         (list_ascii_of_string (sanitizeTraceId traceId)).
Proof.
  induction traceId as [| c r IH]; cbn [sanitizeTraceId]; [constructor |].
  rewrite list_ascii_of_string_append. apply Forall_app. split; [| exact IH].
  destruct (is_trace_id_char c) eqn:Hc; [| apply replaced_chars].
  cbn. constructor; [exact Hc | constructor].
Qed.

Lemma sanitizeTraceId_fixed (name : string) :
  Forall (fun c => is_trace_id_char c = true) (list_ascii_of_string name) ->
  sanitizeTraceId name = name.
Proof.
  induction name as [| c r IH]; cbn; intros H; [reflexivity |].
  inversion H as [| x xs Hc Hr]; subst. rewrite Hc, IH by assumption.
  reflexivity.
Qed.

Lemma sanitizeTraceId_length (traceId : string) :
  String.length (sanitizeTraceId traceId) = length16 traceId.
Proof.
  induction traceId as [| c r IH]; cbn [sanitizeTraceId length16];
    [reflexivity |].
  rewrite length_append, IH. f_equal.
  destruct (is_trace_id_char c) eqn:Hc; [| apply replaced_length].
  rewrite (trace_id_char_unit _ Hc). reflexivity.
Qed.

Section TraceFiles.

Context {E : Type} {Environment : Env E}.

(** X2. The file name of a trace has as many characters as the trace id
    has UTF-16 code units, and holds only letters, digits, [.], [_] and
    [-]: no path separator, whatever the trace id; sanitizing twice
    changes nothing. The log and the index are that name in [TRACE_DIR],
    with their suffixes. *)
Theorem trace_file_name_is_safe (traceId : string) :
  exists name,
    buildTracePath traceId = TRACE_DIR +:+ "/" +:+ name +:+ ".jsonl" /\
    buildTraceIndex traceId = TRACE_DIR +:+ "/" +:+ name +:+ ".index.json" /\
    String.length name = length16 traceId /\
    ~ In "/"%char (list_ascii_of_string name) /\
    ~ In "\"%char (list_ascii_of_string name) /\
    sanitizeTraceId name = name /\
    buildTracePath name = buildTracePath traceId.
Proof.
  exists (sanitizeTraceId traceId).
  pose proof (sanitizeTraceId_chars traceId) as Hc.
  rewrite Forall_forall in Hc.
  assert (Hfix : sanitizeTraceId (sanitizeTraceId traceId)
                 = sanitizeTraceId traceId)
    by (apply sanitizeTraceId_fixed, sanitizeTraceId_chars).
  split; [reflexivity |]. split; [reflexivity |].
  split; [apply sanitizeTraceId_length |].
  split; [intros H; apply Hc in H; discriminate |].
  split; [intros H; apply Hc in H; discriminate |].
  split; [exact Hfix |].
  unfold buildTracePath. rewrite Hfix. reflexivity.
Qed.

End TraceFiles.

(** The last character of a string. *)
Fixpoint last_char (s : string) : option ascii :=
  match s with
  | EmptyString => None
  | String c EmptyString => Some c
  | String _ r => last_char r
  end.

Lemma last_char_append (x y : string) :
  y <> EmptyString -> last_char (x +:+ y) = last_char y.
Proof.
  intros Hy. induction x as [| c x IH]; [reflexivity |].
  cbn [String.append last_char]. rewrite IH.
  destruct (x +:+ y) eqn:Hxy; [| reflexivity].
  destruct x; [cbn in Hxy; congruence | discriminate].
Qed.

Lemma append_nonempty_r (x y : string) :
  y <> EmptyString -> x +:+ y <> EmptyString.
Proof. destruct x; cbn; [auto | discriminate]. Qed.

Lemma last_char_suffix (x y : string) (c : ascii) :
  last_char y = Some c -> last_char (x +:+ y) = Some c.
Proof.
  intros H. rewrite last_char_append; [exact H |].
  destruct y; [discriminate | discriminate].
Qed.

Section TraceFilesApart.

Context {E : Type} {Environment : Env E}.

(** X3. No trace log is the index of a trace, of the same trace or of another
    one: a log ends in [l], an index in [n]. *)
Theorem trace_log_is_no_index (t1 t2 : string) :
  String.eqb (buildTracePath t1) (buildTraceIndex t2) = false.
Proof.
  apply String.eqb_neq.
  unfold buildTracePath, buildTraceIndex. intros H.
  apply (f_equal last_char) in H.
  rewrite (@last_char_suffix _ _ "l"%char) in H
    by (do 2 apply last_char_suffix; reflexivity).
  rewrite (@last_char_suffix _ _ "n"%char) in H
    by (do 2 apply last_char_suffix; reflexivity).
  discriminate H.
Qed.

End TraceFilesApart.

(* ------------------------------------------------------------------ *)
(** ** A collector and the calls it receives *)
(* ------------------------------------------------------------------ *)

(** The calls a collector receives. *)
Inductive MetricsCall :=
| StepLatency (ms : Z)
| FrameDrops (count : Z)
| ActionFailure.

Definition record (m : MetricsCollector) (c : MetricsCall) : MetricsCollector :=
  match c with
  | StepLatency ms => recordStepLatency ms m
  | FrameDrops count => recordFrameDrops count m
  | ActionFailure => recordActionFailure m
  end.

Definition recorded (calls : list MetricsCall) : MetricsCollector :=
  fold_left record calls newMetricsCollector.

(** The latencies among the calls, as the collector stores them. *)
Definition latencies_of (calls : list MetricsCall) : list Z :=
  flat_map (fun c => match c with
                     | StepLatency ms => [Z.max 0 ms]
                     | _ => []
                     end) calls.

(* ------------------------------------------------------------------ *)
(** ** The latency window and its percentiles *)
(* ------------------------------------------------------------------ *)

Lemma insert_number_length (x : Z) (l : list Z) :
  List.length (insert_number x l) = S (List.length l).
Proof.
  induction l as [| y r IH]; [reflexivity |]. cbn.
  destruct (x <=? y); cbn; congruence.
Qed.

Lemma sort_numbers_length (l : list Z) :
  List.length (sort_numbers l) = List.length l.
Proof.
  induction l as [| x r IH]; [reflexivity |].
  cbn. rewrite insert_number_length. congruence.
Qed.

Lemma insert_number_In (x y : Z) (l : list Z) :
  In y (insert_number x l) <-> y = x \/ In y l.
Proof.
  induction l as [| z r IH]; cbn; [intuition |].
  destruct (x <=? z); cbn; [intuition |]. rewrite IH. intuition.
Qed.

Lemma sort_numbers_In (y : Z) (l : list Z) :
  In y (sort_numbers l) <-> In y l.
Proof.
  induction l as [| x r IH]; cbn; [tauto |].
  rewrite insert_number_In, IH. intuition.
Qed.

(** Ascending: every element is at most the elements after it. *)
Fixpoint ascending (l : list Z) : Prop :=
  match l with
  | [] => True
  | x :: r => (forall y, In y r -> x <= y) /\ ascending r
  end.

Lemma insert_number_ascending (x : Z) (l : list Z) :
  ascending l -> ascending (insert_number x l).
Proof.
  induction l as [| z r IH]; cbn; intros H.
  - split; [intros y [] | exact I].
  - destruct H as [Hz Hr]. destruct (Z.leb_spec x z) as [Hle | Hgt]; cbn.
    + split; [| split; assumption].
      intros y [<- | Hy]; [assumption |]. specialize (Hz _ Hy). lia.
    + split; [| apply IH; assumption].
      intros y Hy. apply insert_number_In in Hy as [-> | Hy]; [lia | auto].
Qed.

Lemma sort_numbers_ascending (l : list Z) : ascending (sort_numbers l).
Proof.
  induction l as [| x r IH]; cbn; [exact I |].
  apply insert_number_ascending. exact IH.
Qed.

Lemma ascending_nth (l : list Z) : forall i j : nat,
  ascending l -> (i <= j)%nat -> (j < List.length l)%nat ->
  nth i l 0 <= nth j l 0.
Proof.
  induction l as [| x r IH]; intros i j H Hij Hj; [cbn in Hj; lia |].
  destruct H as [Hx Hr]. destruct i as [| i], j as [| j]; cbn in *.
  - lia.
  - apply Hx. apply nth_In. lia.
  - lia.
  - apply IH; [assumption | lia | lia].
Qed.

Lemma percentile_In (l : list Z) (p : Z) :
  l <> [] -> 0 <= p -> In (percentile l p) l.
Proof.
  intros Hl Hp. unfold percentile.
  destruct l as [| x r]; [congruence |].
  cbn [List.length Nat.eqb]. apply nth_In.
  assert (0 <= Z.of_nat (S (List.length r)) * p / 100)
    by (apply Z.div_pos; lia).
  cbn [List.length]. lia.
Qed.

Lemma percentile_mono (l : list Z) (p q : Z) :
  ascending l -> 0 <= p <= q -> percentile l p <= percentile l q.
Proof.
  intros Hl Hpq. unfold percentile.
  destruct l as [| x r]; [cbn; lia |].
  cbn [List.length Nat.eqb].
  set (n := Z.of_nat (S (List.length r))).
  assert (Hn : 0 < n) by (unfold n; lia).
  assert (0 <= n * p / 100) by (apply Z.div_pos; lia).
  assert (n * p / 100 <= n * q / 100)
    by (apply Z.div_le_mono; [lia | nia]).
  apply ascending_nth; [assumption | lia |].
  unfold n in *. cbn [List.length]. lia.
Qed.

Lemma record_latencies (calls : list MetricsCall) : forall m : MetricsCollector,
  exists dropped,
    stepLatencies m ++ latencies_of calls
    = dropped ++ stepLatencies (fold_left record calls m) /\
    (Z.of_nat (List.length (stepLatencies m)) <= maxLatencySamples ->
     List.length (stepLatencies (fold_left record calls m))
     = Nat.min (List.length (stepLatencies m ++ latencies_of calls)) 500).
Proof.
  unfold maxLatencySamples.
  induction calls as [| c calls IH]; intros m.
  - exists []. cbn. rewrite app_nil_r. split; [reflexivity |]. lia.
  - cbn [fold_left latencies_of flat_map].
    fold (latencies_of calls).
    destruct (IH (record m c)) as (d & Heq & Hlen).
    destruct c as [ms | count |]; cbn [record] in *.
    + unfold recordStepLatency in *. cbn [stepLatencies] in *.
      unfold maxLatencySamples in *.
      destruct (Z.gtb_spec
                  (Z.of_nat (List.length (stepLatencies m ++ [Z.max 0 ms])))
                  500) as [Hgt | Hle].
      * destruct (stepLatencies m ++ [Z.max 0 ms]) as [| x l] eqn:Hl;
          [cbn in Hgt; lia |].
        cbn [tl] in *. exists (x :: d). split.
        -- change (stepLatencies m ++ [Z.max 0 ms] ++ latencies_of calls)
             with (stepLatencies m ++ ([Z.max 0 ms] ++ latencies_of calls)).
           rewrite app_assoc, Hl. cbn. rewrite Heq. reflexivity.
        -- intros Hm. apply (f_equal (@List.length Z)) in Hl.
           rewrite length_app in Hl. cbn [List.length] in Hl, Hgt.
           rewrite Hlen by lia.
           rewrite !length_app. cbn [List.length]. lia.
      * exists d. split.
        -- rewrite <- Heq. rewrite <- app_assoc. reflexivity.
        -- intros Hm. rewrite Hlen by lia.
           rewrite <- app_assoc. reflexivity.
    + unfold recordFrameDrops in *.
      destruct (count >? 0); cbn [stepLatencies] in *; exists d; auto.
    + unfold recordActionFailure in *. cbn [stepLatencies] in *.
      exists d; auto.
Qed.

Lemma latencies_of_nonneg (calls : list MetricsCall) :
  Forall (fun x => 0 <= x) (latencies_of calls).
Proof.
  induction calls as [| c calls IH]; cbn; [constructor |].
  destruct c; cbn; auto. constructor; [lia | exact IH].
Qed.

(** X4. Whatever calls a new collector has received: it holds the last 500
    latencies it was given (negative ones as 0) in the order it received
    them, and a snapshot reports percentiles that are 0 when there is no
    sample, and else samples of the window with [0 <= p50 <= p95]. *)
Theorem latency_window_and_percentiles (calls : list MetricsCall)
        (activeSessions : Z) :
  let m := recorded calls in
  let snap := MetricsCollector_snapshot m activeSessions in
  (exists dropped, latencies_of calls = dropped ++ stepLatencies m) /\
  List.length (stepLatencies m)
  = Nat.min (List.length (latencies_of calls)) 500 /\
  0 <= step_latency_ms_p50 snap <= step_latency_ms_p95 snap /\
  (stepLatencies m = [] ->
   step_latency_ms_p50 snap = 0 /\ step_latency_ms_p95 snap = 0) /\
  (stepLatencies m <> [] ->
   In (step_latency_ms_p50 snap) (stepLatencies m) /\
   In (step_latency_ms_p95 snap) (stepLatencies m)).
Proof.
  intros m snap. unfold snap, MetricsCollector_snapshot.
  cbn [step_latency_ms_p50 step_latency_ms_p95].
  destruct (record_latencies calls newMetricsCollector) as (d & Heq & Hlen).
  cbn [newMetricsCollector stepLatencies app] in Heq, Hlen.
  fold (recorded calls) in Heq, Hlen. fold m in Heq, Hlen.
  assert (Hnn : Forall (fun x => 0 <= x) (stepLatencies m)).
  { pose proof (latencies_of_nonneg calls) as H. rewrite Heq in H.
    apply Forall_app in H. tauto. }
  assert (Hin : stepLatencies m <> [] ->
                In (percentile (sort_numbers (stepLatencies m)) 50)
                   (stepLatencies m) /\
                In (percentile (sort_numbers (stepLatencies m)) 95)
                   (stepLatencies m)).
  { intros Hne.
    assert (sort_numbers (stepLatencies m) <> []).
    { intros H0. apply (f_equal (@List.length Z)) in H0.
      rewrite sort_numbers_length in H0.
      destruct (stepLatencies m); [congruence | discriminate]. }
    split; apply sort_numbers_In; apply percentile_In; auto; lia. }
  split; [exists d; exact Heq |].
  split; [apply Hlen; unfold maxLatencySamples; cbn; lia |].
  split.
  - split.
    + destruct (stepLatencies m) as [| x l] eqn:Hl; [cbn; lia |].
      destruct Hin as [H50 _]; [discriminate |].
      rewrite Forall_forall in Hnn. apply Hnn. exact H50.
    + apply percentile_mono; [apply sort_numbers_ascending | lia].
  - split; [| exact Hin].
    intros H0. rewrite H0. cbn. split; reflexivity.
Qed.


(* ------------------------------------------------------------------ *)
(** ** Which URLs [validateUrl] accepts *)
(* ------------------------------------------------------------------ *)

Lemma startsWith_prefix (p s : string) :
  startsWith p s = true <-> exists rest, s = p +:+ rest.
Proof.
  revert s. induction p as [| a p IH]; intros s; cbn.
  - split; [intros _; exists s; reflexivity | reflexivity].
  - destruct s as [| b s].
    + split; [discriminate | intros (rest & H); discriminate].
    + rewrite andb_true_iff, IH. split.
      * intros (Hab & rest & ->). apply Ascii.eqb_eq in Hab. subst b.
        exists rest. reflexivity.
      * intros (rest & H). inversion H; subst.
        split; [apply Ascii.eqb_refl | exists rest; reflexivity].
Qed.

Lemma append_assoc (x y z : string) : (x +:+ y) +:+ z = x +:+ (y +:+ z).
Proof. induction x as [| c x IH]; cbn; congruence. Qed.

Lemma append_nil_r (x : string) : x +:+ EmptyString = x.
Proof. induction x as [| c x IH]; cbn; congruence. Qed.

Lemma rev_acc_spec (s acc : string) :
  rev_acc s acc = rev_acc s EmptyString +:+ acc.
Proof.
  revert acc. induction s as [| c s IH]; intros acc; [reflexivity |].
  cbn [rev_acc]. rewrite IH. rewrite (IH (String c EmptyString)).
  rewrite append_assoc. reflexivity.
Qed.

Lemma rev_append (x y : string) : rev (x +:+ y) = rev y +:+ rev x.
Proof.
  unfold rev. induction x as [| c x IH]; cbn [String.append rev_acc].
  - rewrite append_nil_r. reflexivity.
  - rewrite rev_acc_spec, IH, (rev_acc_spec x (String c EmptyString)).
    apply append_assoc.
Qed.

Lemma rev_involutive (s : string) : rev (rev s) = s.
Proof.
  induction s as [| c s IH]; [reflexivity |].
  change (String c s) with (String c EmptyString +:+ s).
  rewrite rev_append, rev_append, IH. reflexivity.
Qed.

Lemma endsWith_suffix (p s : string) :
  endsWith p s = true <-> exists front, s = front +:+ p.
Proof.
  unfold endsWith. rewrite startsWith_prefix. split.
  - intros (rest & H). exists (rev rest).
    apply (f_equal rev) in H. rewrite rev_involutive in H.
    rewrite H, rev_append, rev_involutive. reflexivity.
  - intros (front & ->). exists (rev front). apply rev_append.
Qed.

Section AcceptedUrls.

(** Whatever the platform's [trim] and [toLowerCase] are. *)
Context {B : Builtins}.

(** [host] is on a list of domains: it is one of the entries (trimmed,
    lower-cased, the empty ones dropped) or a subdomain of one. *)
Definition listed (host : string) (domains : list string) : Prop :=
  exists entry,
    In entry domains /\ toLowerCase (trim entry) <> EmptyString /\
    (host = toLowerCase (trim entry) \/
     exists sub, host = sub +:+ "." +:+ toLowerCase (trim entry)).

Lemma truthy_nonempty (s : string) : truthy s = true <-> s <> EmptyString.
Proof. destruct s; cbn; split; congruence. Qed.

Lemma host_matches_listed (host : string) (domains : list string) :
  host_matches host (normalize_hosts domains) = true <-> listed host domains.
Proof.
  unfold host_matches, normalize_hosts, listed.
  rewrite existsb_exists. split.
  - intros (e & Hin & Hm). apply filter_In in Hin as [Hin Ht].
    apply in_map_iff in Hin as (entry & <- & Hin).
    exists entry. split; [assumption |].
    split; [apply truthy_nonempty; assumption |].
    apply orb_prop in Hm as [Hm | Hm].
    + left. apply String.eqb_eq. exact Hm.
    + right. apply endsWith_suffix in Hm. exact Hm.
  - intros (entry & Hin & Hne & Hm).
    exists (toLowerCase (trim entry)). split.
    + apply filter_In. split; [| apply truthy_nonempty; assumption].
      apply in_map_iff. exists entry. auto.
    + apply orb_true_iff. destruct Hm as [-> | Hm].
      * left. apply String.eqb_refl.
      * right. apply endsWith_suffix. exact Hm.
Qed.

(** X5. Whatever [new URL], [trim] and [toLowerCase] of the platform are:
    [validateUrl] accepts a URL exactly when it parses, its scheme is
    [http:] or [https:], its host (lower-cased) is on the allowlist if
    that list is not empty, and is not on the denylist: a host on both
    lists is rejected. [ok] says that no error was found. *)
Theorem validateUrl_accepts (parseURL : string -> option ParsedURL)
        (targetUrl : string) (allowlist denylist : list string) :
  let v := validateUrl parseURL targetUrl (Some allowlist) (Some denylist) in
  (ok v = true <-> errors v = []) /\
  (ok v = true <->
   exists parsed,
     parseURL targetUrl = Some parsed /\
     (protocol parsed = "http:" \/ protocol parsed = "https:") /\
     (allowlist = [] \/ listed (toLowerCase (hostname parsed)) allowlist) /\
     ~ listed (toLowerCase (hostname parsed)) denylist).
Proof.
  intros v.
  assert (Hok : ok v = true <-> errors v = []).
  { unfold v, validateUrl. cbn [ok errors].
    match goal with |- Nat.eqb (List.length ?l) 0 = true <-> _ =>
      destruct l; cbn; split; congruence end. }
  split; [exact Hok |]. rewrite Hok.
  unfold v, validateUrl. cbn [errors].
  destruct (parseURL targetUrl) as [parsed |]; cbv beta iota zeta;
    [| split; [intros H; discriminate H | intros (p & H & _); discriminate H]].
  set (host := toLowerCase (hostname parsed)).
  assert (Hscheme : string_in (protocol parsed) ALLOWED_SCHEMES = true <->
                    protocol parsed = "http:" \/ protocol parsed = "https:").
  { unfold string_in, ALLOWED_SCHEMES. cbn [existsb].
    rewrite !orb_true_iff, !String.eqb_eq. intuition discriminate. }
  assert (Hdis : string_in (protocol parsed) ALLOWED_SCHEMES = true ->
                 string_in (protocol parsed +:+ "//") DISALLOWED_SCHEMES
                 = false).
  { intros H. apply Hscheme in H. destruct H as [-> | ->]; reflexivity. }
  pose proof (host_matches_listed host allowlist) as Hal.
  pose proof (host_matches_listed host denylist) as Hdl.
  split.
  - intros Herr.
    apply app_eq_nil in Herr as [H1 Herr].
    apply app_eq_nil in Herr as [_ Herr].
    apply app_eq_nil in Herr as [H3 H4].
    exists parsed. split; [reflexivity |].
    destruct (string_in (protocol parsed) ALLOWED_SCHEMES) eqn:Hs;
      [| cbn [negb] in H1; discriminate H1].
    split; [apply Hscheme; reflexivity |]. split.
    + destruct allowlist as [| x al]; [left; reflexivity |]. right.
      fold host in H3.
      destruct (host_matches host (normalize_hosts (x :: al)));
        [apply Hal; reflexivity | cbn [negb] in H3; discriminate H3].
    + intros Hl. apply Hdl in Hl.
      destruct denylist as [| x dl].
      * cbn in Hl. discriminate Hl.
      * fold host in H4. rewrite Hl in H4. discriminate H4.
  - intros (p & Hp & Hs & Hallow & Hdeny). inversion Hp; subst p.
    apply Hscheme in Hs. rewrite Hs, (Hdis Hs). cbn [negb app].
    assert (H3 : match allowlist with
                 | [] => []
                 | _ :: _ =>
                     if negb (host_matches host (normalize_hosts allowlist))
                     then [mkValidationError "DOMAIN_NOT_ALLOWED"
                             ("Host " +:+ host +:+ " not in allowlist")]
                     else []
                 end = []).
    { destruct allowlist as [| x al]; [reflexivity |].
      destruct Hallow as [H | H]; [discriminate |].
      apply Hal in H. rewrite H. reflexivity. }
    assert (H4 : match denylist with
                 | [] => []
                 | _ :: _ =>
                     if host_matches host (normalize_hosts denylist)
                     then [mkValidationError "DOMAIN_DENIED"
                             ("Host " +:+ host +:+ " is denied")]
                     else []
                 end = []).
    { destruct denylist as [| x dl]; [reflexivity |].
      destruct (host_matches host (normalize_hosts (x :: dl))) eqn:Hm;
        [| reflexivity].
      exfalso. apply Hdeny, Hdl. reflexivity. }
    fold host. rewrite H3, H4. reflexivity.
Qed.

End AcceptedUrls.


(* ------------------------------------------------------------------ *)
(** ** What the executor returns *)
(* ------------------------------------------------------------------ *)

Section ExecutorResults.

Context {E : Type} {Environment : Env E}.

(** The three ways [execute] ends. *)
Definition settled (input : ActionInput) (ar : ActionResult) : Prop :=
  ar_action ar = ai_action input /\
  (   (or_else (ai_max_actions_per_step input) 1 <> 1 /\
       ar_status ar = "rejected" /\ ar_success ar = false /\
       ar_detail ar = Some "max_actions_per_step must be 1 in phase 1")
   \/ (or_else (ai_max_actions_per_step input) 1 = 1 /\
       ar_status ar = "completed" /\ ar_success ar = true /\
       ar_detail ar = None)
   \/ (or_else (ai_max_actions_per_step input) 1 = 1 /\
       ar_status ar = "failed" /\ ar_success ar = false /\
       ar_detail ar <> None)).

Lemma execute_settles (a : nat) (pg : Handle) (input : ActionInput)
      (w : @World E) :
  present a w ->
  post (ActionExecutor_execute a pg input) w
       (fun r w' =>
          frame true true w w' /\ exists ar, r = Ok ar /\ settled input ar).
Proof.
  intros Hp. unfold ActionExecutor_execute. cbv zeta.
  apply post_bind, post_now. intros start e0.
  assert (Hp0 : present a (set_env e0 w)) by exact Hp.
  assert (F0 : frame true true w (set_env e0 w))
    by (apply frame_same_heap; auto).
  destruct ((or_else (ai_max_actions_per_step input) 1 <? 1)
            || (or_else (ai_max_actions_per_step input) 1 >? 1))%bool eqn:Hm.
  - apply post_ret. split; [exact F0 |]. eexists. split; [reflexivity |].
    split; [reflexivity |]. left. cbn. repeat split.
    intros H1. rewrite H1 in Hm. discriminate.
  - assert (Hone : or_else (ai_max_actions_per_step input) 1 = 1).
    { apply orb_false_elim in Hm as [H1 H2].
      apply Z.ltb_ge in H1. rewrite Z.gtb_ltb in H2. apply Z.ltb_ge in H2.
      lia. }
    apply post_try_catch. apply post_bind.
    apply (post_frame (R := frame true true));
      [apply withTimeout_frame, dispatch_frame |].
    intros r1 w1 F1.
    assert (Hp1 : present a w1) by (eapply present_frame; eassumption).
    destruct r1 as [result | msg].
    + apply post_bind.
      eapply post_weaken; [apply recordActionEvent_post; exact Hp1 |].
      intros r2 w2 (Hr2 & F2 & _). subst r2.
      apply post_bind, post_gets.
      apply post_bind, post_now. intros t e. apply post_ret. split.
      * eapply frame_trans; [exact F0 |]. eapply frame_trans; [exact F1 |].
        eapply frame_trans; [exact F2 |]. apply frame_same_heap; auto.
      * eexists. split; [reflexivity |]. split; [reflexivity |].
        right. left. cbn. auto.
    + apply post_bind.
      eapply post_weaken; [apply recordActionEvent_post; exact Hp1 |].
      intros r2 w2 (Hr2 & F2 & _). subst r2.
      apply post_bind, post_now. intros t e. apply post_ret. split.
      * eapply frame_trans; [exact F0 |]. eapply frame_trans; [exact F1 |].
        eapply frame_trans; [exact F2 |]. apply frame_same_heap; auto.
      * eexists. split; [reflexivity |]. split; [reflexivity |].
        right. right. cbn. repeat split; auto. discriminate.
Qed.

(** X6. [execute] never throws: a rejected request, a driver error and a
    timeout all come back as an [ActionResult]. It returns [completed]
    with [success], or [failed] or [rejected] without; [rejected] exactly
    when [max_actions_per_step] is given and is not 1. It leaves the
    manager, the trace files and the control state of every session as
    they were. *)
Theorem execute_never_throws (a : nat) (pg : Handle) (input : ActionInput)
        (w : @World E) :
  present a w ->
  exists ar w',
    ActionExecutor_execute a pg input w = (Ok ar, w') /\
    ar_action ar = ai_action input /\
    (ar_success ar = true <-> ar_status ar = "completed") /\
    (ar_status ar = "rejected" <->
     or_else (ai_max_actions_per_step input) 1 <> 1) /\
    (ar_status ar = "completed" \/ ar_status ar = "failed" \/
     ar_status ar = "rejected") /\
    manager w' = manager w /\ fs_logs w' = fs_logs w /\
    fs_index w' = fs_index w /\
    forall b sb, nth_error (heap w) b = Some sb ->
                 exists sb', nth_error (heap w') b = Some sb' /\
                             ctl sb' = ctl sb.
Proof.
  intros Hp. pose proof (execute_settles pg input Hp) as H.
  unfold post in H.
  destruct (ActionExecutor_execute a pg input w) as [r w'].
  cbn [fst snd] in H. destruct H as (F & ar & -> & Hact & Hcases).
  exists ar, w'. split; [reflexivity |]. split; [exact Hact |].
  destruct F as (Hm & Hfs & _ & Hheap). destruct (Hfs eq_refl) as [Hl Hi].
  assert (Hctl : forall b sb, nth_error (heap w) b = Some sb ->
                   exists sb', nth_error (heap w') b = Some sb' /\
                               ctl sb' = ctl sb).
  { intros b sb Hb. destruct (Hheap _ _ Hb) as (sb' & Hb' & St).
    exists sb'. split; [assumption | apply St]. }
  destruct Hcases as [(Hn & Hst & Hsu & _) | [(Hn & Hst & Hsu & _)
                                             | (Hn & Hst & Hsu & _)]];
    rewrite Hst, Hsu; repeat split; auto; try discriminate;
    try (intros H; discriminate H); try (intros H; congruence).
Qed.

End ExecutorResults.


(* ------------------------------------------------------------------ *)
(** ** What a step does to the control state *)
(* ------------------------------------------------------------------ *)

Section StepEffects.

Context {E : Type} {Environment : Env E}.

(** What a session is, apart from its counters. *)
Definition identity (s : BrowserSession) :=
  (bs_id s, params s, browser s, context s, page s, actionExecutor s,
   active s).

(** From [w] to [w'] the manager is kept, every session stays in its
    place as what it is, the sessions other than [a] keep their step index
    and creation time too, and the step index of [a] has advanced by
    [n]. *)
Definition advanced (n : Z) (a : nat) (w w' : @World E) : Prop :=
  manager w' = manager w /\
  forall b sb,
    nth_error (heap w) b = Some sb ->
    exists sb',
      nth_error (heap w') b = Some sb' /\ identity sb' = identity sb /\
      (b <> a -> ctl sb' = ctl sb) /\
      (b = a -> stepIndex sb' = stepIndex sb + n).

Lemma ctl_identity (s s' : BrowserSession) :
  ctl s' = ctl s -> identity s' = identity s /\ stepIndex s' = stepIndex s.
Proof.
  unfold ctl, identity. intros H. inversion H. split; [f_equal |]; congruence.
Qed.

Lemma frame_advanced (f t : bool) (a : nat) (w w' : @World E) :
  frame f t w w' -> advanced 0 a w w'.
Proof.
  intros (Hm & _ & _ & Hh). split; [exact Hm |].
  intros b sb Hb. destruct (Hh _ _ Hb) as (sb' & Hb' & St).
  destruct St as (Hctl & _). destruct (ctl_identity Hctl) as [Hi Hx].
  exists sb'. repeat split; auto. intros _. lia.
Qed.

Lemma advanced_trans (n m : Z) (a : nat) (w1 w2 w3 : @World E) :
  advanced n a w1 w2 -> advanced m a w2 w3 -> advanced (n + m) a w1 w3.
Proof.
  intros (Hm1 & H1) (Hm2 & H2). split; [congruence |].
  intros b sb Hb. destruct (H1 _ _ Hb) as (sb1 & Hb1 & Hi1 & Ho1 & Ha1).
  destruct (H2 _ _ Hb1) as (sb2 & Hb2 & Hi2 & Ho2 & Ha2).
  exists sb2. split; [assumption |]. split; [congruence |].
  split.
  - intros Hne. rewrite Ho2, Ho1 by assumption. reflexivity.
  - intros Heq. rewrite Ha2, Ha1 by assumption. lia.
Qed.

Lemma advanced_set (n : Z) (a : nat) (w : @World E) (s : BrowserSession)
      (g : BrowserSession -> BrowserSession) :
  nth_error (heap w) a = Some s ->
  identity (g s) = identity s -> stepIndex (g s) = stepIndex s + n ->
  advanced n a w (set_heap (list_set a (g s) (heap w)) w).
Proof.
  intros Hs Hi Hx. split; [reflexivity |]. cbn [heap set_heap].
  intros b sb Hb. destruct (Nat.eq_dec a b) as [<- | Hne].
  - rewrite (nth_error_list_set_eq _ _ _ Hs).
    assert (sb = s) by congruence. subst sb.
    exists (g s). repeat split; auto. intros H. congruence.
  - rewrite nth_error_list_set_neq by assumption.
    exists sb. repeat split; auto. intros H. congruence.
Qed.

Lemma advanced_lookup (n : Z) (a : nat) (w w' : @World E)
      (s : BrowserSession) :
  advanced n a w w' -> nth_error (heap w) a = Some s ->
  exists s', nth_error (heap w') a = Some s' /\ identity s' = identity s /\
             stepIndex s' = stepIndex s + n.
Proof.
  intros (_ & H) Hs. destruct (H _ _ Hs) as (s' & Hs' & Hi & _ & Hx).
  exists s'. auto.
Qed.

(** How far a [step] call that ended in [r] advances the index. *)
Definition step_advance (r : Res StepResult) (k : Z) : Prop :=
  match r with
  | Ok result =>
      k = if String.eqb (ar_status (action_result result)) "policy_denied"
          then 0 else 1
  | Throw _ => k = 0 \/ k = 1
  end.

Lemma step_post (a : nat) (input : ActionInput) (w : @World E)
      (s : BrowserSession) :
  nth_error (heap w) a = Some s ->
  post (BrowserSession_step a input) w
       (fun r w' => exists k, advanced k a w w' /\ step_advance r k).
Proof.
  intros Hs. unfold BrowserSession_step.
  assert (Stay : forall (f t : bool) (w' : @World E) (msg : string),
             frame f t w w' ->
             exists k, advanced k a w w' /\
                       step_advance (@Throw StepResult msg) k).
  { intros f t w' msg F. exists 0. split; [eapply frame_advanced; eassumption |].
    left. reflexivity. }
  apply post_bind. eapply post_getS; [exact Hs |].
  destruct (active s); [| apply post_throw, (Stay true true), frame_refl].
  destruct (page s) as [pg |];
    [| apply post_throw, (Stay true true), frame_refl].
  destruct (actionExecutor s) as [executor |];
    [| apply post_throw, (Stay true true), frame_refl].
  destruct (stateBuilder s) as [sb |];
    [| apply post_throw, (Stay true true), frame_refl].
  destruct (stepIndex s >=? p_maxSteps (params s));
    [apply post_throw, (Stay true true), frame_refl |].
  apply post_bind, post_now. intros t0 e0.
  assert (F0 : frame false false w (set_env e0 w))
    by (apply frame_same_heap; auto).
  destruct (t0 - createdAt s >?
            or_else (p_maxDurationMs (params s)) DEFAULT_MAX_DURATION_MS);
    [apply post_throw, (Stay false false), F0 |].
  apply post_bind, post_now. intros stepStart e1.
  assert (F1 : frame false false w (set_env e1 (set_env e0 w)))
    by (apply frame_same_heap; auto).
  cbv zeta. apply post_bind.
  apply (post_frame (R := frame false false));
    [apply buildStateSnapshot_frame |].
  intros r2 w2 F2'.
  assert (F2 : frame false false w w2)
    by (eapply frame_trans; [exact F1 | exact F2']).
  clear F0 F1 F2'.
  destruct r2 as [beforeState | msg]; [| apply (Stay false false), F2].
  destruct (allowed (shouldAllowAction (p_policy (params s))
                       (Some beforeState) input)); cbn [negb].
  - (* the action runs *)
    apply post_bind.
    assert (Hp2 : present a w2).
    { destruct (frame_lookup a F2 Hs) as (s2 & Hs2 & _). exists s2. exact Hs2. }
    eapply post_weaken; [apply execute_settles; exact Hp2 |].
    intros r3 w3 (F3' & actionResult & -> & Hsettled).
    assert (F3 : frame false false w w3).
    { eapply frame_trans; [exact F2 |]. apply frame_weaken. exact F3'. }
    clear F2 F3' Hp2.
    assert (Hst : String.eqb (ar_status actionResult) "policy_denied" = false).
    { destruct Hsettled as (_ & [(_ & H & _) | [(_ & H & _) | (_ & H & _)]]);
        rewrite H; reflexivity. }
    apply post_bind.
    apply (post_frame (R := frame false false)).
    { destruct (negb (ar_success actionResult));
        [apply preserves_modify_metrics | apply preserves_ret]. }
    intros r4 w4 F4'.
    assert (F4 : frame false false w w4)
      by (eapply frame_trans; [exact F3 | exact F4']).
    clear F3 F4'.
    destruct r4 as [[] | msg]; [| apply (Stay false false), F4].
    apply post_bind.
    apply (post_frame (R := frame false false)).
    { destruct (AgentAction_eqb (ai_action input) wait_for
                || AgentAction_eqb (ai_action input) wait)%bool;
        [| apply preserves_ret].
      apply preserves_bind; [apply preserves_getS |].
      intros s'. destruct (captureCoordinator s');
        [apply signalVisualDrift_frame | apply preserves_ret]. }
    intros r5 w5 F5'.
    assert (F5 : frame false false w w5)
      by (eapply frame_trans; [exact F4 | exact F5']).
    clear F4 F5'.
    destruct r5 as [[] | msg]; [| apply (Stay false false), F5].
    apply post_bind.
    apply (post_frame (R := frame false false));
      [apply buildStateSnapshot_frame |].
    intros r6 w6 F6'.
    assert (F6 : frame false false w w6)
      by (eapply frame_trans; [exact F5 | exact F6']).
    clear F5 F6'.
    destruct r6 as [state | msg]; [| apply (Stay false false), F6].
    apply post_bind, post_now. intros t3 e3.
    assert (A6 : advanced 0 a w (set_env e3 w6)).
    { eapply frame_advanced with (f := false) (t := false).
      eapply frame_trans; [exact F6 |]. apply frame_same_heap; auto. }
    destruct (advanced_lookup A6 Hs) as (s6 & Hs6 & Hi6 & Hx6).
    apply post_bind. eapply post_modS; [exact Hs6 |].
    set (w7 := set_heap _ _).
    assert (A7 : advanced 1 a w w7).
    { change 1 with (0 + 1). eapply advanced_trans; [exact A6 |].
      unfold w7.
      apply (@advanced_set 1 a (set_env e3 w6) s6
               (fun s => set_stepIndex (stepIndex s + 1) s)); auto. }
    destruct (advanced_lookup A7 Hs) as (s7 & Hs7 & Hi7 & Hx7).
    apply post_bind, post_now. intros t4 e4.
    apply post_bind. eapply post_modS; [exact Hs7 |].
    set (w8 := set_heap _ _).
    assert (A8 : advanced 1 a w w8).
    { change 1 with (1 + 0). eapply advanced_trans; [exact A7 |].
      unfold w8.
      apply (@advanced_set 0 a (set_env e4 w7) s7 (set_createdAt t4));
        [exact Hs7 | reflexivity | cbn; lia]. }
    apply post_bind, post_modify.
    set (w9 := set_metrics _ _).
    assert (A9 : advanced 1 a w w9) by exact A8.
    cbv zeta. apply post_bind.
    apply (post_frame (R := frame false false));
      [apply recordReplayEvent_frame |].
    intros r10 w10 F10.
    assert (A10 : advanced 1 a w w10).
    { change 1 with (1 + 0). eapply advanced_trans; [exact A9 |].
      eapply frame_advanced. exact F10. }
    destruct r10 as [[] | msg].
    + apply post_ret. exists 1. split; [exact A10 |].
      cbn [step_advance action_result]. rewrite Hst. reflexivity.
    + exists 1. split; [exact A10 |]. right. reflexivity.
  - (* denied *)
    apply post_bind, post_now. intros t1 e3.
    apply post_bind, post_now. intros t2 e4.
    apply post_ret. exists 0. split.
    + eapply frame_advanced with (f := false) (t := false).
      eapply frame_trans; [exact F2 |]. apply frame_same_heap; auto.
    + reflexivity.
Qed.

(** X7. Whatever a [step] call does and however it ends, it leaves the
    manager alone, keeps every session in place, active or not as it was,
    with its id, parameters, browser, context and page, and does not
    touch the step index or creation time of another session. The step
    index of its own session stays when the call is denied by the policy,
    grows by one when the call returns otherwise, and stays or grows by
    one when the call throws: it never goes down. *)
Theorem step_effect_on_control_state (a : nat) (input : ActionInput)
        (w w' : @World E) (s : BrowserSession) (r : Res StepResult) :
  nth_error (heap w) a = Some s ->
  BrowserSession_step a input w = (r, w') ->
  exists k, advanced k a w w' /\ step_advance r k.
Proof.
  intros Hs Hrun. pose proof (@step_post a input w s Hs) as H.
  unfold post in H. rewrite Hrun in H. exact H.
Qed.

End StepEffects.


(* ------------------------------------------------------------------ *)
(** ** Relations that the runtime keeps

    A relation between the world before and the world after that holds
    across the steps the runtime is made of: it is reflexive and
    transitive, and blind to the environment, the files and the metrics.
    What it says of the sessions is shown where a session is written. *)
(* ------------------------------------------------------------------ *)

Section KeptRelations.

Context {E : Type} {Environment : Env E}.

Class Kept (R : @World E -> @World E -> Prop) : Prop := {
  kept_refl : forall w, R w w;
  kept_trans : forall w1 w2 w3, R w1 w2 -> R w2 w3 -> R w1 w3;
  kept_env : forall w e, R w (set_env e w);
  kept_frames : forall w v, R w (set_fs_frames v w);
  kept_logs : forall w v, R w (set_fs_logs v w);
  kept_index : forall w v, R w (set_fs_index v w);
  kept_metrics : forall w v, R w (set_metrics v w)
}.

Variable R : @World E -> @World E -> Prop.
Context {KR : Kept R}.

Lemma keeps_ret (A : Type) (a : A) : preserves R (ret a).
Proof. intros w. apply kept_refl. Qed.

Lemma keeps_throw (A : Type) (msg : string) : preserves R (@throw E A msg).
Proof. intros w. apply kept_refl. Qed.

Lemma keeps_bind (A B : Type) (m : M A) (k : A -> M B) :
  preserves R m -> (forall a, preserves R (k a)) -> preserves R (bind m k).
Proof.
  intros Hm Hk w. unfold bind. specialize (Hm w).
  destruct (m w) as [[a | msg] w1]; cbn in *; [| assumption].
  eapply kept_trans; [exact Hm | apply Hk].
Qed.

Lemma keeps_try_catch (A : Type) (m : M A) (h : string -> M A) :
  preserves R m -> (forall msg, preserves R (h msg)) ->
  preserves R (try_catch m h).
Proof.
  intros Hm Hh w. unfold try_catch. specialize (Hm w).
  destruct (m w) as [[a | msg] w1]; cbn in *; [assumption |].
  eapply kept_trans; [exact Hm | apply Hh].
Qed.

Lemma keeps_try_finally (A : Type) (m : M A) (fin : M unit) :
  preserves R m -> preserves R fin -> preserves R (try_finally m fin).
Proof.
  intros Hm Hf w. unfold try_finally. specialize (Hm w).
  destruct (m w) as [r w1]. specialize (Hf w1).
  destruct (fin w1) as [[u | msg] w2]; cbn in *;
    eapply kept_trans; eassumption.
Qed.

Lemma keeps_swallow (A : Type) (m : M A) :
  preserves R m -> preserves R (swallow m).
Proof. intros Hm w. apply Hm. Qed.

Lemma keeps_gets (A : Type) (g : @World E -> A) : preserves R (gets g).
Proof. intros w. apply kept_refl. Qed.

Lemma keeps_now : preserves R now.
Proof.
  intros w. unfold now. destruct (env_now (env w)) as [x e]. apply kept_env.
Qed.

Lemma keeps_randomUUID : preserves R randomUUID.
Proof.
  intros w. unfold randomUUID. destruct (env_randomUUID (env w)) as [x e].
  apply kept_env.
Qed.

Lemma keeps_await_quiet (A : Type) (c : ExtCall A) :
  preserves R (await_quiet c).
Proof.
  intros w. unfold await_quiet. destruct (env_await c (env w)) as [x e].
  apply kept_env.
Qed.

Lemma keeps_getS (a : nat) : preserves R (getS a).
Proof.
  intros w. unfold getS. destruct (nth_error (heap w) a); apply kept_refl.
Qed.

Lemma keeps_getC (a : nat) : preserves R (getC a).
Proof.
  unfold getC. apply keeps_bind; [apply keeps_getS |].
  intros s. destruct (captureCoordinator s);
    [apply keeps_ret | apply keeps_throw].
Qed.

Lemma keeps_getSB (a : nat) : preserves R (getSB a).
Proof.
  unfold getSB. apply keeps_bind; [apply keeps_getS |].
  intros s. destruct (stateBuilder s); [apply keeps_ret | apply keeps_throw].
Qed.

Lemma keeps_modify_metrics (g : @World E -> MetricsCollector) :
  preserves R (modify (fun w => set_metrics (g w) w)).
Proof. intros w. apply kept_metrics. Qed.

Lemma keeps_modify_frames (g : @World E -> JsMap.t string) :
  preserves R (modify (fun w => set_fs_frames (g w) w)).
Proof. intros w. apply kept_frames. Qed.

Lemma keeps_modify_logs (g : @World E -> JsMap.t (list Line)) :
  preserves R (modify (fun w => set_fs_logs (g w) w)).
Proof. intros w. apply kept_logs. Qed.

Lemma keeps_modify_index (g : @World E -> JsMap.t TraceIndex) :
  preserves R (modify (fun w => set_fs_index (g w) w)).
Proof. intros w. apply kept_index. Qed.

(** Writing a session: the relation is shown at the write. *)
Lemma keeps_modS (a : nat) (g : BrowserSession -> BrowserSession) :
  (forall w s, nth_error (heap w) a = Some s ->
               R w (set_heap (list_set a (g s) (heap w)) w)) ->
  preserves R (modS a g).
Proof.
  intros Hg w. unfold modS. destruct (nth_error (heap w) a) eqn:Ha; cbn.
  - apply Hg. exact Ha.
  - apply kept_refl.
Qed.

Lemma keeps_withTimeout (A : Type) (fn : M A) (ms : Z) :
  preserves R fn -> preserves R (withTimeout fn ms).
Proof.
  intros Hf w. unfold withTimeout. specialize (Hf w).
  destruct (fn w) as [r w1]. destruct (env_timer_first ms (env w1)) as [b e].
  cbn in *. destruct b; cbn;
    (eapply kept_trans; [eassumption | apply kept_env]).
Qed.

End KeptRelations.

(** The awaited calls keep what the handlers of the driver's events
    keep. *)
Section Awaits.

Context {E : Type} {Environment : Env E}.

Variable R : @World E -> @World E -> Prop.
Context {KR : Kept R}.
Hypothesis R_handle : forall ev, preserves R (handle ev).

Lemma deliver_keeps (evs : list (nat * DriverEvent)) :
  preserves R (deliver evs).
Proof.
  induction evs as [| ev evs IH]; cbn [deliver].
  - apply keeps_ret; assumption.
  - apply keeps_bind; [assumption | apply R_handle | intros; apply IH].
Qed.

Lemma await_keeps (A : Type) (c : ExtCall A) : preserves R (await c).
Proof.
  intros w. unfold await. destruct (env_await c (env w)) as [r e].
  unfold yield. destruct (env_events (env (set_env e w))) as [evs e'].
  pose proof (@deliver_keeps evs (set_env e' (set_env e w))) as Hd.
  destruct (deliver evs (set_env e' (set_env e w))) as [u w'].
  cbn in *.
  eapply kept_trans; [| exact Hd].
  eapply kept_trans; apply kept_env.
Qed.

End Awaits.

(** A property of the sessions, as a relation: if every session had it
    before, every session has it after. *)
Definition all_sessions {E : Type} (P : BrowserSession -> Prop) (w : @World E)
  : Prop :=
  forall b s, nth_error (heap w) b = Some s -> P s.

Definition maintains {E : Type} (P : BrowserSession -> Prop)
           (w w' : @World E) : Prop :=
  all_sessions P w -> all_sessions P w'.

#[global] Instance maintains_kept {E : Type} {Environment : Env E}
  (P : BrowserSession -> Prop) : Kept (@maintains E P).
Proof.
  unfold maintains, all_sessions.
  constructor; intros; cbn in *; eauto.
Qed.

Section Maintained.

Context {E : Type} {Environment : Env E}.

Variable P : BrowserSession -> Prop.

Lemma maintains_modS (a : nat) (g : BrowserSession -> BrowserSession) :
  (forall s, P s -> P (g s)) -> preserves (@maintains E P) (modS a g).
Proof.
  intros Hg. apply keeps_modS; [typeclasses eauto |].
  intros w s Hs. unfold maintains, all_sessions. cbn. intros Hall b sb Hb.
  destruct (Nat.eq_dec a b) as [<- | Hne].
  - rewrite (nth_error_list_set_eq _ _ _ Hs) in Hb. inversion Hb; subst.
    apply Hg. eapply Hall. exact Hs.
  - rewrite nth_error_list_set_neq in Hb by assumption. eapply Hall. exact Hb.
Qed.

Lemma maintains_modC (a : nat) (g : CaptureCoordinator -> CaptureCoordinator) :
  (forall s c, P s -> captureCoordinator s = Some c ->
               P (set_captureCoordinator (Some (g c)) s)) ->
  preserves (@maintains E P) (modC a g).
Proof.
  intros Hg. unfold modC. apply maintains_modS. intros s Hs.
  destruct (captureCoordinator s) eqn:Hc; [apply Hg; assumption | exact Hs].
Qed.

Lemma maintains_modSB (a : nat) (g : StateBuilder -> StateBuilder) :
  (forall s b, P s -> stateBuilder s = Some b ->
               P (set_stateBuilder (Some (g b)) s)) ->
  preserves (@maintains E P) (modSB a g).
Proof.
  intros Hg. unfold modSB. apply maintains_modS. intros s Hs.
  destruct (stateBuilder s) eqn:Hb; [apply Hg; assumption | exact Hs].
Qed.

Lemma maintains_allocS (s : BrowserSession) :
  P s -> preserves (@maintains E P) (allocS s).
Proof.
  intros Hs w. unfold allocS, maintains, all_sessions. cbn.
  intros Hall b sb Hb.
  destruct (Nat.lt_ge_cases b (List.length (heap w))) as [Hlt | Hge].
  - rewrite nth_error_app1 in Hb by assumption. eapply Hall. exact Hb.
  - rewrite nth_error_app2 in Hb by assumption.
    destruct (b - List.length (heap w))%nat as [| n]; cbn in Hb.
    + inversion Hb; subst. exact Hs.
    + destruct n; discriminate.
Qed.

Lemma maintains_modify_manager (g : @World E -> SessionManager) :
  preserves (@maintains E P) (modify (fun w => set_manager (g w) w)).
Proof. intros w Hall. exact Hall. Qed.

(** A session that is read has the property. *)
Lemma maintains_getS_bind (A : Type) (a : nat) (k : BrowserSession -> M A) :
  (forall s, P s -> preserves (@maintains E P) (k s)) ->
  preserves (@maintains E P) (bind (getS a) k).
Proof.
  intros Hk w Hall. unfold bind, getS.
  destruct (nth_error (heap w) a) as [s |] eqn:Hs; [| exact Hall].
  apply Hk; [eapply Hall; exact Hs | exact Hall].
Qed.

End Maintained.

Create HintDb kept discriminated.

(** Walks a program of the runtime; [write] shows the relation at the
    places where a session is written. *)
Ltac kept_by L := apply L; try typeclasses eauto.

Ltac keep_step write :=
  lazymatch goal with
  | |- preserves (maintains _) (bind (getS _) _) =>
      apply maintains_getS_bind; intros
  | |- preserves _ (bind _ _) => kept_by keeps_bind; [| intros]
  | |- preserves _ (ret _) => kept_by keeps_ret
  | |- preserves _ (throw _) => kept_by keeps_throw
  | |- preserves _ (try_catch _ _) => kept_by keeps_try_catch; [| intros]
  | |- preserves _ (try_finally _ _) => kept_by keeps_try_finally
  | |- preserves _ (swallow _) => kept_by keeps_swallow
  | |- preserves _ (gets _) => kept_by keeps_gets
  | |- preserves _ now => kept_by keeps_now
  | |- preserves _ randomUUID => kept_by keeps_randomUUID
  | |- preserves _ (await_quiet _) => kept_by keeps_await_quiet
  | |- preserves _ (getS _) => kept_by keeps_getS
  | |- preserves _ (getC _) => kept_by keeps_getC
  | |- preserves _ (getSB _) => kept_by keeps_getSB
  | |- preserves _ (withTimeout _ _) => kept_by keeps_withTimeout
  | |- preserves _ (modC _ _) => write
  | |- preserves _ (modSB _ _) => write
  | |- preserves _ (modS _ _) => write
  | |- preserves _ (allocS _) => write
  | |- preserves _ (modify (fun w => set_manager _ w)) => write
  | |- preserves _ (modify (fun w => set_metrics _ w)) =>
      kept_by keeps_modify_metrics
  | |- preserves _ (modify (fun w => set_fs_frames _ w)) =>
      kept_by keeps_modify_frames
  | |- preserves _ (modify (fun w => set_fs_logs _ w)) =>
      kept_by keeps_modify_logs
  | |- preserves _ (modify (fun w => set_fs_index _ w)) =>
      kept_by keeps_modify_index
  | |- preserves _ (match ?x with _ => _ end) => destruct x
  | |- preserves _ _ => solve [eauto with kept]
  end.

Ltac keep write := repeat (cbv zeta; keep_step write).

(** As [keep], and a part of the program that has no rule of its own is
    replaced by its definition. *)
Ltac head_of t :=
  lazymatch t with
  | ?f _ => head_of f
  | _ => t
  end.

Ltac keep_open write :=
  repeat (cbv zeta;
          first [ keep_step write
                | lazymatch goal with
                  | |- preserves _ ?m => let h := head_of m in unfold h
                  end ]).


(* ------------------------------------------------------------------ *)
(** ** Bounded queues *)
(* ------------------------------------------------------------------ *)

(** The queues of a session within their bounds: at most 500 network
    events; a frame budget between 2 and 20; a frame ring of a capacity
    between 2 and 20 that holds no more than its capacity. *)
Definition bounded (s : BrowserSession) : Prop :=
  Z.of_nat (List.length (networkEvents s)) <= 500 /\
  2 <= p_maxFrames (params s) <= 20 /\
  forall c, captureCoordinator s = Some c ->
            2 <= Ring.maxDepth (frameBuffer c) <= 20 /\
            Ring.depth (frameBuffer c) <= Ring.maxDepth (frameBuffer c) /\
            0 <= Ring.dropped (frameBuffer c).

Lemma trim_ring_bound (cap : Z) (xs : list NetworkEvent) (e : NetworkEvent) :
  cap <= 500 -> Z.of_nat (List.length xs) <= 500 ->
  Z.of_nat (List.length (trim_ring cap (xs ++ [e]))) <= 500.
Proof.
  intros Hc Hx. unfold trim_ring.
  destruct (Z.gtb_spec (Z.of_nat (List.length (xs ++ [e]))) cap) as [H | H];
    [| lia].
  destruct xs as [| x xs]; cbn [app tl List.length] in *; [lia |].
  rewrite length_app. cbn [List.length]. lia.
Qed.

Lemma push_bound (ref : FrameRef) (fb : Ring.FixedRingBuffer FrameRef) :
  1 <= Ring.maxDepth fb -> Ring.depth fb <= Ring.maxDepth fb ->
  0 <= Ring.dropped fb ->
  let fb' := or_else (Ring.push ref fb) fb in
  Ring.maxDepth fb' = Ring.maxDepth fb /\
  Ring.depth fb' <= Ring.maxDepth fb' /\ 0 <= Ring.dropped fb'.
Proof.
  intros Hc Hd H0. unfold Ring.depth in *.
  destruct (push_step ref fb Hc Hd) as (r' & Hp & Hm & Hlt & Heq).
  rewrite Hp. cbn [or_else]. split; [exact Hm |]. rewrite Hm.
  destruct (Z.eq_dec (Z.of_nat (List.length (Ring.items fb)))
                     (Ring.maxDepth fb)) as [He | Hne].
  - destruct (Heq He) as [Hi Hdr]. rewrite Hi, Hdr, length_app.
    cbn [List.length]. split; [| lia].
    destruct (Ring.items fb); cbn [tl List.length] in *; lia.
  - destruct Hlt as [Hi Hdr]; [lia |]. rewrite Hi, Hdr, length_app.
    cbn [List.length]. lia.
Qed.

Lemma getDefaultMaxFrames_range (captureProfile : CaptureProfile)
      (requestMax : option Z) :
  2 <= getDefaultMaxFrames captureProfile requestMax <= 20.
Proof.
  unfold getDefaultMaxFrames, DEFAULT_CAPTURE_MAX_FRAMES.
  destruct requestMax as [r |]; [destruct (r =? 0) |];
    destruct captureProfile; lia.
Qed.

(** Shows that a write of the runtime keeps a session [bounded]. *)
Ltac bounded_session :=
  unfold bounded in *; intros;
  repeat match goal with
         | H : _ /\ _ |- _ => destruct H
         end;
  repeat match goal with
         | Hc : captureCoordinator ?s = Some ?c,
           H : forall c', captureCoordinator ?s = Some c' -> _ |- _ =>
             specialize (H c Hc)
         end;
  repeat match goal with
         | H : _ /\ _ |- _ => destruct H
         end;
  cbn -[Ring.push Ring.depth trim_ring or_else Z.max] in *;
  split; [try assumption; try lia; try (apply trim_ring_bound; lia) |];
  split; [try assumption; try lia |];
  try assumption;
  try (let c' := fresh "c" in
       let Heq := fresh "Heq" in
       intros c' Heq; inversion Heq; subst; clear Heq;
       cbn -[Ring.push Ring.depth trim_ring or_else Z.max];
       first [ match goal with
               | |- context [or_else (Ring.push ?r ?fb) ?fb] =>
                   let Hm := fresh "Hm" in
                   let Hd := fresh "Hd" in
                   let Hz := fresh "Hz" in
                   destruct (@push_bound r fb) as (Hm & Hd & Hz);
                   [lia | lia | lia |];
                   cbv zeta in Hm, Hd, Hz;
                   repeat split; try assumption; lia
               end
             | unfold Ring.depth in *; cbn; lia
             | repeat split; try assumption; lia ]).

Ltac bounded_write :=
  idtac;
  lazymatch goal with
  | |- preserves _ (modC _ _) => apply maintains_modC; bounded_session
  | |- preserves _ (modSB _ _) => apply maintains_modSB; bounded_session
  | |- preserves _ (modS _ _) => apply maintains_modS; bounded_session
  | |- preserves _ (allocS _) => apply maintains_allocS
  | |- preserves _ (modify _) => apply maintains_modify_manager
  end.

Section BoundedQueues.

Context {E : Type} {Environment : Env E}.

Lemma pushNetwork_bounded (a : nat) (prefix : string)
      (mk : string -> Z -> NetworkEvent) :
  preserves (@maintains E bounded) (pushNetwork a prefix mk).
Proof. unfold pushNetwork. keep bounded_write. Qed.

Lemma ackFrame_bounded (a : nat) (sid : string) :
  preserves (@maintains E bounded) (ackFrame a sid).
Proof. unfold ackFrame. keep bounded_write. Qed.

Lemma shouldCaptureFrame_bounded (a : nat) (nowMs : Z) :
  preserves (@maintains E bounded) (shouldCaptureFrame a nowMs).
Proof. unfold shouldCaptureFrame. keep bounded_write. Qed.

Lemma captureFrame_bounded (a : nat) (start : Z) (fp : FramePayload)
      (data : string) :
  preserves (@maintains E bounded) (captureFrame a start fp data).
Proof. unfold captureFrame. keep bounded_write. Qed.

Hint Resolve pushNetwork_bounded ackFrame_bounded shouldCaptureFrame_bounded
     captureFrame_bounded : kept.

Lemma onScreencastFrame_bounded (a : nat) (payload : option FramePayload) :
  preserves (@maintains E bounded) (onScreencastFrame a payload).
Proof. unfold onScreencastFrame. keep bounded_write. Qed.

Hint Resolve onScreencastFrame_bounded : kept.

Lemma handle_bounded (ev : nat * DriverEvent) :
  preserves (@maintains E bounded) (handle ev).
Proof.
  unfold handle, onRequest, onResponse, onRequestFailed.
  destruct ev as [a e]. keep bounded_write.
Qed.

Lemma await_bounded (A : Type) (c : ExtCall A) :
  preserves (@maintains E bounded) (await c).
Proof. apply await_keeps; [typeclasses eauto | apply handle_bounded]. Qed.

Hint Resolve await_bounded : kept.

Lemma ReplayStore_load_bounded (traceId : string) :
  preserves (@maintains E bounded) (ReplayStore_load traceId).
Proof. unfold ReplayStore_load. keep bounded_write. Qed.

Lemma ReplayStore_append_bounded (traceId : string) (event : ReplayEvent) :
  preserves (@maintains E bounded) (ReplayStore_append traceId event).
Proof. unfold ReplayStore_append. keep bounded_write. Qed.

Lemma ReplayStore_persistTraceIndex_bounded (traceId : string)
      (events : list ReplayEvent) :
  preserves (@maintains E bounded)
            (ReplayStore_persistTraceIndex traceId events).
Proof. unfold ReplayStore_persistTraceIndex. keep bounded_write. Qed.

Lemma ReplayStore_cleanup_bounded (traceId : string) :
  preserves (@maintains E bounded) (ReplayStore_cleanup traceId).
Proof. unfold ReplayStore_cleanup. keep bounded_write. Qed.

Hint Resolve ReplayStore_load_bounded ReplayStore_append_bounded
     ReplayStore_persistTraceIndex_bounded ReplayStore_cleanup_bounded : kept.

Lemma recordReplayEvent_bounded (a : nat) (type : ReplayEventType)
      (payload : ReplayPayload) :
  preserves (@maintains E bounded) (recordReplayEvent a type payload).
Proof. unfold recordReplayEvent. keep bounded_write. Qed.

Lemma CaptureCoordinator_start_bounded (a : nat) :
  preserves (@maintains E bounded) (CaptureCoordinator_start a).
Proof. unfold CaptureCoordinator_start. keep bounded_write. Qed.

Lemma CaptureCoordinator_stop_bounded (a : nat) :
  preserves (@maintains E bounded) (CaptureCoordinator_stop a).
Proof. unfold CaptureCoordinator_stop. keep bounded_write. Qed.

Lemma signalVisualDrift_bounded (a : nat) :
  preserves (@maintains E bounded) (signalVisualDrift a).
Proof. unfold signalVisualDrift. keep bounded_write. Qed.

Lemma StateBuilder_buildStateSnapshot_bounded (a : nat)
      (options : ObserveOptions) :
  preserves (@maintains E bounded) (StateBuilder_buildStateSnapshot a options).
Proof. unfold StateBuilder_buildStateSnapshot. keep bounded_write. Qed.

Hint Resolve recordReplayEvent_bounded CaptureCoordinator_start_bounded
     CaptureCoordinator_stop_bounded signalVisualDrift_bounded
     StateBuilder_buildStateSnapshot_bounded : kept.

Lemma buildStateSnapshot_bounded (a : nat) (options : ObserveOptions) :
  preserves (@maintains E bounded) (buildStateSnapshot a options).
Proof. unfold buildStateSnapshot. keep bounded_write. Qed.

Lemma withElementOrCoordinate_bounded (pg : Handle) (input : ActionInput)
      (withSelector : string -> M DispatchResult)
      (withCoords : Z -> Z -> M DispatchResult) :
  (forall sel, preserves (@maintains E bounded) (withSelector sel)) ->
  (forall x y, preserves (@maintains E bounded) (withCoords x y)) ->
  preserves (@maintains E bounded)
            (withElementOrCoordinate pg input withSelector withCoords).
Proof.
  intros Hs Hc. unfold withElementOrCoordinate. keep bounded_write.
Qed.

Lemma dispatch_bounded (pg : Handle) (action : AgentAction)
      (input : ActionInput) (timeout : Z) :
  preserves (@maintains E bounded) (dispatch pg action input timeout).
Proof.
  unfold dispatch. destruct action;
    try (apply withElementOrCoordinate_bounded; intros); keep bounded_write;
    try (apply withElementOrCoordinate_bounded; intros); keep bounded_write.
Qed.

Lemma recordActionEvent_bounded (a : nat) (pg : Handle)
      (input : ActionInput) (result : option DispatchResult) (success : bool)
      (detail : option string) :
  preserves (@maintains E bounded)
            (recordActionEvent a pg input result success detail).
Proof. unfold recordActionEvent. keep bounded_write. Qed.

Hint Resolve buildStateSnapshot_bounded dispatch_bounded
     recordActionEvent_bounded : kept.

Lemma ActionExecutor_execute_bounded (a : nat) (pg : Handle)
      (input : ActionInput) :
  preserves (@maintains E bounded) (ActionExecutor_execute a pg input).
Proof. unfold ActionExecutor_execute. keep bounded_write. Qed.

Hint Resolve ActionExecutor_execute_bounded : kept.

Lemma BrowserSession_start_bounded (a : nat) :
  preserves (@maintains E bounded) (BrowserSession_start a).
Proof. unfold BrowserSession_start. keep bounded_write. Qed.

Lemma BrowserSession_step_bounded (a : nat) (input : ActionInput) :
  preserves (@maintains E bounded) (BrowserSession_step a input).
Proof. unfold BrowserSession_step. keep bounded_write. Qed.

Lemma BrowserSession_snapshot_bounded (a : nat) (input : SnapshotInput) :
  preserves (@maintains E bounded) (BrowserSession_snapshot a input).
Proof. unfold BrowserSession_snapshot. keep bounded_write. Qed.

Lemma BrowserSession_stop_bounded (a : nat) (p : bool) :
  preserves (@maintains E bounded) (BrowserSession_stop a p).
Proof. unfold BrowserSession_stop. keep bounded_write. Qed.

Hint Resolve BrowserSession_start_bounded BrowserSession_step_bounded
     BrowserSession_snapshot_bounded BrowserSession_stop_bounded : kept.

Lemma SessionManager_stop_bounded (sessionId : string) (p : bool) :
  preserves (@maintains E bounded) (SessionManager_stop sessionId p).
Proof. unfold SessionManager_stop, SessionManager_get. keep bounded_write. Qed.

Hint Resolve SessionManager_stop_bounded : kept.

Lemma SessionManager_create_bounded (input : SessionCreateInput) :
  preserves (@maintains E bounded) (SessionManager_create input).
Proof.
  unfold SessionManager_create, createBrowserSession, newBrowserSession.
  keep bounded_write.
  unfold bounded. cbn. split; [lia |].
  split; [apply getDefaultMaxFrames_range | discriminate].
Qed.

Lemma gc_loop_bounded (nowMs : Z) (entries : list (string * Z)) :
  forall removed,
    preserves (@maintains E bounded) (gc_loop nowMs entries removed).
Proof.
  induction entries as [| [sessionId startedAt] r IH]; intros removed;
    cbn [gc_loop]; unfold gc_visit; keep bounded_write; apply IH.
Qed.

Lemma SessionManager_gc_bounded :
  preserves (@maintains E bounded) SessionManager_gc.
Proof.
  unfold SessionManager_gc. keep bounded_write. apply gc_loop_bounded.
Qed.

Lemma SessionManager_touch_bounded (sessionId : string) :
  preserves (@maintains E bounded) (SessionManager_touch sessionId).
Proof. unfold SessionManager_touch. keep bounded_write. Qed.

Hint Resolve SessionManager_touch_bounded : kept.

Lemma ToolHandler_stop_bounded (input : StopInput) :
  preserves (@maintains E bounded) (ToolHandler_stop input).
Proof.
  unfold ToolHandler_stop, parse_session_id, SessionManager_get.
  keep bounded_write.
Qed.

Lemma ToolHandler_snapshot_bounded (input : SnapshotInput) :
  preserves (@maintains E bounded) (ToolHandler_snapshot input).
Proof.
  unfold ToolHandler_snapshot, parse_session_id, SessionManager_get.
  keep bounded_write.
Qed.

End BoundedQueues.

(* ------------------------------------------------------------------ *)
(** ** The code of a session leaves the manager alone *)
(* ------------------------------------------------------------------ *)

(** A relation that every write to a session keeps is kept by all the
    code of a session, whatever the driver delivers meanwhile. *)
Section SessionWrites.

Context {E : Type} {Environment : Env E}.

Variable R : @World E -> @World E -> Prop.
Context {KR : Kept R}.
Hypothesis R_modS : forall a g, preserves R (modS a g).
Hypothesis R_allocS : forall s, preserves R (allocS s).

Lemma handle_writes (ev : nat * DriverEvent) : preserves R (handle ev).
Proof.
  destruct ev as [a e].
  keep_open ltac:(first [apply R_modS | apply R_allocS]).
Qed.

Lemma await_writes (A : Type) (c : ExtCall A) : preserves R (await c).
Proof. apply await_keeps; [assumption | apply handle_writes]. Qed.

Hint Resolve await_writes : kept.

Lemma createBrowserSession_writes (id : string) (input : SessionCreateInput)
      (policy : PolicyAdapter) (captureProfile : CaptureProfile)
      (maxSteps : option Z) (traceId : string) (headless : bool)
      (viewport : option ViewportInput) (storageState : option string)
      (maxFrames : Z) (maxDurationMs : option Z) :
  preserves R (createBrowserSession id input policy captureProfile maxSteps
                 traceId headless viewport storageState maxFrames
                 maxDurationMs).
Proof. keep_open ltac:(first [apply R_modS | apply R_allocS]). Qed.

Lemma BrowserSession_start_writes (a : nat) :
  preserves R (BrowserSession_start a).
Proof. keep_open ltac:(first [apply R_modS | apply R_allocS]). Qed.

Lemma BrowserSession_step_writes (a : nat) (input : ActionInput) :
  preserves R (BrowserSession_step a input).
Proof. keep_open ltac:(first [apply R_modS | apply R_allocS]). Qed.

Lemma BrowserSession_snapshot_writes (a : nat) (input : SnapshotInput) :
  preserves R (BrowserSession_snapshot a input).
Proof. keep_open ltac:(first [apply R_modS | apply R_allocS]). Qed.

Lemma BrowserSession_stop_writes (a : nat) (p : bool) :
  preserves R (BrowserSession_stop a p).
Proof. keep_open ltac:(first [apply R_modS | apply R_allocS]). Qed.

End SessionWrites.

(* ------------------------------------------------------------------ *)
(** ** The pool of the session manager *)
(* ------------------------------------------------------------------ *)

Definition untouched {E : Type} (w w' : @World E) : Prop :=
  manager w' = manager w.

#[global] Instance untouched_kept {E : Type} {Environment : Env E} :
  Kept (@untouched E).
Proof. constructor; unfold untouched; intros; cbn; congruence. Qed.

Section Untouched.

Context {E : Type} {Environment : Env E}.

Lemma untouched_modS (a : nat) (g : BrowserSession -> BrowserSession) :
  preserves (@untouched E) (modS a g).
Proof.
  intros w. unfold modS, untouched.
  destruct (nth_error (heap w) a); reflexivity.
Qed.

Lemma untouched_allocS (s : BrowserSession) :
  preserves (@untouched E) (allocS s).
Proof. intros w. reflexivity. Qed.

End Untouched.

Section MapKeys.

Variable V : Type.

(** [m.set(k, v)] on the keys: a new key goes to the end. *)
Definition add_key (k : string) (ks : list string) : list string :=
  if existsb (String.eqb k) ks then ks else ks ++ [k].

Lemma keys_set (k : string) (v : V) (m : JsMap.t V) :
  JsMap.keys (JsMap.set k v m) = add_key k (JsMap.keys m).
Proof.
  unfold add_key, JsMap.keys.
  induction m as [| [k' v'] r IH]; cbn; [reflexivity |].
  destruct (String.eqb k k') eqn:He; cbn; [reflexivity |].
  rewrite IH. destruct (existsb (String.eqb k) (map fst r)); reflexivity.
Qed.

Lemma keys_delete (k : string) (m : JsMap.t V) :
  JsMap.keys (JsMap.delete k m) =
  filter (fun k' => negb (String.eqb k k')) (JsMap.keys m).
Proof.
  unfold JsMap.keys, JsMap.delete.
  induction m as [| [k' v] r IH]; cbn; [reflexivity |].
  destruct (String.eqb k k'); cbn; congruence.
Qed.

Lemma size_keys (m : JsMap.t V) :
  JsMap.size m = Z.of_nat (List.length (JsMap.keys m)).
Proof. unfold JsMap.size, JsMap.keys. rewrite length_map. reflexivity. Qed.

Lemma In_keys_get (k : string) (m : JsMap.t V) :
  In k (JsMap.keys m) -> exists v, JsMap.get k m = Some v.
Proof.
  unfold JsMap.keys. induction m as [| [k' v] r IH]; cbn; [intros [] |].
  intros [<- | Hin].
  - rewrite String.eqb_refl. eauto.
  - destruct (String.eqb k k'); eauto.
Qed.

Lemma has_In_keys (k : string) (m : JsMap.t V) :
  JsMap.has k m = true -> In k (JsMap.keys m).
Proof.
  unfold JsMap.has. destruct (JsMap.get k m) as [v |] eqn:Hg;
    [intros _ | discriminate].
  eapply get_In_keys. exact Hg.
Qed.

End MapKeys.

Lemma add_key_known (k : string) (ks : list string) :
  In k ks -> add_key k ks = ks.
Proof.
  intros Hin. unfold add_key.
  replace (existsb (String.eqb k) ks) with true; [reflexivity |].
  symmetry. apply existsb_exists. exists k. split; [exact Hin |].
  apply String.eqb_refl.
Qed.

Lemma add_key_length (k : string) (ks : list string) :
  (List.length (add_key k ks) <= S (List.length ks))%nat.
Proof.
  unfold add_key. destruct (existsb (String.eqb k) ks);
    [| rewrite length_app; cbn]; lia.
Qed.

Lemma add_key_Forall (P : string -> Prop) (k : string) (ks : list string) :
  P k -> Forall P ks -> Forall P (add_key k ks).
Proof.
  intros Hk Hks. unfold add_key. destruct (existsb (String.eqb k) ks);
    [exact Hks |].
  apply Forall_app. split; [exact Hks | constructor; [exact Hk | constructor]].
Qed.

Lemma remove_key_length (k : string) (ks : list string) :
  In k ks ->
  (List.length (filter (fun k' => negb (String.eqb k k')) ks)
   < List.length ks)%nat.
Proof.
  induction ks as [| k' r IH]; cbn; [intros [] |].
  intros Hin. destruct (String.eqb_spec k k') as [<- | Hne]; cbn.
  - pose proof (filter_length_le (fun k' => negb (String.eqb k k')) r). lia.
  - destruct Hin as [-> | Hin]; [congruence |]. specialize (IH Hin). lia.
Qed.

Lemma remove_key_Forall (P : string -> Prop) (k : string) (ks : list string) :
  Forall P ks -> Forall P (filter (fun k' => negb (String.eqb k k')) ks).
Proof.
  intros H. apply Forall_forall. intros x Hx. apply filter_In in Hx.
  destruct Hx as [Hx _]. revert x Hx. apply Forall_forall. exact H.
Qed.

(** The pool is in order: it has room for at least one session and holds
    no more than it has room for; the two maps have the same keys in the
    same order; no key is the empty string. *)
Definition pool (m : SessionManager) : Prop :=
  1 <= maxSessions m /\
  JsMap.size (sessions m) <= maxSessions m /\
  JsMap.keys (created m) = JsMap.keys (sessions m) /\
  Forall (fun id => truthy id = true) (JsMap.keys (sessions m)).

Lemma pool_forget (sessionId : string) (m : SessionManager) :
  pool m -> pool (forget sessionId m).
Proof.
  intros (H1 & H2 & H3 & H4). unfold pool, forget.
  unfold set_created, set_sessions; cbn [created sessions maxSessions].
  rewrite !keys_delete, size_keys, keys_delete, H3.
  rewrite size_keys in H2.
  pose proof (filter_length_le
                (fun k' => negb (String.eqb sessionId k'))
                (JsMap.keys (sessions m))).
  repeat split; [lia | lia | apply remove_key_Forall; exact H4].
Qed.

Lemma forget_frees (sessionId : string) (m : SessionManager) :
  In sessionId (JsMap.keys (sessions m)) ->
  JsMap.size (sessions (forget sessionId m)) < JsMap.size (sessions m).
Proof.
  intros Hin. unfold forget.
  unfold set_created, set_sessions; cbn [created sessions maxSessions]. rewrite !size_keys, keys_delete.
  pose proof (remove_key_length sessionId _ Hin). lia.
Qed.

Lemma pool_touch (sessionId : string) (t : Z) (m : SessionManager) :
  pool m -> JsMap.has sessionId (sessions m) = true ->
  pool (set_created (JsMap.set sessionId t (created m)) m).
Proof.
  intros (H1 & H2 & H3 & H4) Hhas. unfold pool.
  unfold set_created, set_sessions; cbn [created sessions maxSessions].
  rewrite keys_set, H3, add_key_known by (apply has_In_keys; exact Hhas).
  repeat split; assumption.
Qed.

Lemma pool_register (sessionId : string) (a : nat) (t : Z) (m : SessionManager) :
  pool m -> truthy sessionId = true ->
  JsMap.size (sessions m) < maxSessions m ->
  pool (set_created (JsMap.set sessionId t (created m))
          (set_sessions (JsMap.set sessionId a (sessions m)) m)).
Proof.
  intros (H1 & H2 & H3 & H4) Hid Hroom. unfold pool.
  unfold set_created, set_sessions; cbn [created sessions maxSessions].
  rewrite !keys_set, H3, size_keys, keys_set. rewrite size_keys in Hroom.
  pose proof (add_key_length sessionId (JsMap.keys (sessions m))).
  repeat split; [lia | lia | apply add_key_Forall; assumption].
Qed.

Lemma oldest_known (m : SessionManager) :
  match getOldestSessionId m with
  | Some id => In id (JsMap.keys (created m))
  | None => created m = []
  end.
Proof.
  unfold getOldestSessionId, JsMap.entries, JsMap.keys.
  pose proof (sort_by_time_head (created m)) as H.
  destruct (sort_by_time (created m)) as [| h tl]; [exact H |].
  destruct H as (b & a & H & _). rewrite H, map_app. apply in_or_app.
  right. left. reflexivity.
Qed.

(** From a pool in order to a pool in order, with the same room. *)
Definition pooled {E : Type} (w w' : @World E) : Prop :=
  pool (manager w) ->
  pool (manager w') /\ maxSessions (manager w') = maxSessions (manager w).

#[global] Instance pooled_kept {E : Type} {Environment : Env E} :
  Kept (@pooled E).
Proof.
  constructor; unfold pooled; intros; cbn; auto.
  destruct (H H1) as [Ha Hb]. destruct (H0 Ha) as [Hc Hd].
  split; [exact Hc | congruence].
Qed.

Section Pool.

Context {E : Type} {Environment : Env E}.

Lemma untouched_pooled (A : Type) (m : M A) :
  preserves (@untouched E) m -> preserves (@pooled E) m.
Proof.
  intros H w. specialize (H w). unfold untouched in H. unfold pooled.
  rewrite H. auto.
Qed.

Lemma BrowserSession_stop_untouched (a : nat) (p : bool) :
  preserves (@untouched E) (BrowserSession_stop a p).
Proof.
  apply BrowserSession_stop_writes;
    first [typeclasses eauto | apply untouched_modS | apply untouched_allocS].
Qed.

Lemma BrowserSession_start_untouched (a : nat) :
  preserves (@untouched E) (BrowserSession_start a).
Proof.
  apply BrowserSession_start_writes;
    first [typeclasses eauto | apply untouched_modS | apply untouched_allocS].
Qed.

Lemma BrowserSession_step_untouched (a : nat) (input : ActionInput) :
  preserves (@untouched E) (BrowserSession_step a input).
Proof.
  apply BrowserSession_step_writes;
    first [typeclasses eauto | apply untouched_modS | apply untouched_allocS].
Qed.

Lemma BrowserSession_snapshot_untouched (a : nat) (input : SnapshotInput) :
  preserves (@untouched E) (BrowserSession_snapshot a input).
Proof.
  apply BrowserSession_snapshot_writes;
    first [typeclasses eauto | apply untouched_modS | apply untouched_allocS].
Qed.

Lemma createBrowserSession_untouched (id : string) (input : SessionCreateInput)
      (policy : PolicyAdapter) (captureProfile : CaptureProfile)
      (maxSteps : option Z) (traceId : string) (headless : bool)
      (viewport : option ViewportInput) (storageState : option string)
      (maxFrames : Z) (maxDurationMs : option Z) :
  preserves (@untouched E)
            (createBrowserSession id input policy captureProfile maxSteps
               traceId headless viewport storageState maxFrames
               maxDurationMs).
Proof.
  apply createBrowserSession_writes;
    first [typeclasses eauto | apply untouched_modS | apply untouched_allocS].
Qed.

Lemma BrowserSession_stop_pooled (a : nat) (p : bool) :
  preserves (@pooled E) (BrowserSession_stop a p).
Proof. apply untouched_pooled, BrowserSession_stop_untouched. Qed.

Lemma BrowserSession_start_pooled (a : nat) :
  preserves (@pooled E) (BrowserSession_start a).
Proof. apply untouched_pooled, BrowserSession_start_untouched. Qed.

Lemma BrowserSession_step_pooled (a : nat) (input : ActionInput) :
  preserves (@pooled E) (BrowserSession_step a input).
Proof. apply untouched_pooled, BrowserSession_step_untouched. Qed.

Lemma BrowserSession_snapshot_pooled (a : nat) (input : SnapshotInput) :
  preserves (@pooled E) (BrowserSession_snapshot a input).
Proof. apply untouched_pooled, BrowserSession_snapshot_untouched. Qed.

Hint Resolve BrowserSession_stop_pooled BrowserSession_start_pooled
     BrowserSession_step_pooled BrowserSession_snapshot_pooled : kept.

Lemma forget_pooled (sessionId : string) :
  preserves (@pooled E)
    (modify (fun w =>
               set_manager
                 (set_created (JsMap.delete sessionId (created (manager w)))
                    (set_sessions
                       (JsMap.delete sessionId (sessions (manager w)))
                       (manager w))) w)).
Proof.
  intros w Hp. cbn. split; [| reflexivity].
  apply (pool_forget sessionId) in Hp. exact Hp.
Qed.

Lemma SessionManager_stop_pooled (sessionId : string) (p : bool) :
  preserves (@pooled E) (SessionManager_stop sessionId p).
Proof.
  unfold SessionManager_stop, SessionManager_get.
  keep ltac:(apply forget_pooled).
Qed.

Hint Resolve SessionManager_stop_pooled : kept.

Lemma gc_loop_pooled (nowMs : Z) (entries : list (string * Z)) :
  forall removed, preserves (@pooled E) (gc_loop nowMs entries removed).
Proof.
  induction entries as [| [sessionId startedAt] r IH]; intros removed;
    cbn [gc_loop]; unfold gc_visit; keep idtac; apply IH.
Qed.

Lemma SessionManager_gc_pooled : preserves (@pooled E) SessionManager_gc.
Proof. unfold SessionManager_gc. keep idtac. apply gc_loop_pooled. Qed.

Lemma SessionManager_touch_pooled (sessionId : string) :
  preserves (@pooled E) (SessionManager_touch sessionId).
Proof.
  intros w Hp. unfold SessionManager_touch, bind, gets.
  destruct (JsMap.has sessionId (sessions (manager w))) eqn:Hhas;
    [| cbn; auto].
  unfold now. destruct (env_now (env w)) as [t e]. cbn.
  split; [| reflexivity]. apply pool_touch; assumption.
Qed.

Hint Resolve SessionManager_touch_pooled : kept.

Lemma ToolHandler_stop_pooled (input : StopInput) :
  preserves (@pooled E) (ToolHandler_stop input).
Proof.
  unfold ToolHandler_stop, parse_session_id, SessionManager_get.
  keep idtac.
Qed.

Lemma ToolHandler_snapshot_pooled (input : SnapshotInput) :
  preserves (@pooled E) (ToolHandler_snapshot input).
Proof.
  unfold ToolHandler_snapshot, parse_session_id, SessionManager_get.
  keep idtac.
Qed.

End Pool.

Section NewSessions.

Context {E : Type} {Environment : Env E}.

Lemma post_randomUUID (w : @World E) (Q : Res string -> @World E -> Prop) :
  (forall e, Q (Ok (fst (env_randomUUID (env w)))) (set_env e w)) ->
  post randomUUID w Q.
Proof.
  unfold post, randomUUID. intros H.
  destruct (env_randomUUID (env w)) as [x e]. apply H.
Qed.

(** The eviction at the head of [create]: when it returns, the pool has
    room. *)
Lemma evict_post (w : @World E) :
  pool (manager w) ->
  post (if JsMap.size (sessions (manager w)) >=? maxSessions (manager w) then
          match getOldestSessionId (manager w) with
          | Some oldest =>
              if truthy oldest then SessionManager_stop oldest false
              else ret tt
          | None => ret tt
          end
        else ret tt) w
       (fun r w1 =>
          pool (manager w1) /\
          maxSessions (manager w1) = maxSessions (manager w) /\
          (r = Ok tt ->
           JsMap.size (sessions (manager w1)) < maxSessions (manager w))).
Proof.
  intros Hp.
  destruct (Z.geb_spec (JsMap.size (sessions (manager w)))
                       (maxSessions (manager w))) as [Hfull | Hroom].
  2: { apply post_ret.
       split; [exact Hp | split; [reflexivity | intros _; lia]]. }
  pose proof Hp as (H1 & H2 & H3 & H4).
  pose proof (oldest_known (manager w)) as Ho.
  destruct (getOldestSessionId (manager w)) as [oldest |].
  2: { exfalso. rewrite size_keys, <- H3, Ho in Hfull. cbn in Hfull. lia. }
  rewrite H3 in Ho.
  assert (Ht : truthy oldest = true).
  { revert oldest Ho. apply Forall_forall. exact H4. }
  rewrite Ht. destruct (In_keys_get _ _ Ho) as (a & Hget).
  unfold SessionManager_stop, SessionManager_get.
  apply post_bind, post_gets. rewrite Hget.
  apply post_bind.
  eapply post_frame; [apply (BrowserSession_stop_untouched a false) |].
  intros r w1 Hm. unfold untouched in Hm. destruct r as [res | msg].
  - apply post_modify. cbn [manager set_manager]. rewrite Hm.
    fold (forget oldest (manager w)).
    split; [apply pool_forget; exact Hp |]. split; [reflexivity |].
    intros _. pose proof (forget_frees oldest (manager w) Ho). lia.
  - rewrite Hm. split; [exact Hp |]. split; [reflexivity |].
    intros Hr. discriminate Hr.
Qed.

Hypothesis uuid_truthy : forall e : E, truthy (fst (env_randomUUID e)) = true.

Lemma SessionManager_create_pooled (input : SessionCreateInput) :
  preserves (@pooled E) (SessionManager_create input).
Proof.
  intros w Hp.
  change (post (SessionManager_create input) w
               (fun _ w' =>
                  pool (manager w') /\
                  maxSessions (manager w') = maxSessions (manager w))).
  unfold SessionManager_create.
  apply post_bind, post_gets. apply post_bind.
  eapply post_weaken; [apply evict_post; exact Hp |].
  cbv beta. intros r w1 (Hp1 & Hmax & Hroom).
  destruct r as [[] | msg]; [| split; assumption].
  specialize (Hroom eq_refl). cbv zeta.
  destruct (negb (ok (validateUrl env_parseURL (target_url input)
                                   (Some (allowedDomains (manager w)))
                                   (Some (deniedDomains (manager w)))))).
  { apply post_throw. split; assumption. }
  apply post_bind, post_randomUUID. intros e.
  apply post_bind, post_now. intros t e1.
  apply post_bind.
  eapply post_frame; [apply createBrowserSession_untouched |].
  intros r w2 Hm2. unfold untouched in Hm2. cbn [manager set_env] in Hm2.
  destruct r as [session | msg]; [| rewrite Hm2; split; assumption].
  apply post_bind.
  eapply post_frame; [apply BrowserSession_start_untouched |].
  intros r w3 Hm3. unfold untouched in Hm3. rewrite Hm2 in Hm3.
  destruct r as [result | msg]; [| rewrite Hm3; split; assumption].
  apply post_bind, post_now. intros t' e2.
  apply post_bind, post_modify, post_ret.
  cbn [manager set_manager set_env]. rewrite Hm3.
  split; [| exact Hmax].
  apply pool_register; [exact Hp1 | apply uuid_truthy | lia].
Qed.

End NewSessions.

(* ------------------------------------------------------------------ *)
(** ** Any run of calls *)
(* ------------------------------------------------------------------ *)

Section Runs.

Context {E : Type} {Environment : Env E}.

Lemma perform_all_keeps (R : @World E -> @World E -> Prop) {KR : Kept R} :
  (forall op, preserves R (perform op)) ->
  forall ops, preserves R (perform_all ops).
Proof.
  intros Hop ops. induction ops as [| op rest IH]; cbn [perform_all].
  - keep_step idtac.
  - keep_step idtac; [apply Hop | apply IH].
Qed.

Lemma perform_bounded (op : Operation) :
  preserves (@maintains E bounded) (perform op).
Proof.
  destruct op; cbn [perform]; keep_step idtac;
    auto using SessionManager_create_bounded, SessionManager_stop_bounded,
      SessionManager_gc_bounded, SessionManager_touch_bounded,
      BrowserSession_start_bounded, BrowserSession_step_bounded,
      BrowserSession_snapshot_bounded, BrowserSession_stop_bounded,
      ToolHandler_stop_bounded, ToolHandler_snapshot_bounded.
Qed.

(** X8. Whatever is called in whatever order, and whatever the driver
    delivers meanwhile, no session ever holds more than 500 network
    events, and its frame ring, of a capacity between 2 and 20, never
    holds more than its capacity. *)
Theorem queues_stay_bounded (ops : list Operation) (w : @World E) :
  all_sessions bounded w ->
  all_sessions bounded (snd (perform_all ops w)).
Proof.
  apply (perform_all_keeps (R := @maintains E bounded)).
  apply perform_bounded.
Qed.

Hypothesis uuid_truthy : forall e : E, truthy (fst (env_randomUUID e)) = true.

Lemma perform_pooled (op : Operation) : preserves (@pooled E) (perform op).
Proof.
  destruct op; cbn [perform]; keep_step idtac;
    auto using SessionManager_create_pooled, SessionManager_stop_pooled,
      SessionManager_gc_pooled, SessionManager_touch_pooled,
      BrowserSession_start_pooled, BrowserSession_step_pooled,
      BrowserSession_snapshot_pooled, BrowserSession_stop_pooled,
      ToolHandler_stop_pooled, ToolHandler_snapshot_pooled.
Qed.

(** X9. With identifiers that are never empty, the manager never holds more
    sessions than [maxSessions], its two maps always have the same keys in
    the same order, and [maxSessions] never changes. *)
Theorem pool_stays_in_order (ops : list Operation) (w : @World E) :
  pool (manager w) ->
  pool (manager (snd (perform_all ops w))) /\
  maxSessions (manager (snd (perform_all ops w))) = maxSessions (manager w).
Proof.
  apply (perform_all_keeps (R := @pooled E)). apply perform_pooled.
Qed.

End Runs.

(* ------------------------------------------------------------------ *)
(** ** What a state packet holds *)
(* ------------------------------------------------------------------ *)

Lemma slice_last_length (A : Type) (n : Z) (xs : list A) :
  1 <= n -> Z.of_nat (List.length (slice_last n xs)) <= n.
Proof.
  intros Hn. unfold slice_last. destruct (Z.eqb_spec n 0); [lia |].
  rewrite length_skipn. lia.
Qed.

(** The parts of a packet follow the options: what was not asked for is
    absent, and what was asked for is cut to the last 100 network events
    and the last [max(1, maxFrames ?? 6)] frames. *)
Definition within_options (options : ObserveOptions) (p : StatePacket)
  : Prop :=
  (includeDom options = false -> sp_dom p = None) /\
  (includeAx options = false -> sp_accessibility p = AxUndefined) /\
  (includeNetwork options = false -> network_events p = []) /\
  (includeFrame options = false -> sp_frame_refs p = []) /\
  Z.of_nat (List.length (network_events p)) <= 100 /\
  Z.of_nat (List.length (sp_frame_refs p))
  <= Z.max 1 (or_else (maxFrames options) 6).

Section Packets.

Context {E : Type} {Environment : Env E}.

(** A property of what a program returns. *)
Definition yields {A : Type} (P : A -> Prop) (m : @M E A) : Prop :=
  forall w, match fst (m w) with Ok x => P x | Throw _ => True end.

Lemma yields_ret (A : Type) (P : A -> Prop) (x : A) :
  P x -> yields P (@ret E A x).
Proof. intros H w. exact H. Qed.

Lemma yields_throw (A : Type) (P : A -> Prop) (msg : string) :
  yields P (@throw E A msg).
Proof. intros w. exact I. Qed.

Lemma yields_all (A : Type) (P : A -> Prop) (m : @M E A) :
  (forall x, P x) -> yields P m.
Proof. intros H w. destruct (fst (m w)); [apply H | exact I]. Qed.

Lemma yields_bind_from (A B : Type) (Q : A -> Prop) (P : B -> Prop)
      (m : @M E A) (k : A -> M B) :
  yields Q m -> (forall x, Q x -> yields P (k x)) -> yields P (bind m k).
Proof.
  intros Hm Hk w. unfold bind. specialize (Hm w).
  destruct (m w) as [[x | msg] w1]; cbn in *; [| exact I].
  apply (Hk x Hm w1).
Qed.

Lemma yields_bind (A B : Type) (P : B -> Prop) (m : @M E A)
      (k : A -> M B) :
  (forall x, yields P (k x)) -> yields P (bind m k).
Proof.
  intros Hk. apply (yields_bind_from (Q := fun _ => True)).
  - apply yields_all. auto.
  - intros x _. apply Hk.
Qed.

Lemma yields_run (A : Type) (P : A -> Prop) (m : @M E A) (w w' : @World E)
      (x : A) :
  yields P m -> m w = (Ok x, w') -> P x.
Proof. intros H Hrun. specialize (H w). rewrite Hrun in H. exact H. Qed.

Lemma StateBuilder_yields (a : nat) (options : ObserveOptions) :
  yields (within_options options) (StateBuilder_buildStateSnapshot a options).
Proof.
  unfold StateBuilder_buildStateSnapshot. cbv zeta.
  do 3 (apply yields_bind; intros ?).
  apply (yields_bind_from
           (Q := fun d => includeDom options = false -> d = None)).
  { destruct (includeDom options);
      [apply yields_all; discriminate | apply yields_ret; reflexivity]. }
  intros domSummary Hdom.
  apply (yields_bind_from
           (Q := fun x => includeAx options = false -> x = AxUndefined)).
  { destruct (includeAx options);
      [apply yields_all; discriminate | apply yields_ret; reflexivity]. }
  intros accessibility Hax.
  do 5 (apply yields_bind; intros ?).
  apply yields_ret. unfold within_options, normalizeFrameRefs.
  cbn [sp_dom sp_accessibility network_events sp_frame_refs].
  rewrite length_map.
  split; [exact Hdom |]. split; [exact Hax |].
  destruct (includeNetwork options), (includeFrame options);
    repeat split; try discriminate; try reflexivity;
    try (apply slice_last_length; lia); cbn [List.length]; lia.
Qed.

Lemma buildStateSnapshot_yields (a : nat) (options : ObserveOptions) :
  yields (within_options options) (buildStateSnapshot a options).
Proof.
  unfold buildStateSnapshot. apply yields_bind. intros s.
  destruct (stateBuilder s); [| apply yields_throw].
  apply (yields_bind_from (Q := within_options options));
    [apply StateBuilder_yields |].
  intros state H. apply yields_ret. exact H.
Qed.

(** X10. A packet of [snapshot] holds the parts the request asked for, and no
    more than the last 100 network events and the last [maxFrames] frames
    of the session. *)
Theorem snapshot_packet_within_request (a : nat) (input : SnapshotInput)
        (w w' : @World E) (s : BrowserSession) (p : StatePacket) :
  nth_error (heap w) a = Some s ->
  BrowserSession_snapshot a input w = (Ok p, w') ->
  within_options
    (mkObserveOptions (flag (sn_include_dom input))
       (flag (sn_include_ax input)) (flag (sn_include_network input))
       (flag (sn_include_frame input)) (Some (p_maxFrames (params s))))
    p.
Proof.
  intros Hs Hrun. unfold BrowserSession_snapshot in Hrun.
  unfold bind at 1 in Hrun. rewrite (getS_eq _ _ Hs) in Hrun.
  revert Hrun. apply yields_run.
  eapply yields_bind_from; [apply buildStateSnapshot_yields |].
  intros state H. apply yields_bind. intros _. apply yields_ret. exact H.
Qed.

End Packets.

(* ------------------------------------------------------------------ *)
(** ** Appending to a trace and reading it back *)
(* ------------------------------------------------------------------ *)

Lemma append_same_prefix (x y z : string) : x +:+ y = x +:+ z -> y = z.
Proof.
  induction x as [| c x IH]; cbn; [auto |].
  intros H. inversion H. auto.
Qed.

Lemma append_same_suffix (s : string) : forall x y : string,
  x +:+ s = y +:+ s -> x = y.
Proof.
  induction x as [| c x IH]; intros [| d y] H; cbn in H.
  - reflexivity.
  - apply (f_equal String.length) in H. cbn in H.
    rewrite length_append in H. lia.
  - apply (f_equal String.length) in H. cbn in H.
    rewrite length_append in H. lia.
  - inversion H. f_equal. apply IH. assumption.
Qed.

Lemma parse_lines_snoc (ls : list Line) (event : ReplayEvent) :
  parse_lines (ls ++ [LineEvent event]) = parse_lines ls ++ [event].
Proof. rewrite parse_lines_app. reflexivity. Qed.

Section RoundTrip.

Context {E : Type} {Environment : Env E}.

Lemma append_log (traceId : string) (event : ReplayEvent)
      (w w1 : @World E) (u : unit) :
  ReplayStore_append traceId event w = (Ok u, w1) ->
  fs_logs w1 =
  JsMap.set (buildTracePath traceId)
            (log_of traceId w ++ [LineEvent event]) (fs_logs w).
Proof.
  intros Hrun.
  assert (H : post (ReplayStore_append traceId event) w
                (fun r w' =>
                   match r with
                   | Ok _ =>
                       fs_logs w' =
                       JsMap.set (buildTracePath traceId)
                         (log_of traceId w ++ [LineEvent event]) (fs_logs w)
                   | Throw _ => True
                   end)).
  { unfold ReplayStore_append. cbv zeta.
    apply post_bind. apply (post_frame (R := frame true true)); [pres |].
    intros r1 w2 F1.
    assert (H1 : fs_logs w2 = fs_logs w) by (apply F1; reflexivity).
    destruct r1; [| exact I].
    apply post_bind. apply (post_frame (R := frame true true)); [pres |].
    intros r2 w3 F2.
    assert (H2 : fs_logs w3 = fs_logs w)
      by (rewrite <- H1; apply F2; reflexivity).
    destruct r2; [| exact I].
    apply post_modify. unfold log_of. cbn [fs_logs set_fs_logs].
    rewrite H2. reflexivity. }
  unfold post in H. rewrite Hrun in H. exact H.
Qed.

(** X11. An event appended to a trace is the last event of what [load] then
    returns, after the events that were there; [load] can be asked under
    any id that is written to the same file. The logs of the traces kept
    in other files are as they were. *)
Theorem append_then_load (traceId reader : string) (event : ReplayEvent)
        (w w1 : @World E) (u : unit) :
  ReplayStore_append traceId event w = (Ok u, w1) ->
  sanitizeTraceId reader = sanitizeTraceId traceId ->
  resolves (FsReadFile (buildTracePath reader)) w1 ->
  (exists manifest w2,
     ReplayStore_load reader w1 = (Ok manifest, w2) /\
     rm_trace_id manifest = reader /\
     rm_events manifest = parse_lines (log_of traceId w) ++ [event] /\
     fs_logs w2 = fs_logs w1) /\
  (forall other,
     sanitizeTraceId other <> sanitizeTraceId traceId ->
     log_of other w1 = log_of other w).
Proof.
  intros Hrun Hsame Hread. pose proof (append_log _ _ _ Hrun) as Hlog.
  assert (Hpath : buildTracePath reader = buildTracePath traceId)
    by (unfold buildTracePath; rewrite Hsame; reflexivity).
  split.
  - destruct (@load_readable _ _ reader w1 Hread)
      as (manifest & w2 & Hload & Hev & F).
    exists manifest, w2. split; [exact Hload |].
    split.
    { revert Hload. unfold ReplayStore_load. cbv zeta.
      unfold bind at 1.
      destruct (try_catch _ _ w1) as [[raw | msg] w3]; [| discriminate].
      destruct (parse_lines raw).
      - unfold bind, now. destruct (env_now (env w3)).
        intros H; inversion H; reflexivity.
      - intros H; inversion H; reflexivity. }
    split; [| apply F; reflexivity].
    rewrite Hev. unfold log_of at 1. rewrite Hpath, Hlog, get_set_same.
    cbn [or_else]. apply parse_lines_snoc.
  - intros other Hother. unfold log_of at 1. rewrite Hlog.
    rewrite get_set_other; [reflexivity |].
    unfold buildTracePath. intros Heq. apply Hother.
    apply append_same_prefix in Heq.
    apply append_same_prefix in Heq.
    apply append_same_suffix in Heq. symmetry. exact Heq.
Qed.

End RoundTrip.

(* ------------------------------------------------------------------ *)
(** ** What [create] registers *)
(* ------------------------------------------------------------------ *)

(** Every session stays in its place under its id and with its
    parameters, and stays active if it was. *)
Definition lasting {E : Type} (w w' : @World E) : Prop :=
  forall b sb,
    nth_error (heap w) b = Some sb ->
    exists sb',
      nth_error (heap w') b = Some sb' /\ bs_id sb' = bs_id sb /\
      params sb' = params sb /\ (active sb = true -> active sb' = true).

#[global] Instance lasting_kept {E : Type} {Environment : Env E} :
  Kept (@lasting E).
Proof.
  constructor; unfold lasting; intros; cbn in *; eauto 6.
  destruct (H _ _ H1) as (s2 & H2 & Ha & Hb & Hc).
  destruct (H0 _ _ H2) as (s3 & H3 & Hd & He & Hf).
  exists s3. repeat split; try congruence. auto.
Qed.

Section Lasting.

Context {E : Type} {Environment : Env E}.

Lemma lasting_modS (a : nat) (g : BrowserSession -> BrowserSession) :
  (forall s, bs_id (g s) = bs_id s /\ params (g s) = params s /\
             (active s = true -> active (g s) = true)) ->
  preserves (@lasting E) (modS a g).
Proof.
  intros Hg. apply keeps_modS; [typeclasses eauto |].
  intros w s Hs b sb Hb. cbn.
  destruct (Nat.eq_dec a b) as [<- | Hne].
  - rewrite (nth_error_list_set_eq _ _ _ Hs).
    assert (sb = s) by congruence. subst sb.
    exists (g s). split; [reflexivity | apply Hg].
  - rewrite nth_error_list_set_neq by assumption. exists sb. auto.
Qed.

Lemma lasting_allocS (s : BrowserSession) :
  preserves (@lasting E) (allocS s).
Proof.
  intros w b sb Hb. cbn. exists sb.
  rewrite nth_error_app1 by (apply nth_error_Some; congruence). auto.
Qed.

End Lasting.

Ltac lasting_write :=
  idtac;
  lazymatch goal with
  | |- preserves _ (modC _ _) =>
      unfold modC; apply lasting_modS;
      let s := fresh "s" in
      intros s; destruct (captureCoordinator s); cbn; auto
  | |- preserves _ (modSB _ _) =>
      unfold modSB; apply lasting_modS;
      let s := fresh "s" in
      intros s; destruct (stateBuilder s); cbn; auto
  | |- preserves _ (modS _ _) =>
      apply lasting_modS;
      let s := fresh "s" in
      intros s; cbn; auto
  | |- preserves _ (allocS _) => apply lasting_allocS
  end.

Section LastingAwaits.

Context {E : Type} {Environment : Env E}.

Lemma handle_lasting (ev : nat * DriverEvent) :
  preserves (@lasting E) (handle ev).
Proof. destruct ev as [a e]. keep_open lasting_write. Qed.

Lemma await_lasting (A : Type) (c : ExtCall A) :
  preserves (@lasting E) (await c).
Proof. apply await_keeps; [typeclasses eauto | apply handle_lasting]. Qed.

End LastingAwaits.

#[global] Hint Resolve await_lasting : kept.

(** One step of a program: it keeps the sessions [lasting], and the rest
    runs when it returned. *)
Ltac walk N :=
  apply post_bind; eapply (post_frame (R := lasting));
  [ solve [keep_open lasting_write] | ];
  let r := fresh "r" in
  let w1 := fresh "w" in
  let N1 := fresh "N" in
  intros r w1 N1; destruct r; [| exact I];
  apply (kept_trans _ _ _ N) in N1; clear N; rename N1 into N.

Section Registered.

Context {E : Type} {Environment : Env E}.

(** [start] that returns: the result names the session, which is
    active. *)
Lemma start_post (a : nat) (w : @World E) (s : BrowserSession) :
  nth_error (heap w) a = Some s ->
  post (BrowserSession_start a) w
       (fun r w' =>
          match r with
          | Ok result =>
              cr_session_id result = bs_id s /\
              cr_trace_id result = p_traceId (params s) /\
              exists s',
                nth_error (heap w') a = Some s' /\ bs_id s' = bs_id s /\
                params s' = params s /\ active s' = true
          | Throw _ => True
          end).
Proof.
  intros Hs. unfold BrowserSession_start.
  apply post_bind. eapply post_getS; [exact Hs |].
  destruct (active s); [exact I |]. cbv zeta.
  pose proof (kept_refl (R := @lasting E) w) as N.
  do 11 walk N.
  destruct (N _ _ Hs) as (sc & Hc & Hid & Hpar & _).
  apply post_bind. eapply post_modS; [exact Hc |].
  match goal with
  | |- post _ ?w2 _ =>
      assert (Hon : exists s', nth_error (heap w2) a = Some s' /\
                               bs_id s' = bs_id s /\ params s' = params s /\
                               active s' = true);
      [ exists (set_active true sc); cbn;
        rewrite (nth_error_list_set_eq _ _ _ Hc); auto
      | pose proof (kept_refl (R := @lasting E) w2) as M ]
  end.
  do 6 walk M.
  apply post_ret. split; [reflexivity |]. split; [reflexivity |].
  destruct Hon as (s1 & H1 & Ha & Hb & Hact).
  destruct (M _ _ H1) as (s2 & H2 & Hc2 & Hd2 & He2).
  exists s2. repeat split; try congruence. auto.
Qed.

Lemma has_set_same (V : Type) (k : string) (v : V) (m : JsMap.t V) :
  JsMap.has k (JsMap.set k v m) = true.
Proof. unfold JsMap.has. rewrite get_set_same. reflexivity. Qed.

(** X12. A [create] that returns has checked the URL and has registered,
    under the id it returns, a session that is started, bears that id and
    the returned trace id, and was made from the request; its frame
    budget is [getDefaultMaxFrames] of the capture profile and of the
    [max_steps] of the request. *)
Theorem create_registers_session (input : SessionCreateInput)
        (w w' : @World E) (result : CreateResult) :
  SessionManager_create input w = (Ok result, w') ->
  ok (validateUrl env_parseURL (target_url input)
                  (Some (allowedDomains (manager w)))
                  (Some (deniedDomains (manager w)))) = true /\
  JsMap.has (cr_session_id result) (created (manager w')) = true /\
  exists a s,
    JsMap.get (cr_session_id result) (sessions (manager w')) = Some a /\
    nth_error (heap w') a = Some s /\
    bs_id s = cr_session_id result /\
    p_traceId (params s) = cr_trace_id result /\
    p_input (params s) = input /\
    p_maxFrames (params s)
    = getDefaultMaxFrames (or_else (capture_profile input) adaptive)
                          (max_steps input) /\
    active s = true.
Proof.
  intros Hrun.
  assert (H : post (SessionManager_create input) w
                (fun r w' =>
                   match r with
                   | Ok result =>
                       ok (validateUrl env_parseURL (target_url input)
                             (Some (allowedDomains (manager w)))
                             (Some (deniedDomains (manager w)))) = true /\
                       JsMap.has (cr_session_id result)
                                 (created (manager w')) = true /\
                       exists a s,
                         JsMap.get (cr_session_id result)
                                   (sessions (manager w')) = Some a /\
                         nth_error (heap w') a = Some s /\
                         bs_id s = cr_session_id result /\
                         p_traceId (params s) = cr_trace_id result /\
                         p_input (params s) = input /\
                         p_maxFrames (params s)
                         = getDefaultMaxFrames
                             (or_else (capture_profile input) adaptive)
                             (max_steps input) /\
                         active s = true
                   | Throw _ => True
                   end)).
  2: { unfold post in H. rewrite Hrun in H. exact H. }
  clear Hrun. unfold SessionManager_create.
  apply post_bind, post_gets. apply post_bind.
  apply (post_frame (R := fun _ _ => True)); [intros ?; exact I |].
  intros r w1 _. destruct r; [| exact I]. cbv zeta.
  destruct (ok (validateUrl env_parseURL (target_url input)
                            (Some (allowedDomains (manager w)))
                            (Some (deniedDomains (manager w))))) eqn:Hok;
    cbn [negb]; [| exact I].
  apply post_bind, post_randomUUID. intros e.
  apply post_bind, post_now. intros t e1.
  apply post_bind. unfold createBrowserSession, newBrowserSession.
  apply post_bind, post_now. intros t0 e2.
  unfold post at 1. unfold allocS. cbn [fst snd].
  apply post_bind. eapply post_weaken.
  { apply start_post. cbn [heap set_heap].
    rewrite nth_error_app2 by lia. rewrite Nat.sub_diag. reflexivity. }
  cbv beta. intros r w3 H. destruct r as [res |]; [| exact I].
  destruct H as (Hid & Htr & s' & Hs' & Hid' & Hpar & Hact).
  cbn [bs_id params p_traceId] in Hid, Htr, Hid', Hpar.
  apply post_bind, post_now. intros t' e3.
  apply post_bind, post_modify, post_ret.
  cbn [manager set_manager heap set_env created sessions set_created
       set_sessions].
  unfold set_created, set_sessions. cbn [created sessions].
  rewrite Hid. split; [reflexivity |].
  split; [apply has_set_same |].
  eexists. exists s'. split; [apply get_set_same |].
  split; [exact Hs' |]. rewrite Hid', Hpar, Htr. cbn. auto.
Qed.

End Registered.

(* ------------------------------------------------------------------ *)
(** ** The step budget *)
(* ------------------------------------------------------------------ *)

(** Every session stays in its place under its id and with its
    parameters, and its step index has not gone down. *)
Definition worn {E : Type} (w w' : @World E) : Prop :=
  forall b sb,
    nth_error (heap w) b = Some sb ->
    exists sb',
      nth_error (heap w') b = Some sb' /\ bs_id sb' = bs_id sb /\
      params sb' = params sb /\ stepIndex sb <= stepIndex sb'.

#[global] Instance worn_kept {E : Type} {Environment : Env E} :
  Kept (@worn E).
Proof.
  constructor; unfold worn; intros; cbn in *;
    try (eexists; repeat split; [eassumption | lia]).
  destruct (H _ _ H1) as (s2 & H2 & Ha & Hb & Hc).
  destruct (H0 _ _ H2) as (s3 & H3 & Hd & He & Hf).
  exists s3. repeat split; try congruence. lia.
Qed.

Section Worn.

Context {E : Type} {Environment : Env E}.

Lemma worn_modS (a : nat) (g : BrowserSession -> BrowserSession) :
  (forall s, bs_id (g s) = bs_id s /\ params (g s) = params s /\
             stepIndex s <= stepIndex (g s)) ->
  preserves (@worn E) (modS a g).
Proof.
  intros Hg. apply keeps_modS; [typeclasses eauto |].
  intros w s Hs b sb Hb. cbn.
  destruct (Nat.eq_dec a b) as [<- | Hne].
  - rewrite (nth_error_list_set_eq _ _ _ Hs).
    assert (sb = s) by congruence. subst sb.
    exists (g s). split; [reflexivity | apply Hg].
  - rewrite nth_error_list_set_neq by assumption. exists sb.
    repeat split; [assumption | lia].
Qed.

Lemma worn_allocS (s : BrowserSession) : preserves (@worn E) (allocS s).
Proof.
  intros w b sb Hb. cbn. exists sb.
  rewrite nth_error_app1 by (apply nth_error_Some; congruence).
  repeat split; [assumption | lia].
Qed.

Lemma worn_modify_manager (g : @World E -> SessionManager) :
  preserves (@worn E) (modify (fun w => set_manager (g w) w)).
Proof.
  intros w b sb Hb. cbn. exists sb. repeat split; [assumption | lia].
Qed.

End Worn.

Ltac worn_session :=
  cbn; repeat split; first [reflexivity | lia].

Ltac worn_write :=
  idtac;
  lazymatch goal with
  | |- preserves _ (modC _ _) =>
      unfold modC; apply worn_modS;
      let s := fresh "s" in
      intros s; destruct (captureCoordinator s); worn_session
  | |- preserves _ (modSB _ _) =>
      unfold modSB; apply worn_modS;
      let s := fresh "s" in
      intros s; destruct (stateBuilder s); worn_session
  | |- preserves _ (modS _ _) =>
      apply worn_modS;
      let s := fresh "s" in
      intros s; worn_session
  | |- preserves _ (allocS _) => apply worn_allocS
  | |- preserves _ (modify _) => apply worn_modify_manager
  end.

Section Budget.

Context {E : Type} {Environment : Env E}.

Lemma handle_worn (ev : nat * DriverEvent) : preserves (@worn E) (handle ev).
Proof. destruct ev as [a e]. keep_open worn_write. Qed.

Lemma await_worn (A : Type) (c : ExtCall A) : preserves (@worn E) (await c).
Proof. apply await_keeps; [typeclasses eauto | apply handle_worn]. Qed.

Hint Resolve await_worn : kept.

Lemma SessionManager_stop_worn (sessionId : string) (p : bool) :
  preserves (@worn E) (SessionManager_stop sessionId p).
Proof. keep_open worn_write. Qed.

Hint Resolve SessionManager_stop_worn : kept.

Lemma gc_loop_worn (nowMs : Z) (entries : list (string * Z)) :
  forall removed, preserves (@worn E) (gc_loop nowMs entries removed).
Proof.
  induction entries as [| [sessionId startedAt] r IH]; intros removed;
    cbn [gc_loop]; unfold gc_visit; keep worn_write; apply IH.
Qed.

Hint Resolve gc_loop_worn : kept.

Lemma perform_worn (op : Operation) : preserves (@worn E) (perform op).
Proof. destruct op; cbn [perform]; keep_open worn_write. Qed.

(** X13. A session that has used up its [max_steps] never steps again,
    whatever is called in between and whatever the driver delivers: the
    call throws and changes nothing. The message is that the session is
    not active, or that [max_steps] was reached, followed by the budget
    as JS prints it: its digits when it is a safe integer. *)
Theorem spent_budget_stays_spent (a : nat) (ops : list Operation)
        (input : ActionInput) (w : @World E) (s : BrowserSession) :
  nth_error (heap w) a = Some s ->
  p_maxSteps (params s) <= stepIndex s ->
  exists msg,
    BrowserSession_step a input (snd (perform_all ops w))
    = (Throw msg, snd (perform_all ops w)) /\
    (msg = "session is not active" \/
     exists budget,
       msg = "max_steps reached: " +:+ budget /\
       (Z.abs (p_maxSteps (params s)) <= 9007199254740992 ->
        budget = of_Z (p_maxSteps (params s)))).
Proof.
  intros Hs Hspent.
  pose proof (perform_all_keeps (R := @worn E) perform_worn ops w) as Hw.
  destruct (Hw _ _ Hs) as (s' & Hs' & _ & Hpar & Hidx).
  unfold BrowserSession_step. unfold bind at 1.
  rewrite (getS_eq _ _ Hs').
  destruct (active s'), (page s'), (actionExecutor s'), (stateBuilder s');
    try (eexists; split; [reflexivity | left; reflexivity]).
  rewrite Hpar.
  destruct (Z.geb_spec (stepIndex s') (p_maxSteps (params s))); [| lia].
  eexists. split; [reflexivity |]. right. eexists.
  split; [reflexivity | intros _; reflexivity].
Qed.

End Budget.

(* ------------------------------------------------------------------ *)
(** ** The ring at any capacity *)
(* ------------------------------------------------------------------ *)

Section RingCapacity.

Variable T : Type.

(** With a capacity that is not negative the eviction loop ends after as
    many rounds as there are items above the capacity. *)
Lemma evict_excess (fuel : nat) : forall r : Ring.FixedRingBuffer T,
  0 <= Ring.maxDepth r ->
  (List.length (Ring.items r) - Z.to_nat (Ring.maxDepth r) <= fuel)%nat ->
  Ring.evict fuel r =
  Some (Ring.mkRing
          (skipn (List.length (Ring.items r) - Z.to_nat (Ring.maxDepth r))
                 (Ring.items r))
          (Ring.dropped r
           + Z.of_nat (List.length (Ring.items r)
                       - Z.to_nat (Ring.maxDepth r)))
          (Ring.maxDepth r)).
Proof.
  induction fuel as [| fuel IH]; intros [xs d c] Hc Hf;
    cbn [Ring.items Ring.maxDepth Ring.dropped] in *.
  - cbn [Ring.evict Ring.items Ring.maxDepth].
    destruct (Z.gtb_spec (Z.of_nat (List.length xs)) c) as [Hgt | Hle];
      [lia |].
    replace (List.length xs - Z.to_nat c)%nat with 0%nat by lia.
    cbn [skipn]. rewrite Z.add_0_r. reflexivity.
  - cbn [Ring.evict Ring.items Ring.maxDepth Ring.dropped].
    destruct (Z.gtb_spec (Z.of_nat (List.length xs)) c) as [Hgt | Hle].
    + destruct xs as [| x xs]; [cbn in Hgt; lia |].
      rewrite IH; cbn [Ring.shift tl Ring.items Ring.maxDepth Ring.dropped
                       List.length] in *; [| lia | lia].
      replace (S (List.length xs) - Z.to_nat c)%nat
        with (S (List.length xs - Z.to_nat c))%nat by lia.
      cbn [skipn]. f_equal. f_equal. lia.
    + replace (List.length xs - Z.to_nat c)%nat with 0%nat by lia.
      cbn [skipn]. rewrite Z.add_0_r. reflexivity.
Qed.

(** With a negative capacity no number of rounds ends it. *)
Lemma evict_endless (fuel : nat) : forall r : Ring.FixedRingBuffer T,
  Ring.maxDepth r < 0 -> Ring.evict fuel r = None.
Proof.
  induction fuel as [| fuel IH]; intros r Hc; cbn [Ring.evict];
    destruct (Z.gtb_spec (Z.of_nat (List.length (Ring.items r)))
                         (Ring.maxDepth r)) as [Hgt | Hle];
    try lia; [reflexivity |].
  apply IH. exact Hc.
Qed.

(** X14. [push] on a ring of any capacity and any content. When the capacity
    is not negative, the ring then holds the newest entries, the new one
    last, as many as the capacity allows, and has counted the others as
    dropped: with capacity 0 it stays empty. When the capacity is
    negative, the eviction loop never ends. *)
Theorem push_at_any_capacity (v : T) (r : Ring.FixedRingBuffer T) :
  if Ring.maxDepth r <? 0 then
    forall fuel,
      Ring.evict fuel
        (Ring.mkRing (Ring.items r ++ [v]) (Ring.dropped r) (Ring.maxDepth r))
      = None
  else
    exists r' : Ring.FixedRingBuffer T,
      Ring.push v r = Some r' /\
      Ring.maxDepth r' = Ring.maxDepth r /\
      Ring.depth r' = Z.min (Ring.depth r + 1) (Ring.maxDepth r) /\
      Ring.dropped r' = Ring.dropped r + (Ring.depth r + 1 - Ring.depth r') /\
      Ring.items r' =
      skipn (Z.to_nat (Ring.depth r + 1 - Ring.depth r'))
            (Ring.items r ++ [v]).
Proof.
  destruct (Z.ltb_spec (Ring.maxDepth r) 0) as [Hneg | Hc].
  - intros fuel. apply evict_endless. exact Hneg.
  - unfold Ring.push. cbv zeta. rewrite evict_excess;
      cbn [Ring.items Ring.maxDepth Ring.dropped]; [| exact Hc | lia].
    eexists. split; [reflexivity |].
    unfold Ring.depth. cbn [Ring.items Ring.maxDepth Ring.dropped].
    rewrite length_skipn, length_app. cbn [List.length].
    split; [reflexivity |]. split; [lia |].
    split; [lia |]. f_equal. lia.
Qed.

End RingCapacity.

(* ================================================================== *)
(** * Runs in the simulated environment *)
(* ================================================================== *)

Section RunFacts.

Context {E : Type} {Environment : Env E}.

Lemma run_returned (A : Type) (m : M A) (w : @World E) (d : A) :
  Scenario.returned (fst (m w)) = true ->
  m w = (Ok (Scenario.value d (fst (m w))), snd (m w)).
Proof. destruct (m w) as [[x | msg] w']; cbn; [reflexivity | discriminate]. Qed.

(** A log whose lines all parse and are numbered from [k]. *)
Fixpoint numbered (k : Z) (ls : list Line) : bool :=
  match ls with
  | [] => true
  | LineEvent e :: r => (re_index e =? k) && numbered (k + 1) r
  | LineJunk :: _ => false
  end.

Lemma numbered_snoc (ls : list Line) : forall (k : Z) (l : Line),
  numbered k (ls ++ [l]) = true ->
  numbered k ls = true /\
  exists e, l = LineEvent e /\ re_index e = k + Z.of_nat (List.length ls).
Proof.
  induction ls as [| x r IH]; intros k l H.
  - cbn in H. destruct l as [e |]; [| discriminate].
    apply andb_prop in H as [H _]. apply Z.eqb_eq in H.
    split; [reflexivity |]. exists e. split; [reflexivity |].
    cbn [List.length Z.of_nat]. lia.
  - cbn [app numbered] in *. destruct x as [e |]; [| discriminate].
    apply andb_prop in H as [Hk H].
    destruct (IH _ _ H) as (Hr & e' & -> & Hi).
    split; [rewrite Hk, Hr; reflexivity |].
    exists e'. split; [reflexivity |]. cbn [List.length]. lia.
Qed.

Lemma numbered_all_parse (ls : list Line) : forall k : Z,
  numbered k ls = true -> List.length (parse_lines ls) = List.length ls.
Proof.
  induction ls as [| x r IH]; intros k H; [reflexivity |].
  cbn [numbered] in H. destruct x as [e |]; [| discriminate].
  apply andb_prop in H as [_ H]. cbn. f_equal. eapply IH. exact H.
Qed.

Lemma numbered_session_written (ls : list Line) :
  numbered 1 ls = true -> session_written ls.
Proof.
  induction ls as [| l ls IH] using rev_ind; intros H; [constructor |].
  apply numbered_snoc in H as (Hls & e & -> & Hi).
  destruct e as [type index at_ payload]. cbn [re_index] in Hi.
  assert (index = Z.of_nat (List.length (parse_lines ls)) + 1) as ->.
  { rewrite (numbered_all_parse _ _ Hls). lia. }
  apply written_append. apply IH. exact Hls.
Qed.



End RunFacts.

Lemma sim_returned (A : Type) (m : @M Sim.SimEnv A) (w : @World Sim.SimEnv)
      (d : A) :
  Scenario.returned (Sim.result m w) = true ->
  m w = (Ok (Scenario.value d (Sim.result m w)), Sim.after m w).
Proof. apply run_returned. Qed.

Lemma sim_returned_triple (A B C : Type) (m : @M Sim.SimEnv (A * B * C))
      (w : @World Sim.SimEnv) (d : A * B * C) :
  Scenario.returned (Sim.result m w) = true ->
  m w = (Ok (fst (fst (Scenario.value d (Sim.result m w))),
             snd (fst (Scenario.value d (Sim.result m w))),
             snd (Scenario.value d (Sim.result m w))), Sim.after m w).
Proof.
  intros H. rewrite (@sim_returned _ m w d H) at 1.
  destruct (Scenario.value d (Sim.result m w)) as [[x y] z]. reflexivity.
Qed.

Lemma session_at_lookup (a : nat) (w : @World Sim.SimEnv) :
  (a <? List.length (heap w))%nat = true ->
  nth_error (heap w) a = Some (Scenario.session_at a w).
Proof.
  intros H. apply Nat.ltb_lt in H. apply nth_error_nth'. exact H.
Qed.


(** A session under the deterministic policy is asked to navigate to a
    [javascript:] URL. *)
Lemma step_policy_denied_witness :
  exists result w',
    BrowserSession_step 0 Scenario.unsafe_navigation
      (Scenario.one_session false 4 deterministic) = (Ok result, w') /\
    ar_status (action_result result) = "policy_denied" /\
    error_codes result = ["POLICY_DENIED"] /\
    next_recommendation result = "halt" /\
    fs_logs w' = fs_logs (Scenario.one_session false 4 deterministic) /\
    exists s',
      nth_error (heap w') 0 = Some s' /\
      stepIndex s' =
      stepIndex (Scenario.session_at 0
                   (Scenario.one_session false 4 deterministic)).
Proof.
  pose (w := Scenario.one_session false 4 deterministic).
  pose (s := Scenario.session_at 0 w).
  pose (gate := to_policy_gate 0 s Scenario.unsafe_navigation).
  pose (reached :=
          Scenario.value (0, 0, Scenario.blank_packet) (Sim.result gate w)).
  destruct (@step_policy_denied Sim.SimEnv Sim.sim_env 0
              Scenario.unsafe_navigation w (Sim.after gate w) s
              (fst (fst reached)) (snd (fst reached)) (snd reached))
    as (result & w' & Hrun & _ & _ & Hst & _ & Hec & Hrec & _ & Hlog & _ & _
        & s' & Hs' & Hidx & _).
  - apply session_at_lookup. vm_compute. reflexivity.
  - unfold reached, gate. apply sim_returned_triple. vm_compute. reflexivity.
  - unfold admits_step. vm_compute. repeat split; discriminate.
  - vm_compute. reflexivity.
  - exists result, w'.
    exact (conj Hrun (conj Hst (conj Hec (conj Hrec (conj Hlog
             (ex_intro _ s' (conj Hs' Hidx))))))).
Defined.

(** C3. The session object was stopped with [stop(true)]: it is
    inactive, a second [stop] is a no-op and [step] is rejected; but
    [snapshot], which has no guard on [active], still returns a packet and
    appends a [snapshot] event to the trace, after the [stop] event. *)
Theorem stopped_session_still_snapshots :
  option_map active (nth_error (heap Scenario.stopped_session) 0) = Some false /\
  option_map status
    (Scenario.returned_value
       (Sim.result (BrowserSession_stop 0 true) Scenario.stopped_session))
  = Some "already_stopped" /\
  Sim.result (BrowserSession_step 0 Scenario.click_more)
             Scenario.stopped_session
  = Throw "session is not active" /\
  Scenario.returned
    (Sim.result (BrowserSession_snapshot 0 Scenario.plain_snapshot)
                Scenario.stopped_session) = true /\
  map re_type (parse_lines (log_of Scenario.first_trace Scenario.stopped_session))
  = [ev_create; ev_stop] /\
  map re_type
      (parse_lines
         (log_of Scenario.first_trace
            (Sim.after (BrowserSession_snapshot 0 Scenario.plain_snapshot)
                       Scenario.stopped_session)))
  = [ev_create; ev_stop; ev_snapshot].
Proof.
  split; [vm_compute; reflexivity |].
  split; [vm_compute; reflexivity |].
  split; [vm_compute; reflexivity |].
  split; [vm_compute; reflexivity |].
  split; vm_compute; reflexivity.
Qed.




(** The trace of a session after a snapshot, a step, a snapshot and a step
    holds the events 1 to 5; the filter from 2 to 4. *)
Lemma filter_session_trace_witness :
  exists selected w',
    ReplayStore_filter Scenario.first_trace (Some 2) (Some 4)
                       Scenario.five_events = (Ok selected, w') /\
    map re_index selected = [2; 3; 4] /\
    map re_type selected = [ev_snapshot; ev_step; ev_snapshot].
Proof.
  destruct (@filter_session_trace Sim.SimEnv Sim.sim_env Scenario.first_trace
              (Some 2) (Some 4) Scenario.five_events)
    as (selected & w' & Hrun & _ & Hsel & _).
  - apply numbered_session_written. vm_compute. reflexivity.
  - exists tt. vm_compute. reflexivity.
  - exists selected, w'. split; [exact Hrun |].
    rewrite Hsel. split; vm_compute; reflexivity.
Defined.

(** Three builds of a new builder on an unchanging page, a navigation, a
    fourth build. *)
Lemma change_tokens_of_a_builder_witness :
  exists p1 p2 p3 p4 w',
    history 0 Scenario.fresh [p1; p2; p3; p4] w' /\
    map sp_url [p1; p2; p3; p4]
    = [Scenario.example_url; Scenario.example_url; Scenario.example_url;
       "https://example.org/next"] /\
    map change_tokens [p1; p2; p3; p4]
    = [["INIT"]; ["NO_CHANGE"]; ["NO_CHANGE"]; ["STATE_CHANGED"]].
Proof.
  pose (build := @StateBuilder_buildStateSnapshot Sim.SimEnv Sim.sim_env 0
                   Scenario.dom_only_options).
  pose (p1 := Scenario.value Scenario.blank_packet
                (Sim.result build Scenario.fresh)).
  pose (w1 := Sim.after build Scenario.fresh).
  pose (p2 := Scenario.value Scenario.blank_packet (Sim.result build w1)).
  pose (w2 := Sim.after build w1).
  pose (p3 := Scenario.value Scenario.blank_packet (Sim.result build w2)).
  pose (w3 := Sim.after build w2).
  pose (w4 := Sim.after (Scenario.leave_page 0) w3).
  pose (p4 := Scenario.value Scenario.blank_packet (Sim.result build w4)).
  pose (w5 := Sim.after build w4).
  assert (Hh : history 0 Scenario.fresh [p1; p2; p3; p4] w5).
  { apply history_build
      with (w1 := w1) (options := Scenario.dom_only_options).
    { unfold p1, w1, build. apply sim_returned. vm_compute. reflexivity. }
    apply history_build
      with (w1 := w2) (options := Scenario.dom_only_options).
    { unfold p2, w2, build. apply sim_returned. vm_compute. reflexivity. }
    apply history_build
      with (w1 := w3) (options := Scenario.dom_only_options).
    { unfold p3, w3, build. apply sim_returned. vm_compute. reflexivity. }
    apply history_other with (w1 := w4).
    { vm_compute. reflexivity. }
    apply history_build
      with (w1 := w5) (options := Scenario.dom_only_options).
    { unfold p4, w5, build. apply sim_returned. vm_compute. reflexivity. }
    apply history_done. }
  exists p1, p2, p3, p4, w5. split; [exact Hh |].
  split; [vm_compute; reflexivity |].
  destruct (@change_tokens_of_a_builder Sim.SimEnv Sim.sim_env 0
              Scenario.fresh w5 [p1; p2; p3; p4])
    as [Hfirst Hnext].
  - vm_compute. reflexivity.
  - exact Hh.
  - cbn [map].
    rewrite (Hfirst p1 eq_refl).
    rewrite (Hnext 0%nat p1 p2 eq_refl eq_refl).
    rewrite (Hnext 1%nat p2 p3 eq_refl eq_refl).
    rewrite (Hnext 2%nat p3 p4 eq_refl eq_refl).
    vm_compute. reflexivity.
Defined.

(** The pool of one place is taken, and [create] is called for an [ftp:]
    URL. *)
Lemma create_evicts_then_rejects_witness :
  exists w',
    SessionManager_create (Sim.create_input "ftp://example.com/")
                          Scenario.full_pool
    = (Throw "INVALID_SCHEME:Unsupported scheme: ftp:", w') /\
    JsMap.get Scenario.first_id (sessions (manager w')) = None /\
    JsMap.get Scenario.first_id (created (manager w')) = None /\
    exists s', nth_error (heap w') 0 = Some s' /\ active s' = false.
Proof.
  destruct (@create_evicts_then_rejects Sim.SimEnv Sim.sim_env
              (Sim.create_input "ftp://example.com/") Scenario.full_pool
              Scenario.first_id 0%nat
              (Scenario.session_at 0 Scenario.full_pool))
    as (w' & Hrun & _ & Hs & Hc & Hstopped).
  - vm_compute. discriminate.
  - vm_compute. reflexivity.
  - discriminate.
  - vm_compute. reflexivity.
  - apply session_at_lookup. vm_compute. reflexivity.
  - vm_compute. reflexivity.
  - exists w'.
    match type of Hrun with
    | _ = (Throw ?m, _) =>
        assert (Hm : m = "INVALID_SCHEME:Unsupported scheme: ftp:")
          by (vm_compute; reflexivity);
        rewrite Hm in Hrun
    end.
    exact (conj Hrun (conj Hs (conj Hc Hstopped))).
Defined.

(** A click that succeeds, with the default capture settings. *)
Lemma step_has_network_event_witness :
  exists result w',
    BrowserSession_step 0 Scenario.click_more
      (Scenario.one_session false 4 model_owns_action) = (Ok result, w') /\
    network_events (sr_state result) <> [] /\
    ~ In "NO_NETWORK_EVENT" (error_codes result).
Proof.
  pose (w := Scenario.one_session false 4 model_owns_action).
  pose (step := @BrowserSession_step Sim.SimEnv Sim.sim_env 0
                  Scenario.click_more).
  assert (Hrun : step w
                 = (Ok (Scenario.value Scenario.blank_step (Sim.result step w)),
                    Sim.after step w)).
  { unfold step. apply sim_returned. vm_compute. reflexivity. }
  exists (Scenario.value Scenario.blank_step (Sim.result step w)),
         (Sim.after step w).
  split; [exact Hrun |].
  apply (@step_has_network_event Sim.SimEnv Sim.sim_env 0 Scenario.click_more
           w (Sim.after step w) (Scenario.session_at 0 w)
           (Scenario.value Scenario.blank_step (Sim.result step w))).
  - apply session_at_lookup. vm_compute. reflexivity.
  - exact Hrun.
  - vm_compute. discriminate.
  - reflexivity.
  - vm_compute. reflexivity.
Defined.


(* ------------------------------------------------------------------ *)
(** ** The further properties, on runs *)
(* ------------------------------------------------------------------ *)

Lemma sim_run (A : Type) (m : @M Sim.SimEnv A) (w : @World Sim.SimEnv) :
  m w = (Sim.result m w, Sim.after m w).
Proof. apply surjective_pairing. Qed.

Lemma all_sessions_boot (E : Type) (P : BrowserSession -> Prop)
      (w : @World E) :
  heap w = [] -> all_sessions P w.
Proof. intros H b s Hb. rewrite H in Hb. destruct b; discriminate Hb. Qed.

Lemma sim_uuid_truthy (e : Sim.SimEnv) :
  truthy (fst (env_randomUUID e)) = true.
Proof. reflexivity. Qed.

(** The executor clicks a link of the first session. *)
Lemma execute_never_throws_witness :
  exists ar w',
    ActionExecutor_execute 0 Scenario.a_page Scenario.click_more
      (Scenario.one_session false 4 model_owns_action) = (Ok ar, w') /\
    ar_action ar = ai_action Scenario.click_more.
Proof.
  destruct (@execute_never_throws Sim.SimEnv Sim.sim_env 0 Scenario.a_page
              Scenario.click_more
              (Scenario.one_session false 4 model_owns_action))
    as (ar & w' & Hrun & Hact & _).
  - exists (Scenario.session_at 0
              (Scenario.one_session false 4 model_owns_action)).
    apply session_at_lookup. vm_compute. reflexivity.
  - exists ar, w'. exact (conj Hrun Hact).
Defined.

(** The first session takes a step. *)
Lemma step_effect_on_control_state_witness :
  exists k,
    advanced k 0 (Scenario.one_session false 4 model_owns_action)
      (Sim.after (BrowserSession_step 0 Scenario.click_more)
                 (Scenario.one_session false 4 model_owns_action)) /\
    step_advance
      (Sim.result (BrowserSession_step 0 Scenario.click_more)
                  (Scenario.one_session false 4 model_owns_action)) k.
Proof.
  apply (@step_effect_on_control_state Sim.SimEnv Sim.sim_env 0
           Scenario.click_more
           (Scenario.one_session false 4 model_owns_action)
           (Sim.after (BrowserSession_step 0 Scenario.click_more)
                      (Scenario.one_session false 4 model_owns_action))
           (Scenario.session_at 0
              (Scenario.one_session false 4 model_owns_action))
           (Sim.result (BrowserSession_step 0 Scenario.click_more)
                       (Scenario.one_session false 4 model_owns_action))).
  - apply session_at_lookup. vm_compute. reflexivity.
  - apply sim_run.
Defined.

(** A day in the life of a process. *)
Lemma queues_stay_bounded_witness :
  all_sessions bounded Scenario.boot /\
  all_sessions bounded (snd (perform_all Scenario.a_day Scenario.boot)).
Proof.
  assert (H : all_sessions bounded Scenario.boot)
    by (apply all_sessions_boot; reflexivity).
  exact (conj H (@queues_stay_bounded Sim.SimEnv Sim.sim_env Scenario.a_day
                   Scenario.boot H)).
Defined.

Lemma pool_stays_in_order_witness :
  pool (manager Scenario.boot) /\
  pool (manager (snd (perform_all Scenario.a_day Scenario.boot))) /\
  maxSessions (manager (snd (perform_all Scenario.a_day Scenario.boot)))
  = maxSessions (manager Scenario.boot).
Proof.
  assert (H : pool (manager Scenario.boot)).
  { unfold pool. cbn. repeat split; try lia. constructor. }
  exact (conj H (@pool_stays_in_order Sim.SimEnv Sim.sim_env sim_uuid_truthy
                   Scenario.a_day Scenario.boot H)).
Defined.

(** A plain snapshot of the first session. *)
Lemma snapshot_packet_within_request_witness :
  exists p w',
    BrowserSession_snapshot 0 Scenario.plain_snapshot
      (Scenario.one_session false 4 model_owns_action) = (Ok p, w') /\
    within_options
      (mkObserveOptions
         (flag (sn_include_dom Scenario.plain_snapshot))
         (flag (sn_include_ax Scenario.plain_snapshot))
         (flag (sn_include_network Scenario.plain_snapshot))
         (flag (sn_include_frame Scenario.plain_snapshot))
         (Some (p_maxFrames
                  (params (Scenario.session_at 0
                             (Scenario.one_session false 4
                                model_owns_action))))))
      p.
Proof.
  pose (w := Scenario.one_session false 4 model_owns_action).
  pose (m := @BrowserSession_snapshot Sim.SimEnv Sim.sim_env 0
               Scenario.plain_snapshot).
  assert (Hs : nth_error (heap w) 0 = Some (Scenario.session_at 0 w))
    by (apply session_at_lookup; vm_compute; reflexivity).
  assert (Hrun : m w = (Ok (Scenario.value Scenario.blank_packet
                              (Sim.result m w)), Sim.after m w))
    by (apply sim_returned; vm_compute; reflexivity).
  unfold m, w in *.
  exact (ex_intro _ _ (ex_intro _ _
           (conj Hrun
              (@snapshot_packet_within_request Sim.SimEnv Sim.sim_env 0
                 Scenario.plain_snapshot _ _ _ _ Hs Hrun)))).
Defined.

(** An event is appended to the trace [run/1] and read back as
    [run_1]. *)
Lemma append_then_load_witness :
  exists manifest w2,
    ReplayStore_load "run_1"
      (Sim.after (ReplayStore_append "run/1" Scenario.a_stop_event)
                 Scenario.boot) = (Ok manifest, w2) /\
    rm_events manifest =
    parse_lines (log_of "run/1" Scenario.boot) ++ [Scenario.a_stop_event].
Proof.
  pose (m := @ReplayStore_append Sim.SimEnv Sim.sim_env "run/1"
               Scenario.a_stop_event).
  assert (Hrun : m Scenario.boot
                 = (Ok (Scenario.value tt (Sim.result m Scenario.boot)),
                    Sim.after m Scenario.boot))
    by (apply sim_returned; vm_compute; reflexivity).
  unfold m in *.
  destruct (@append_then_load Sim.SimEnv Sim.sim_env "run/1" "run_1"
              Scenario.a_stop_event Scenario.boot _ _ Hrun)
    as ((manifest & w2 & Hload & _ & Hev & _) & _).
  - vm_compute. reflexivity.
  - exists tt. vm_compute. reflexivity.
  - exists manifest, w2. exact (conj Hload Hev).
Defined.

(** The first session of a process. *)
Lemma create_registers_session_witness :
  exists result w',
    SessionManager_create (Sim.create_input Scenario.example_url)
                          Scenario.boot = (Ok result, w') /\
    JsMap.has (cr_session_id result) (created (manager w')) = true /\
    exists a s,
      JsMap.get (cr_session_id result) (sessions (manager w')) = Some a /\
      nth_error (heap w') a = Some s /\
      bs_id s = cr_session_id result /\
      active s = true.
Proof.
  pose (m := @SessionManager_create Sim.SimEnv Sim.sim_env
               (Sim.create_input Scenario.example_url)).
  assert (Hrun : m Scenario.boot
                 = (Ok (Scenario.value Scenario.blank_create
                          (Sim.result m Scenario.boot)),
                    Sim.after m Scenario.boot))
    by (apply sim_returned; vm_compute; reflexivity).
  unfold m in *.
  destruct (@create_registers_session Sim.SimEnv Sim.sim_env _ _ _ _ Hrun)
    as (_ & Hhas & a & s & Hget & Hs & Hid & _ & _ & _ & Hact).
  exact (ex_intro _ _ (ex_intro _ _
           (conj Hrun (conj Hhas
              (ex_intro _ a (ex_intro _ s
                 (conj Hget (conj Hs (conj Hid Hact))))))))).
Defined.

(** A session with a budget of one step, after that step. *)
Lemma spent_budget_stays_spent_witness :
  exists msg,
    BrowserSession_step 0 Scenario.click_more
      (snd (perform_all Scenario.later_calls Scenario.spent))
    = (Throw msg, snd (perform_all Scenario.later_calls Scenario.spent)) /\
    (msg = "session is not active" \/
     exists budget,
       msg = "max_steps reached: " +:+ budget /\
       (Z.abs (p_maxSteps (params (Scenario.session_at 0 Scenario.spent)))
        <= 9007199254740992 ->
        budget = of_Z (p_maxSteps
                         (params (Scenario.session_at 0 Scenario.spent))))).
Proof.
  apply (@spent_budget_stays_spent Sim.SimEnv Sim.sim_env 0
           Scenario.later_calls Scenario.click_more Scenario.spent
           (Scenario.session_at 0 Scenario.spent)).
  - apply session_at_lookup. vm_compute. reflexivity.
  - apply Z.leb_le. vm_compute. reflexivity.
Defined.
